(** * SlicerSOFA: the field-descriptor registry, the synchronisation driver
      and the lifecycle controller of [SlicerSofa/SlicerSofa.py]

    A shallow embedding of [run_once], [SofaNodeMapper],
    [sofaParameterNodeWrapper] and [SlicerSofaLogic].  Python objects that are
    shared and mutated (parameter nodes, descriptors) live in stores indexed
    by locations; the methods of [SlicerSofaLogic] and the decorators are
    programs of a state-and-exception monad in which a raised exception keeps
    the mutations made before it.  What the code calls and the repository
    does not define (the SOFA engine, the movers of the client,
    [get_type_hints], [parameterNodeWrapper], [dataclass]) is a parameter of
    the development. *)

From Stdlib Require Import ZArith.
From stdpp Require Import base option list gmap strings.

Open Scope string_scope.
Open Scope Z_scope.
Open Scope list_scope.

(** ** Python values *)

Definition loc := nat.
Definition node := nat.      (* identity of a Sofa.Core.Node *)
Definition fun_id := nat.    (* identity of a Python function object *)

(** The values that reach the code as arguments or class attributes.  A float
    is carried as its IEEE-754 binary64 bit pattern; the code does no
    arithmetic on it. *)
Inductive pyval :=
| PyNone
| PyBool (b : bool)
| PyInt (z : Z)
| PyFloat (bits : Z)
| PyStr (s : string)
| PyFunc (f : fun_id)        (* a function: callable *)
| PyMapper (r : loc)         (* a SofaNodeMapper instance *)
| PyObj (r : loc)            (* an instance of a wrapped parameter-node class *)
| PyNode (n : node).         (* a Sofa.Core.Node *)

(** Python truth value ([if v], [not v]). *)
Definition truthy (v : pyval) : bool :=
  match v with
  | PyNone => false
  | PyBool b => b
  | PyInt z => negb (z =? 0)
  | PyFloat bits => negb ((bits =? 0) || (bits =? 2 ^ 63))
  | PyStr s => negb (String.eqb s "")
  | PyFunc _ | PyMapper _ | PyObj _ | PyNode _ => true
  end.

(** [callable(v)] *)
Definition callable (v : pyval) : bool :=
  match v with PyFunc _ => true | _ => false end.

(** [v is None], [v is True] *)
Definition is_None (v : pyval) : bool :=
  match v with PyNone => true | _ => false end.
Definition is_True (v : pyval) : bool :=
  match v with PyBool true => true | _ => false end.

(** Python types used by [isinstance] in the wrapper ([bool] is a subclass of
    [int]). *)
Inductive pytype := Tfloat | Tint | Tbool.

Definition isinstance (v : pyval) (t : pytype) : bool :=
  match t, v with
  | Tfloat, PyFloat _ => true
  | Tint, PyInt _ | Tint, PyBool _ => true
  | Tbool, PyBool _ => true
  | _, _ => false
  end.

(** An annotation of a class attribute: one of the types above, or any other
    annotation, by its text. *)
Inductive pyann := AnnType (t : pytype) | AnnOther (text : string).

(** ** Exceptions and outcomes *)

Inductive exn :=
| ValueError (msg : string)
| TypeError (msg : string)
| AttributeError (msg : string)
| NameError (msg : string)
| NodeNotFound (name : string)    (* rootNode[name] on a missing name *)
| PyException (cls msg : string). (* an exception of any other class *)

Inductive outcome (A : Type) :=
| Ok (a : A)
| Raise (e : exn).
Arguments Ok {A} a.
Arguments Raise {A} e.

(** ** SofaNodeMapper

    The attribute [value] does not exist until [__set__] has run. *)

Record SofaNodeMapper := mkSofaNodeMapper {
  nodeName : pyval;                (* name given in the SOFA scene *)
  type : option pyann;             (* None, or the type hint of the field *)
  recordSequence : pyval;
  inputMapping : option fun_id;    (* None or a callable *)
  outputMapping : option fun_id;   (* None or a callable *)
  inputMapping_has_run : bool;
  outputMapping_has_run : bool;
  value : option string
}.

(** [SofaNodeMapper.__init__] (lines 41-54). *)
Definition SofaNodeMapper_init (nodeName inputMapping outputMapping recordSequence : pyval)
  : outcome SofaNodeMapper :=
  if negb (is_None inputMapping) && negb (callable inputMapping) then
    Raise (ValueError "inputMapping is not callable")
  else if negb (is_None outputMapping) && negb (callable outputMapping) then
    Raise (ValueError "outputMapping is not callable")
  else
    Ok {| nodeName := nodeName;
          type := None;
          recordSequence := recordSequence;
          inputMapping := match inputMapping with PyFunc f => Some f | _ => None end;
          outputMapping := match outputMapping with PyFunc f => Some f | _ => None end;
          inputMapping_has_run := false;
          outputMapping_has_run := false;
          value := None |}.

(** [SofaNodeMapper.__get__] (lines 56-57): reading [self.value] raises
    AttributeError as long as the attribute does not exist. *)
Definition SofaNodeMapper_get (m : SofaNodeMapper) : outcome pyval :=
  match value m with
  | Some s => Ok (PyStr s)
  | None => Raise (AttributeError "'SofaNodeMapper' object has no attribute 'value'")
  end.

(** [SofaNodeMapper.__set__] (lines 59-62). *)
Definition SofaNodeMapper_set (m : SofaNodeMapper) (v : pyval) : outcome SofaNodeMapper :=
  match v with
  | PyStr s =>
      Ok {| nodeName := nodeName m; type := type m; recordSequence := recordSequence m;
            inputMapping := inputMapping m; outputMapping := outputMapping m;
            inputMapping_has_run := inputMapping_has_run m;
            outputMapping_has_run := outputMapping_has_run m;
            value := Some s |}
  | _ => Raise (ValueError "Expected type str")
  end.

(** [self.type = ...] (line 68). *)
Definition set_type (t : option pyann) (m : SofaNodeMapper) : SofaNodeMapper :=
  {| nodeName := nodeName m; type := t; recordSequence := recordSequence m;
     inputMapping := inputMapping m; outputMapping := outputMapping m;
     inputMapping_has_run := inputMapping_has_run m;
     outputMapping_has_run := outputMapping_has_run m;
     value := value m |}.

(** The two directions of data movement: [ToSofa] is the input direction
    ([__updateSofa__], Push), [ToMRML] the output direction ([__updateMRML__],
    Pull). *)
Inductive direction := ToSofa | ToMRML.

Definition same_dir (d d' : direction) : bool :=
  match d, d' with
  | ToSofa, ToSofa | ToMRML, ToMRML => true
  | _, _ => false
  end.

Definition mapping (d : direction) (m : SofaNodeMapper) : option fun_id :=
  match d with ToSofa => inputMapping m | ToMRML => outputMapping m end.

Definition has_run (d : direction) (m : SofaNodeMapper) : bool :=
  match d with ToSofa => inputMapping_has_run m | ToMRML => outputMapping_has_run m end.

(** [sofa_node_mapper.inputMapping_has_run = True] (resp. output). *)
Definition set_has_run (d : direction) (m : SofaNodeMapper) : SofaNodeMapper :=
  match d with
  | ToSofa =>
      {| nodeName := nodeName m; type := type m; recordSequence := recordSequence m;
         inputMapping := inputMapping m; outputMapping := outputMapping m;
         inputMapping_has_run := true;
         outputMapping_has_run := outputMapping_has_run m;
         value := value m |}
  | ToMRML =>
      {| nodeName := nodeName m; type := type m; recordSequence := recordSequence m;
         inputMapping := inputMapping m; outputMapping := outputMapping m;
         inputMapping_has_run := inputMapping_has_run m;
         outputMapping_has_run := true;
         value := value m |}
  end.

(** ** Parameter nodes *)

(** The simulation-control fields that [sofaParameterNodeWrapper] adds to a
    class (lines 93-97); every instance carries its own values. *)
Record fields := mkFields {
  dt : Z;                          (* float, as its bit pattern *)
  totalSteps : Z;
  currentStep : Z;
  isSimulationRunning : bool;
  sofaParameterNodeWrapped : bool
}.

(** An instance of a wrapped class: its fields, and the registry
    [__sofa_node_mappers__] of its class (field name, descriptor).  The
    descriptors are shared by all instances of the class, so the registry
    holds their locations. *)
Record pnode := mkPnode {
  attrs : fields;
  sofa_node_mappers : list (string * loc)
}.

Definition with_dt (bits : Z) (a : fields) : fields :=
  {| dt := bits; totalSteps := totalSteps a; currentStep := currentStep a;
     isSimulationRunning := isSimulationRunning a;
     sofaParameterNodeWrapped := sofaParameterNodeWrapped a |}.

Definition with_currentStep (z : Z) (a : fields) : fields :=
  {| dt := dt a; totalSteps := totalSteps a; currentStep := z;
     isSimulationRunning := isSimulationRunning a;
     sofaParameterNodeWrapped := sofaParameterNodeWrapped a |}.

Definition with_isSimulationRunning (b : bool) (a : fields) : fields :=
  {| dt := dt a; totalSteps := totalSteps a; currentStep := currentStep a;
     isSimulationRunning := b;
     sofaParameterNodeWrapped := sofaParameterNodeWrapped a |}.

Definition with_attrs (a : fields) (p : pnode) : pnode :=
  {| attrs := a; sofa_node_mappers := sofa_node_mappers p |}.

(** ** Classes

    A class object as the decorator sees it: its namespace [__dict__] and its
    [__annotations__], both in definition order.  The classes of the model
    have no base class other than [object], so that an attribute of the class
    is a name of its namespace; the entries that every class has
    ([__module__], [__doc__], ...) are left out: none of them is a descriptor
    or a control attribute. *)

(** A dict with string keys, in insertion order. *)
Fixpoint dict_get {V} (k : string) (d : list (string * V)) : option V :=
  match d with
  | [] => None
  | (k', v) :: rest => if String.eqb k' k then Some v else dict_get k rest
  end.

(** [d[k] = v]: a key that is there keeps its place. *)
Fixpoint dict_set {V} (k : string) (v : V) (d : list (string * V)) : list (string * V) :=
  match d with
  | [] => [(k, v)]
  | (k', w) :: rest =>
      if String.eqb k' k then (k', v) :: rest else (k', w) :: dict_set k v rest
  end.

Definition namespace := list (string * pyval).

Record pyclass := mkClass {
  cls_dict : namespace;                     (* cls.__dict__ *)
  cls_annotations : list (string * pyann)   (* cls.__annotations__; [] when absent *)
}.

(** The class that the decorator returns: the class that [dataclass] has
    returned, and the registry assigned to its [__sofa_node_mappers__]. *)
Record wrapped_cls := mkWrapped {
  wrapped_class : pyclass;
  cls_sofa_node_mappers : list (string * loc)
}.

(** ** The environment: SOFA, the movers supplied by the client, and the
       libraries used by the decorators

    None of this is code of the repository.  The engine entry points are
    transformers of the state outside the model ([scene]: the SOFA graph and
    the MRML scene).  A mover is handed the parameter node and the resolved
    node; it may rewrite the fields of the parameter node it is handed and the
    scene, and it ends by returning or by raising an exception. *)
Class Environment := {
  scene : Type;
  (** [rootNode[name]]: [None] when the graph has no such node. *)
  Node_getitem : node → string → scene → option node;
  (** [Sofa.Simulation.init], [animate], [unload] *)
  Simulation_init : node → scene → scene;
  Simulation_animate : node → Z → scene → scene;
  Simulation_unload : node → scene → scene;
  (** [mover(parameterNode, node)]; [node] is [None] when the controller holds
      no root node.  [call_mover] is what the call has done to the fields and
      to the scene when it ends; [mover_raises] is the exception it ends with,
      [None] when it returns. *)
  call_mover : fun_id → fields → option node → scene → fields * scene;
  mover_raises : fun_id → fields → option node → scene → option exn;
  (** Whether the callable takes attributes ([func.run_once = True]): a
      function or a lambda does, a bound method or a builtin does not. *)
  has_dict : fun_id → bool;
  (** [typing.get_type_hints(cls)]: the type hints of the class, or the
      exception raised when an annotation does not resolve. *)
  get_type_hints : pyclass → outcome (list (string * pyann));
  (** [slicer.parameterNodeWrapper.parameterNodeWrapper(cls)] and
      [dataclasses.dataclass(cls)]: the class returned, or the exception
      raised. *)
  parameterNodeWrapper : pyclass → outcome pyclass;
  dataclass : pyclass → outcome pyclass
}.

(** What the controller did, in order: instrumentation for the properties that
    count calls. *)
Inductive event :=
| EvSync (d : direction)                              (* entry of __updateSofa__ / __updateMRML__ *)
| EvResolve (d : direction) (r : loc) (name : string) (* rootNode[name] for descriptor r *)
| EvMover (d : direction) (r : loc) (f : fun_id)      (* the mover of descriptor r is called *)
| EvInit (n : node)
| EvAnimate (n : node) (dt : Z)
| EvUnload (n : node)
| EvErrorDisplay (msg : string).                      (* slicer.util.errorDisplay *)

(** ** The state and the monad of the methods *)

Section Controller.
Context `{Env : Environment}.

(** The instance attributes of [SlicerSofaLogic] ([__init__], lines 157-163). *)
Record SlicerSofaLogic := mkLogic {
  _sceneUp : bool;
  _rootNode : option node;
  _parameterNode : option loc
}.

Record State := mkState {
  self : SlicerSofaLogic;
  objs : gmap loc pnode;               (* parameter-node instances *)
  mappers : gmap loc SofaNodeMapper;   (* descriptor objects *)
  run_once_fns : gset fun_id;          (* functions whose attribute run_once is set *)
  sofa : scene;
  log : list event
}.

Definition prog (A : Type) : Type := State → outcome A * State.

#[global] Instance prog_ret : MRet prog := λ A a st, (Ok a, st).
#[global] Instance prog_bind : MBind prog := λ A B k m st,
  match m st with
  | (Ok a, st') => k a st'
  | (Raise e, st') => (Raise e, st')
  end.

Definition raise {A} (e : exn) : prog A := λ st, (Raise e, st).

Definition gets {A} (f : State → A) : prog A := λ st, (Ok (f st), st).
Definition modify (f : State → State) : prog unit := λ st, (Ok tt, f st).

Definition set_self (l : SlicerSofaLogic) (st : State) : State :=
  {| self := l; objs := objs st; mappers := mappers st;
     run_once_fns := run_once_fns st; sofa := sofa st; log := log st |}.
Definition set_objs (o : gmap loc pnode) (st : State) : State :=
  {| self := self st; objs := o; mappers := mappers st;
     run_once_fns := run_once_fns st; sofa := sofa st; log := log st |}.
Definition set_mappers (ms : gmap loc SofaNodeMapper) (st : State) : State :=
  {| self := self st; objs := objs st; mappers := ms;
     run_once_fns := run_once_fns st; sofa := sofa st; log := log st |}.
Definition set_run_once_fns (fs : gset fun_id) (st : State) : State :=
  {| self := self st; objs := objs st; mappers := mappers st;
     run_once_fns := fs; sofa := sofa st; log := log st |}.
Definition set_sofa (sc : scene) (st : State) : State :=
  {| self := self st; objs := objs st; mappers := mappers st;
     run_once_fns := run_once_fns st; sofa := sc; log := log st |}.
Definition set_log (l : list event) (st : State) : State :=
  {| self := self st; objs := objs st; mappers := mappers st;
     run_once_fns := run_once_fns st; sofa := sofa st; log := l |}.

Definition emit (e : event) : prog unit :=
  modify (λ st, set_log (log st ++ [e]) st).

(** Assignments to the attributes of [self]. *)
Definition assign_sceneUp (b : bool) : prog unit :=
  modify (λ st, set_self {| _sceneUp := b; _rootNode := _rootNode (self st);
                            _parameterNode := _parameterNode (self st) |} st).
Definition assign_rootNode (n : option node) : prog unit :=
  modify (λ st, set_self {| _sceneUp := _sceneUp (self st); _rootNode := n;
                            _parameterNode := _parameterNode (self st) |} st).
Definition assign_parameterNode (p : option loc) : prog unit :=
  modify (λ st, set_self {| _sceneUp := _sceneUp (self st);
                            _rootNode := _rootNode (self st);
                            _parameterNode := p |} st).

(** [self._parameterNode.<attribute>]: an attribute of [None] (or of a
    location that holds no parameter node) does not exist. *)
Definition the_parameterNode : prog (loc * pnode) :=
  λ st, match _parameterNode (self st) with
        | None => (Raise (AttributeError "'NoneType' object has no such attribute"), st)
        | Some r =>
            match objs st !! r with
            | Some p => (Ok (r, p), st)
            | None => (Raise (AttributeError "no such attribute"), st)
            end
        end.

Definition read_fields : prog fields :=
  rp ← the_parameterNode; mret (attrs rp.2).

(** [self._parameterNode.<field> = ...] *)
Definition write_fields (f : fields → fields) : prog unit :=
  rp ← the_parameterNode;
  modify (λ st, set_objs (<[rp.1 := with_attrs (f (attrs rp.2)) rp.2]> (objs st)) st).

(** ** Engine calls *)

Definition Sofa_Simulation_init (n : node) : prog unit :=
  emit (EvInit n);;
  modify (λ st, set_sofa (Simulation_init n (sofa st)) st).

Definition Sofa_Simulation_animate (n : node) (dt : Z) : prog unit :=
  emit (EvAnimate n dt);;
  modify (λ st, set_sofa (Simulation_animate n dt (sofa st)) st).

Definition Sofa_Simulation_unload (n : node) : prog unit :=
  emit (EvUnload n);;
  modify (λ st, set_sofa (Simulation_unload n (sofa st)) st).

Definition errorDisplay (msg : string) : prog unit :=
  emit (EvErrorDisplay msg).

(** ** The synchronisation driver: [__updateSofa__] and [__updateMRML__]

    The two methods differ only in the mover and the flag they use
    ([inputMapping]/[inputMapping_has_run] against
    [outputMapping]/[outputMapping_has_run]); [sync d] is their common text. *)

(** [getattr(mover, 'run_once', False)] *)
Definition run_once_attr (f : fun_id) : prog bool :=
  gets (λ st, bool_decide (f ∈ run_once_fns st)).

(** [self._rootNode[name] if name else self._rootNode] for descriptor [r]. *)
Definition resolve (d : direction) (r : loc) (name : pyval) : prog (option node) :=
  root ← gets (λ st, _rootNode (self st));
  if truthy name then
    match root, name with
    | None, _ => raise (TypeError "'NoneType' object is not subscriptable")
    | Some n, PyStr s =>
        emit (EvResolve d r s);;
        sc ← gets sofa;
        match Node_getitem n s sc with
        | Some n' => mret (Some n')
        | None => raise (NodeNotFound s)
        end
    | Some _, _ => raise (TypeError "node names are strings")
    end
  else mret root.

(** [mover(self._parameterNode, node)]: the arguments are evaluated, then the
    mover is called; it reads and writes the fields of the parameter node and
    the scene.  What it has written stays when it raises, and the exception
    leaves the driver. *)
Definition invoke (d : direction) (r : loc) (f : fun_id) (n : option node) : prog unit :=
  rp ← the_parameterNode;
  emit (EvMover d r f);;
  sc ← gets sofa;
  let res := call_mover f (attrs rp.2) n sc in
  modify (λ st, set_sofa res.2 (set_objs (<[rp.1 := with_attrs res.1 rp.2]> (objs st)) st));;
  match mover_raises f (attrs rp.2) n sc with
  | Some e => raise e
  | None => mret tt
  end.

(** [sofa_node_mapper.<dir>Mapping_has_run = True] on the shared descriptor. *)
Definition mark_has_run (d : direction) (r : loc) : prog unit :=
  modify (λ st, set_mappers (alter (set_has_run d) r (mappers st)) st).

(** The body of the [for] loop for one registry entry. *)
Definition sync_body (d : direction) (r : loc) : prog unit :=
  om ← gets (λ st, mappers st !! r);
  match om with
  | None => raise (AttributeError "not a SofaNodeMapper")
  | Some sofa_node_mapper =>
      let name := nodeName sofa_node_mapper in
      match mapping d sofa_node_mapper with
      | None => mret tt
      | Some mover =>
          run_once ← run_once_attr mover;
          if run_once && has_run d sofa_node_mapper then mret tt   (* continue *)
          else
            n ← resolve d r name;
            invoke d r mover n;;
            if run_once then mark_has_run d r else mret tt
      end
  end.

Fixpoint for_each (items : list (string * loc)) (body : loc → prog unit) : prog unit :=
  match items with
  | [] => mret tt
  | (_, r) :: rest => body r;; for_each rest body
  end.

Definition sync (d : direction) : prog unit :=
  emit (EvSync d);;
  rp ← the_parameterNode;
  for_each (sofa_node_mappers rp.2) (sync_body d).

Definition __updateSofa__ : prog unit := sync ToSofa.
Definition __updateMRML__ : prog unit := sync ToMRML.


(** ** The lifecycle controller: the methods of [SlicerSofaLogic] *)

(** [SlicerSofaLogic.__init__] *)
Definition SlicerSofaLogic_init : SlicerSofaLogic :=
  {| _sceneUp := false; _rootNode := None; _parameterNode := None |}.

(** [getattr(parameterNode, 'sofaParameterNodeWrapped')] without a default:
    only instances of wrapped classes have the attribute. *)
Definition getattr_sofaParameterNodeWrapped (parameterNode : pyval) : prog pyval :=
  match parameterNode with
  | PyObj r =>
      op ← gets (λ st, objs st !! r);
      match op with
      | Some p => mret (PyBool (sofaParameterNodeWrapped (attrs p)))
      | None => raise (AttributeError "sofaParameterNodeWrapped")
      end
  | _ => raise (AttributeError "sofaParameterNodeWrapped")
  end.

(** [__checkParameterNode__] (lines 165-169); on success the argument is the
    instance at the returned location. *)
Definition __checkParameterNode__ (parameterNode : pyval) : prog unit :=
  if is_None parameterNode then
    raise (ValueError "parameterNode can't be None")
  else
    v ← getattr_sofaParameterNodeWrapped parameterNode;
    if negb (truthy v) then
      raise (ValueError "parameterNode is not a valid parameterNode wrapped by the sofaParameterNodeWrapper")
    else
      v' ← getattr_sofaParameterNodeWrapped parameterNode;
      if negb (is_True v') then
        raise (ValueError "parameterNode is not a valid parameterNode wrapped by the sofaParameterNodeWrapper")
      else mret tt.

Definition as_loc (v : pyval) : option loc :=
  match v with PyObj r => Some r | _ => None end.

(** [isinstance(rootNode, Sofa.Core.Node)] *)
Definition as_node (v : pyval) : option node :=
  match v with PyNode n => Some n | _ => None end.

(** [setupScene] (lines 171-184) *)
Definition setupScene (parameterNode rootNode : pyval) : prog unit :=
  up ← gets (λ st, _sceneUp (self st));
  if (up : bool) then mret tt
  else
    __checkParameterNode__ parameterNode;;
    assign_parameterNode (as_loc parameterNode);;
    match as_node rootNode with
    | None => raise (ValueError "rootNode is not a valid Sofa.Core.Node root node")
    | Some n =>
        assign_rootNode (Some n);;
        __updateSofa__;;
        Sofa_Simulation_init n;;
        assign_sceneUp true
    end.

(** [startSimulation] (lines 186-189) *)
Definition startSimulation : prog unit :=
  write_fields (with_currentStep 0);;
  write_fields (with_isSimulationRunning true).

(** [stopSimulation] (lines 191-194) *)
Definition stopSimulation : prog unit :=
  up ← gets (λ st, _sceneUp (self st));
  if (up : bool) then write_fields (with_isSimulationRunning false) else mret tt.

(** [Sofa.Simulation.animate(self._rootNode, self._parameterNode.dt)]; the
    engine is handed whatever [_rootNode] holds. *)
Definition animate_root : prog unit :=
  root ← gets (λ st, _rootNode (self st));
  a ← read_fields;
  match (root : option node) with
  | Some n => Sofa_Simulation_animate n (dt a)
  | None => raise (TypeError "animate: the root node is None")
  end.

(** [simulationStep] (lines 196-213).  The condition of line 199 is an [or]:
    the running flag is read only when [_sceneUp] is true. *)
Definition simulationStep : prog unit :=
  up ← gets (λ st, _sceneUp (self st));
  stopped ← (if negb (up : bool) then mret true
             else a ← read_fields; mret (negb (isSimulationRunning a)));
  if (stopped : bool) then
    errorDisplay "Can't advance the simulation forward. Simulation is not running."
  else
    __updateSofa__;;
    a ← read_fields;
    (if currentStep a <? totalSteps a then
       animate_root;;
       write_fields (λ a', with_currentStep (currentStep a' + 1) a')
     else if totalSteps a <? 0 then
       animate_root
     else
       write_fields (with_isSimulationRunning false));;
    __updateMRML__.

(** [clean] (lines 215-221) *)
Definition clean : prog unit :=
  up ← gets (λ st, _sceneUp (self st));
  root ← gets (λ st, _rootNode (self st));
  match (up : bool), (root : option node) with
  | true, Some n =>
      Sofa_Simulation_unload n;;
      assign_rootNode None;;
      assign_sceneUp false;;
      write_fields (with_isSimulationRunning false)
  | _, _ => mret tt
  end.

(** The [run_once] decorator (lines 25-27): the assignment of line 26 raises
    on a callable that takes no attributes. *)
Definition run_once (func : fun_id) : prog pyval :=
  (if has_dict func then
     modify (λ st, set_run_once_fns ({[func]} ∪ run_once_fns st) st)
   else raise (AttributeError "object has no attribute 'run_once'"));;
  mret (PyFunc func).

(** ** Calls from a client *)

Inductive call :=
| SetupScene (parameterNode rootNode : pyval)
| StartSimulation
| StopSimulation
| SimulationStep
| Clean
| UpdateSofa      (* __updateSofa__ *)
| UpdateMRML.     (* __updateMRML__ *)

Definition exec (c : call) : prog unit :=
  match c with
  | SetupScene p n => setupScene p n
  | StartSimulation => startSimulation
  | StopSimulation => stopSimulation
  | SimulationStep => simulationStep
  | Clean => clean
  | UpdateSofa => __updateSofa__
  | UpdateMRML => __updateMRML__
  end.

(** A client that makes the calls one after the other and goes on after an
    exception (each call is, say, a GUI callback): the state after them. *)
Definition run (cs : list call) (st : State) : State :=
  foldl (λ s c, (exec c s).2) st cs.

(** The outcomes of the calls, in order. *)
Fixpoint outcomes (cs : list call) (st : State) : list (outcome unit) :=
  match cs with
  | [] => []
  | c :: cs' => (exec c st).1 :: outcomes cs' (exec c st).2
  end.

(** ** Declaring a parameter-node class: [sofaParameterNodeWrapper] *)

(** The outcome of a call of a library function. *)
Definition lift {A} (o : outcome A) : prog A :=
  match o with Ok a => mret a | Raise e => raise e end.

(** [getattr(cls, var)] on a class: the name is looked up in the namespace;
    a value that is a SofaNodeMapper answers through its [__get__], any other
    value is the attribute. *)
Definition getattr_cls (cls : pyclass) (var : string) : prog pyval :=
  match dict_get var (cls_dict cls) with
  | None => raise (AttributeError var)
  | Some (PyMapper r) =>
      om ← gets (λ st, mappers st !! r);
      match om with
      | Some m => lift (SofaNodeMapper_get m)
      | None => raise (AttributeError var)
      end
  | Some v => mret v
  end.

(** [hasattr(cls, var)]: whether [getattr(cls, var)] returns; an
    AttributeError is caught, any other exception leaves. *)
Definition hasattr_cls (cls : pyclass) (var : string) : prog bool :=
  λ st, match getattr_cls cls var st with
        | (Ok _, st') => (Ok true, st')
        | (Raise (AttributeError _), st') => (Ok false, st')
        | (Raise e, st') => (Raise e, st')
        end.

(** [setattr(cls, var, v)], and [name = v] in a class body. *)
Definition setattr_cls (var : string) (v : pyval) (cls : pyclass) : pyclass :=
  {| cls_dict := dict_set var v (cls_dict cls); cls_annotations := cls_annotations cls |}.

(** [cls.__annotations__[var] = a], and [name: a] in a class body. *)
Definition set_annotation (var : string) (a : pyann) (cls : pyclass) : pyclass :=
  {| cls_dict := cls_dict cls; cls_annotations := dict_set var a (cls_annotations cls) |}.

(** One statement of a class body: [name = v],
    [name = SofaNodeMapper(nodeName, inputMapping, outputMapping, recordSequence)],
    or the annotation [name: a] (an annotated assignment is an assignment and
    an annotation). *)
Inductive decl :=
| Attr (name : string) (v : pyval)
| Mapper (name : string) (nodeName inputMapping outputMapping recordSequence : pyval)
| Annotation (name : string) (a : pyann).

(** Allocation of a constructed descriptor. *)
Definition alloc_mapper (m : SofaNodeMapper) : prog loc :=
  λ st, let r := fresh (dom (mappers st)) in
        (Ok r, set_mappers (<[r := m]> (mappers st)) st).

Fixpoint class_body (ds : list decl) (cls : pyclass) : prog pyclass :=
  match ds with
  | [] => mret cls
  | Attr name v :: rest => class_body rest (setattr_cls name v cls)
  | Mapper name a b c d :: rest =>
      match SofaNodeMapper_init a b c d with
      | Raise e => raise e
      | Ok m => r ← alloc_mapper m; class_body rest (setattr_cls name (PyMapper r) cls)
      end
  | Annotation name a :: rest => class_body rest (set_annotation name a cls)
  end.

(** [__checkAndCreate__] (lines 78-90) *)
Definition __checkAndCreate__ (cls : pyclass) (var : string)
    (expectedType : pytype) (defaultValue : pyval) : prog pyclass :=
  has ← hasattr_cls cls var;
  if (has : bool) then
    current_value ← getattr_cls cls var;
    if negb (isinstance current_value expectedType) then
      raise (TypeError ("sofaParameterNodeWrapper: " ++ var ++ " has the wrong type")%string)
    else mret cls
  else
    mret (set_annotation var (AnnType expectedType) (setattr_cls var defaultValue cls)).

(** [SofaNodeMapper.infer_type] (lines 64-68), on the descriptor at [r]. *)
Definition infer_type (r : loc) (owner_class : pyclass) (field_name : string) : prog unit :=
  type_hints ← lift (get_type_hints owner_class);
  modify (λ st, set_mappers (alter (set_type (dict_get field_name type_hints)) r
                               (mappers st)) st).

(** The loop of lines 100-105 over the items of [cls.__dict__]. *)
Fixpoint scan_mappers (cls : pyclass) (items : namespace)
    (sofa_node_mappers : list (string * loc)) : prog (list (string * loc)) :=
  match items with
  | [] => mret sofa_node_mappers
  | (field_name, PyMapper r) :: rest =>
      infer_type r cls field_name;;
      scan_mappers cls rest (dict_set field_name r sofa_node_mappers)
  | _ :: rest => scan_mappers cls rest sofa_node_mappers
  end.

(** 0.01 as a binary64 *)
Definition float_0_01 : Z := 0x3F847AE147AE147B.

(** [sofaParameterNodeWrapper] (lines 74-114).  The decorator changes the
    class it is given in place; the model threads the class through. *)
Definition sofaParameterNodeWrapper (cls : pyclass) : prog wrapped_cls :=
  cls ← __checkAndCreate__ cls "dt" Tfloat (PyFloat float_0_01);
  cls ← __checkAndCreate__ cls "totalSteps" Tint (PyInt (-1));
  cls ← __checkAndCreate__ cls "currentStep" Tint (PyInt 0);
  cls ← __checkAndCreate__ cls "isSimulationRunning" Tbool (PyBool false);
  cls ← __checkAndCreate__ cls "sofaParameterNodeWrapped" Tbool (PyBool true);
  sofa_node_mappers ← scan_mappers cls (cls_dict cls) [];
  wrapped ← lift (parameterNodeWrapper cls);
  wrapped ← lift (dataclass wrapped);
  mret {| wrapped_class := wrapped; cls_sofa_node_mappers := sofa_node_mappers |}.

(** A decorated class statement: the body is evaluated, then the decorator is
    applied to the class. *)
Definition empty_class : pyclass := {| cls_dict := []; cls_annotations := [] |}.

Definition declare_class (ds : list decl) : prog wrapped_cls :=
  cls ← class_body ds empty_class;
  sofaParameterNodeWrapper cls.

(** ** Vocabulary of the properties *)

Fixpoint count_events (P : event → bool) (l : list event) : nat :=
  match l with
  | [] => O
  | e :: l' => (if P e then 1 else 0)%nat + count_events P l'
  end.

(** A Push ([ToSofa]) or a Pull ([ToMRML]) was started. *)
Definition is_sync (d : direction) (e : event) : bool :=
  match e with EvSync d' => same_dir d d' | _ => false end.

(** The mover of descriptor [r] in direction [d] was called. *)
Definition is_mover (d : direction) (r : loc) (e : event) : bool :=
  match e with
  | EvMover d' r' _ => same_dir d d' && Nat.eqb r r'
  | _ => false
  end.

(** The mover of descriptor [r] in direction [d] was called, or its node was
    looked up. *)
Definition touches (d : direction) (r : loc) (e : event) : bool :=
  match e with
  | EvMover d' r' _ | EvResolve d' r' _ => same_dir d d' && Nat.eqb r r'
  | _ => false
  end.

(** [self._parameterNode] is the parameter node [p], stored at [r]. *)
Definition attached (st : State) (r : loc) (p : pnode) : Prop :=
  _parameterNode (self st) = Some r ∧ objs st !! r = Some p.

(** The running flag and the step counter, read through [self._parameterNode]. *)
Definition running (st : State) : option bool :=
  r ← _parameterNode (self st); p ← objs st !! r;
  Some (isSimulationRunning (attrs p)).

Definition step_counter (st : State) : option Z :=
  r ← _parameterNode (self st); p ← objs st !! r;
  Some (currentStep (attrs p)).

(** The Built state: the scene is up, on a root node and a parameter node. *)
Definition Built (st : State) : Prop :=
  _sceneUp (self st) = true ∧ is_Some (_rootNode (self st)) ∧
  ∃ r p, attached st r p.

(** The flag of descriptor [r] for direction [d], and whether its mover is a
    run-once mover. *)
Definition flag (d : direction) (r : loc) (st : State) : option bool :=
  has_run d <$> mappers st !! r.

Definition run_once_mover (d : direction) (r : loc) (st : State) : Prop :=
  ∃ m f, mappers st !! r = Some m ∧ mapping d m = Some f ∧ f ∈ run_once_fns st.

(** A mover whose calls return. *)
Definition mover_returns (f : fun_id) : Prop :=
  ∀ a n sc, mover_raises f a n sc = None.

(** A mover that leaves the simulation-control fields of the parameter node as
    it found them. *)
Definition keeps_control (f : fun_id) : Prop :=
  ∀ a n sc,
    let a' := (call_mover f a n sc).1 in
    totalSteps a' = totalSteps a ∧ currentStep a' = currentStep a ∧
    isSimulationRunning a' = isSimulationRunning a.

(** A node name that the graph under [root] always has (or no name: the root
    itself). *)
Definition resolvable (root : node) (name : pyval) : Prop :=
  truthy name = false ∨
  ∃ s, name = PyStr s ∧ ∀ sc, is_Some (Node_getitem root s sc).

(** A registry entry whose descriptor exists, whose movers return and keep the
    control fields, and whose named node is in the graph. *)
Definition entry_ok (st : State) (root : node) (r : loc) : Prop :=
  ∃ m, mappers st !! r = Some m ∧
       ∀ d f, mapping d m = Some f →
              mover_returns f ∧ keeps_control f ∧ resolvable root (nodeName m).

(** The descriptors of the attached parameter node exist, their named nodes
    are in the graph and their movers return and keep the control fields. *)
Definition well_behaved (st : State) : Prop :=
  ∀ root r p, _rootNode (self st) = Some root → attached st r p →
    Forall (λ e, entry_ok st root e.2) (sofa_node_mappers p).

(** What a descriptor is constructed with; only the flags move afterwards, and
    only upwards. *)
Definition same_static (m m' : SofaNodeMapper) : Prop :=
  nodeName m' = nodeName m ∧ recordSequence m' = recordSequence m ∧
  inputMapping m' = inputMapping m ∧ outputMapping m' = outputMapping m ∧
  ∀ d, has_run d m = true → has_run d m' = true.

Definition evolves (st st' : State) : Prop :=
  run_once_fns st' = run_once_fns st ∧
  ∀ r, match mappers st !! r with
       | Some m => ∃ m', mappers st' !! r = Some m' ∧ same_static m m'
       | None => mappers st' !! r = None
       end.

(** The run-once discipline of descriptor [r] in direction [d], between two
    states, when its mover [f] is a run-once function: the descriptor keeps its
    mover; with the flag set nothing touches the mover; with the flag clear
    and a mover whose calls return, either the mover was not called and the
    flag is still clear, or it was called once and the flag is set. *)
Definition once (d : direction) (r : loc) (st st' : State) : Prop :=
  ∀ m f, mappers st !! r = Some m → mapping d m = Some f → f ∈ run_once_fns st →
  (∃ m', mappers st' !! r = Some m' ∧ mapping d m' = Some f) ∧
  f ∈ run_once_fns st' ∧
  if has_run d m then
    flag d r st' = Some true ∧
    List.filter (touches d r) (log st') = List.filter (touches d r) (log st)
  else
    mover_returns f →
    (flag d r st' = Some false ∧
     count_events (is_mover d r) (log st') = count_events (is_mover d r) (log st)) ∨
    (flag d r st' = Some true ∧
     count_events (is_mover d r) (log st') = S (count_events (is_mover d r) (log st))).

(** Whether a call has returned, from the exception it ended with. *)
Definition returned (exc : option exn) : bool :=
  match exc with None => true | Some _ => false end.

(** The outcome of a call that ended with [exc]. *)
Definition outcome_of (exc : option exn) : outcome unit :=
  match exc with None => Ok tt | Some e => Raise e end.

(** The state after the flag of a run-once mover is set; unchanged for the
    others. *)
Definition finish (d : direction) (r : loc) (once_ : bool) (st : State) : State :=
  if once_ then set_mappers (alter (set_has_run d) r (mappers st)) st else st.

(** No Push (resp. Pull) was started between the two states. *)
Definition unsynced (d : direction) (st st' : State) : Prop :=
  count_events (is_sync d) (log st') = count_events (is_sync d) (log st).

(** Relations that do not look at the controller, the parameter nodes or the
    scene. *)
Class Framed (R : State → State → Prop) := {
  framed_preorder :: PreOrder R;
  framed_self st l : R st (set_self l st);
  framed_objs st o : R st (set_objs o st);
  framed_sofa st sc : R st (set_sofa sc st)
}.

(** An event that a relation does not see. *)
Definition quiet (R : State → State → Prop) (e : event) : Prop :=
  ∀ st, R st (set_log (log st ++ [e]) st).

(** A program that relates the state it leaves to the state it found,
    whatever its outcome. *)
Definition keeps (R : State → State → Prop) {A} (m : prog A) : Prop :=
  ∀ st, R st (m st).2.

(** A program that returns normally from every state in [P], in a state in
    [Q]. *)
Definition returns (P : State → Prop) {A} (m : prog A) (Q : A → State → Prop) : Prop :=
  ∀ st, P st → ∃ a, (m st).1 = Ok a ∧ Q a (m st).2.

(** The invariant of a simulation in progress: the controller is on root
    [root] and on the parameter node at [r], whose class has registry [reg];
    the node has [totalSteps = N], [currentStep = c] and running flag [b]; the
    descriptors of the registry are well behaved. *)
Definition Sim (up : bool) (root : node) (r : loc) (reg : list (string * loc))
    (N c : Z) (b : bool) (st : State) : Prop :=
  self st = {| _sceneUp := up; _rootNode := Some root; _parameterNode := Some r |} ∧
  (∃ p, objs st !! r = Some p ∧ sofa_node_mappers p = reg ∧
        totalSteps (attrs p) = N ∧ currentStep (attrs p) = c ∧
        isSimulationRunning (attrs p) = b) ∧
  Forall (λ e, entry_ok st root e.2) reg.

(** The message of [simulationStep] when the simulation is not running. *)
Definition not_running_msg : string :=
  "Can't advance the simulation forward. Simulation is not running.".

(** Repeated calls of [setupScene], each with its own arguments. *)
Definition setups (args : list (pyval * pyval)) : list call :=
  map (λ ab, SetupScene ab.1 ab.2) args.

(** [n] calls of [simulationStep]. *)
Definition steps (n : nat) : list call := replicate n SimulationStep.

(** The arguments that [__checkParameterNode__] accepts, and those it rejects
    with its own error. *)
Definition valid_container (st : State) (v : pyval) : Prop :=
  ∃ r p, v = PyObj r ∧ objs st !! r = Some p ∧
         sofaParameterNodeWrapped (attrs p) = true.

Definition rejected_container (st : State) (v : pyval) : Prop :=
  v = PyNone ∨
  ∃ r p, v = PyObj r ∧ objs st !! r = Some p ∧
         sofaParameterNodeWrapped (attrs p) = false.

(** ** Vocabulary of the further properties *)

(** The [rootNode] property (lines 223-225). *)
Definition rootNode (st : State) : option node := _rootNode (self st).

Definition is_init (e : event) : bool :=
  match e with EvInit _ => true | _ => false end.

Definition is_animate (e : event) : bool :=
  match e with EvAnimate _ _ => true | _ => false end.

Definition is_unload (e : event) : bool :=
  match e with EvUnload _ => true | _ => false end.

(** An event predicate that does not see what one iteration of the driver
    logs (node lookups and mover calls). *)
Definition driver_blind (P : event → bool) : Prop :=
  ∀ d r, (∀ s, P (EvResolve d r s) = false) ∧ (∀ f, P (EvMover d r f) = false).

(** No event in [P] was logged between the two states. *)
Definition uncounted (P : event → bool) (st st' : State) : Prop :=
  count_events P (log st') = count_events P (log st).

(** The controller is the same object state, and no parameter node went
    away. *)
Definition same_self (st st' : State) : Prop :=
  self st' = self st ∧ ∀ r, is_Some (objs st !! r) → is_Some (objs st' !! r).

(** The scene is up only on a root node and an attached parameter node. *)
Definition scene_up_ok (st : State) : Prop :=
  _sceneUp (self st) = true →
  is_Some (_rootNode (self st)) ∧ ∃ r p, attached st r p.


(** The log holds [k] events in [P]. *)
Definition counted (P : event → bool) (k : nat) (st : State) : Prop :=
  count_events P (log st) = k.

(** A simulation in progress (see [Sim]) whose log holds [k] events in [P]. *)
Definition SimC (P : event → bool) (root : node) (r : loc)
    (reg : list (string * loc)) (N c : Z) (b : bool) (k : nat) (st : State) : Prop :=
  Sim true root r reg N c b st ∧ counted P k st.


(** The flag of descriptor [r] for direction [d] stays clear as long as the
    descriptor has no run-once mover in that direction. *)
Definition never_marked (d : direction) (r : loc) (st st' : State) : Prop :=
  flag d r st = Some false ∧ ¬ run_once_mover d r st →
  flag d r st' = Some false ∧ ¬ run_once_mover d r st'.

(** How the node handed to the mover of descriptor [r] is found from the
    root: without a lookup when the descriptor has no name, by the lookup of
    its name [s] otherwise; [evs] is what the lookup logs. *)
Definition resolves_to (d : direction) (r : loc) (root : node) (name : pyval)
    (sc : scene) (n : node) (evs : list event) : Prop :=
  (truthy name = false ∧ n = root ∧ evs = []) ∨
  (∃ s, name = PyStr s ∧ s ≠ "" ∧ Node_getitem root s sc = Some n ∧
        evs = [EvResolve d r s]).

(** The number of registry entries that hold descriptor [r]. *)
Fixpoint entries_of (r : loc) (items : list (string * loc)) : nat :=
  match items with
  | [] => O
  | (_, r') :: rest => ((if Nat.eqb r r' then 1 else 0) + entries_of r rest)%nat
  end.


(** Descriptor [r] has mover [f] in direction [d], and [f] is not a run-once
    function. *)
Definition every_step_mover (d : direction) (r : loc) (f : fun_id) (st : State) : Prop :=
  ∃ m, mappers st !! r = Some m ∧ mapping d m = Some f ∧ f ∉ run_once_fns st.


(** ** Vocabulary of the properties of [sofaParameterNodeWrapper] *)

(** The five control attributes, with their types and defaults (lines 93-97). *)
Definition control_types : list (string * pytype) :=
  [("dt", Tfloat); ("totalSteps", Tint); ("currentStep", Tint);
   ("isSimulationRunning", Tbool); ("sofaParameterNodeWrapped", Tbool)].

Definition control_defaults : namespace :=
  [("dt", PyFloat float_0_01); ("totalSteps", PyInt (-1)); ("currentStep", PyInt 0);
   ("isSimulationRunning", PyBool false); ("sofaParameterNodeWrapped", PyBool true)].

Definition is_control (var : string) : bool :=
  match dict_get var control_types with Some _ => true | None => false end.

(** What the class shows of attribute [var] ([hasattr], [getattr]): the value
    bound to the name; for a name bound to a SofaNodeMapper, the value that
    the descriptor holds; nothing when the name is not bound, or is bound to
    a SofaNodeMapper that holds no value. *)
Definition shown (st : State) (cls : pyclass) (var : string) : option pyval :=
  match dict_get var (cls_dict cls) with
  | Some (PyMapper r) => m ← mappers st !! r; PyStr <$> value m
  | o => o
  end.

(** Attribute [var] is not shown, or is shown with a value of type [t]. *)
Definition declared_ok (st : State) (var : string) (t : pytype) (cls : pyclass) : bool :=
  match shown st cls var with
  | Some v => isinstance v t
  | None => true
  end.

(** Every control attribute that the class shows has its type. *)
Definition well_typed (st : State) (cls : pyclass) : Prop :=
  ∀ var t, (var, t) ∈ control_types → declared_ok st var t cls = true.

(** The class with [var] bound to [dv] and annotated with [t], unless the
    class shows [var]. *)
Definition ensure (st : State) (var : string) (t : pytype) (dv : pyval)
    (cls : pyclass) : pyclass :=
  match shown st cls var with
  | Some _ => cls
  | None => set_annotation var (AnnType t) (setattr_cls var dv cls)
  end.

(** The class with the defaults of the control attributes that it does not
    show. *)
Definition with_controls (st : State) (cls : pyclass) : pyclass :=
  ensure st "sofaParameterNodeWrapped" Tbool (PyBool true)
    (ensure st "isSimulationRunning" Tbool (PyBool false)
       (ensure st "currentStep" Tint (PyInt 0)
          (ensure st "totalSteps" Tint (PyInt (-1))
             (ensure st "dt" Tfloat (PyFloat float_0_01) cls)))).

Definition is_mapper (v : pyval) : bool :=
  match v with PyMapper _ => true | _ => false end.

(** The fields of a namespace that are bound to a SofaNodeMapper, in order. *)
Fixpoint mapper_fields (ns : namespace) : list (string * loc) :=
  match ns with
  | [] => []
  | (field_name, PyMapper r) :: rest => (field_name, r) :: mapper_fields rest
  | _ :: rest => mapper_fields rest
  end.

(** The fields that are not control attributes. *)
Definition own_fields (ns : namespace) : namespace :=
  List.filter (λ e, negb (is_control e.1)) ns.

(** A class body that binds descriptors only by constructing them. *)
Definition constructs_its_mappers (ds : list decl) : Prop :=
  Forall (λ d, match d with Attr _ v => is_mapper v = false | _ => True end) ds.

(** With respect to an earlier state [st0]: the descriptors of [st0] are
    still there, and the registry [reg] holds pairwise distinct descriptors
    that did not exist in [st0] and whose has-run flags are clear. *)
Definition fresh_descriptors (st0 : State) (reg : list (string * loc)) (st : State) : Prop :=
  (∀ r m, mappers st0 !! r = Some m → mappers st !! r = Some m) ∧
  NoDup reg.*2 ∧
  Forall (λ e, mappers st0 !! e.2 = None ∧
               ∃ m, mappers st !! e.2 = Some m ∧
                    inputMapping_has_run m = false ∧ outputMapping_has_run m = false) reg.

(** Between two states: the descriptors at the locations of [L] may have a
    new type hint; nothing else differs. *)
Definition retyped (L : list loc) (st st' : State) : Prop :=
  self st' = self st ∧ objs st' = objs st ∧ log st' = log st ∧
  run_once_fns st' = run_once_fns st ∧ sofa st' = sofa st ∧
  ∀ r, (r ∉ L → mappers st' !! r = mappers st !! r) ∧
       match mappers st !! r with
       | Some m => ∃ t, mappers st' !! r = Some (set_type t m)
       | None => mappers st' !! r = None
       end.


End Controller.

Arguments State {Env}.
Arguments prog {Env} A.

(** ** A small environment, for concrete runs

    The graph has a root (node [0]) with one child ["FEM"] (node [1]); the
    scene is the number of time steps the engine has made.  Function [2]
    sets the time step of the parameter node to 0.001, function [3] sets its
    step counter to 5, function [4] clears its running flag; every other
    function leaves the parameter node alone.  Function [5] raises, the others
    return.  Function [6] is a bound method, the others are plain functions.
    The annotation [vtkMRMLNoSuchNode] does not resolve, every other one
    does; [parameterNodeWrapper] and [dataclass] return the class they are
    given. *)
Definition toy_unresolved (a : pyann) : bool :=
  match a with
  | AnnOther text => String.eqb text "vtkMRMLNoSuchNode"
  | AnnType _ => false
  end.

Definition toy : Environment :=
  {| scene := Z;
     Node_getitem := λ n s _,
       if Nat.eqb n 0 && String.eqb s "FEM" then Some 1%nat else None;
     Simulation_init := λ _ sc, sc;
     Simulation_animate := λ _ _ sc, sc + 1;
     Simulation_unload := λ _ _, 0;
     call_mover := λ f a _ sc,
       match f with
       | 2%nat => (with_dt 0x3F50624DD2F1A9FC a, sc)
       | 3%nat => (with_currentStep 5 a, sc)
       | 4%nat => (with_isSimulationRunning false a, sc)
       | _ => (a, sc)
       end;
     mover_raises := λ f _ _ _,
       match f with
       | 5%nat => Some (PyException "RuntimeError" "the mover failed")
       | _ => None
       end;
     has_dict := λ f, negb (Nat.eqb f 6);
     get_type_hints := λ cls,
       if existsb (λ e, toy_unresolved e.2) (cls_annotations cls)
       then Raise (NameError "name 'vtkMRMLNoSuchNode' is not defined")
       else Ok (cls_annotations cls);
     parameterNodeWrapper := Ok;
     dataclass := Ok |}.

Definition toy_fields (total : Z) : fields :=
  {| dt := float_0_01; totalSteps := total; currentStep := 0;
     isSimulationRunning := false; sofaParameterNodeWrapped := true |}.

(** A descriptor as [SofaNodeMapper(nodeName, inp, out)] builds it, with the
    given has-run flag of its input mover. *)
Definition toy_mapper (nodeName : pyval) (inp out : option fun_id) (fired : bool)
  : SofaNodeMapper :=
  {| nodeName := nodeName; type := None; recordSequence := PyBool false;
     inputMapping := inp; outputMapping := out;
     inputMapping_has_run := fired; outputMapping_has_run := false;
     value := None |}.

(** A class with two descriptors: ["fem"] pushes into node ["FEM"] on every
    step with function [0]; ["grid"] pushes once into the root with the
    run-once function [1] and pulls on every step with function [2]. *)
Definition toy_mappers : gmap loc SofaNodeMapper :=
  {[ 0%nat := toy_mapper (PyStr "FEM") (Some 0%nat) None false;
     1%nat := toy_mapper PyNone (Some 1%nat) (Some 2%nat) false ]}.

Definition toy_pnode (total : Z) : pnode :=
  {| attrs := toy_fields total;
     sofa_node_mappers := [("fem", 0%nat); ("grid", 1%nat)] |}.

(** A fresh controller, and one instance of the class at location [0]. *)
Definition toy_idle (total : Z) : @State toy :=
  @mkState toy SlicerSofaLogic_init {[ 0%nat := toy_pnode total ]}
    toy_mappers {[ 1%nat ]} 0 [].

(** The state after [setupScene(instance, root)]. *)
Definition toy_built (total : Z) : @State toy :=
  (setupScene (PyObj 0%nat) (PyNode 0%nat) (toy_idle total)).2.

(** The state after [setupScene(instance, None)]. *)
Definition toy_attached (total : Z) : @State toy :=
  (setupScene (PyObj 0%nat) PyNone (toy_idle total)).2.

(** The descriptor ["grid"] once its input mover has run. *)
Definition toy_grid_fired : SofaNodeMapper :=
  toy_mapper PyNone (Some 1%nat) (Some 2%nat) true.


(** The descriptor ["fem"] of the class above. *)
Definition toy_fem : SofaNodeMapper :=
  toy_mapper (PyStr "FEM") (Some 0%nat) None false.

(** A fresh controller and an instance of a class whose only descriptor
    pushes into a node ["Liver"], which the graph does not have. *)
Definition toy_liver : SofaNodeMapper :=
  toy_mapper (PyStr "Liver") (Some 0%nat) None false.

Definition toy_liver_pnode : pnode :=
  {| attrs := toy_fields 2; sofa_node_mappers := [("liver", 0%nat)] |}.

Definition toy_liver_idle : @State toy :=
  @mkState toy SlicerSofaLogic_init {[ 0%nat := toy_liver_pnode ]}
    {[ 0%nat := toy_liver ]} ∅ 0 [].

(** A class whose only descriptor, ["probe"], has no node name (its movers
    are handed the root node) and has [inp] and [out] as its movers; a fresh
    controller and one instance of the class at location [0], with the
    functions of [marked] marked run-once. *)
Definition toy_probe (inp out : option fun_id) : SofaNodeMapper :=
  toy_mapper PyNone inp out false.

Definition toy_probe_pnode (a : fields) : pnode :=
  {| attrs := a; sofa_node_mappers := [("probe", 0%nat)] |}.

Definition toy_probe_idle (inp out : option fun_id) (marked : gset fun_id) (total : Z)
  : @State toy :=
  @mkState toy SlicerSofaLogic_init {[ 0%nat := toy_probe_pnode (toy_fields total) ]}
    {[ 0%nat := toy_probe inp out ]} marked 0 [].

(** The input mover writes the step counter (function [3]); totalSteps is 2;
    the state after [setupScene(instance, root)]. *)
Definition toy_counter_built : @State toy :=
  (setupScene (PyObj 0%nat) (PyNode 0%nat) (toy_probe_idle (Some 3%nat) None ∅ 2)).2.

(** The output mover clears the running flag (function [4]); totalSteps is
    -1; the state after [setupScene(instance, root)]. *)
Definition toy_halting_built : @State toy :=
  (setupScene (PyObj 0%nat) (PyNode 0%nat) (toy_probe_idle None (Some 4%nat) ∅ (-1))).2.

(** The input mover is run-once and raises (function [5]); the state after
    [setupScene(instance, root)], which has raised in its Push. *)
Definition toy_failing_attached : @State toy :=
  (setupScene (PyObj 0%nat) (PyNode 0%nat)
     (toy_probe_idle (Some 5%nat) None {[ 5%nat ]} 2)).2.

(** A class that declares totalSteps and two descriptors: the body that
    builds it, the class that the body leaves, and the class that the
    decorator returns. *)
Definition toy_body : list decl :=
  [Mapper "fem" (PyStr "FEM") (PyFunc 0%nat) PyNone (PyBool false);
   Attr "totalSteps" (PyInt 10);
   Mapper "grid" PyNone (PyFunc 1%nat) (PyFunc 2%nat) (PyBool false)].

Definition toy_class : pyclass :=
  {| cls_dict :=
       [("fem", PyMapper 0%nat); ("totalSteps", PyInt 10); ("grid", PyMapper 1%nat)];
     cls_annotations := [] |}.

Definition toy_empty : @State toy :=
  @mkState toy SlicerSofaLogic_init ∅ ∅ ∅ 0 [].

Definition toy_wrapped : wrapped_cls :=
  {| wrapped_class :=
       {| cls_dict :=
            [("fem", PyMapper 0%nat); ("totalSteps", PyInt 10); ("grid", PyMapper 1%nat);
             ("dt", PyFloat float_0_01); ("currentStep", PyInt 0);
             ("isSimulationRunning", PyBool false);
             ("sofaParameterNodeWrapped", PyBool true)];
          cls_annotations :=
            [("dt", AnnType Tfloat); ("currentStep", AnnType Tint);
             ("isSimulationRunning", AnnType Tbool);
             ("sofaParameterNodeWrapped", AnnType Tbool)] |};
     cls_sofa_node_mappers := [("fem", 0%nat); ("grid", 1%nat)] |}.

(** A class that binds the control name ["dt"] to a descriptor, which holds
    no value: its body, the class that the body leaves and the state after
    the body. *)
Definition toy_shadow_body : list decl :=
  [Mapper "dt" (PyStr "FEM") (PyFunc 0%nat) PyNone (PyBool false);
   Mapper "grid" PyNone (PyFunc 1%nat) PyNone (PyBool false)].

Definition toy_shadow_class : pyclass :=
  {| cls_dict := [("dt", PyMapper 0%nat); ("grid", PyMapper 1%nat)];
     cls_annotations := [] |}.

Definition toy_shadow_declared : @State toy :=
  (class_body toy_shadow_body empty_class toy_empty).2.

(** The class that the decorator returns for it. *)
Definition toy_shadow_wrapped : wrapped_cls :=
  {| wrapped_class :=
       {| cls_dict :=
            [("dt", PyFloat float_0_01); ("grid", PyMapper 1%nat);
             ("totalSteps", PyInt (-1)); ("currentStep", PyInt 0);
             ("isSimulationRunning", PyBool false);
             ("sofaParameterNodeWrapped", PyBool true)];
          cls_annotations :=
            [("dt", AnnType Tfloat); ("totalSteps", AnnType Tint);
             ("currentStep", AnnType Tint); ("isSimulationRunning", AnnType Tbool);
             ("sofaParameterNodeWrapped", AnnType Tbool)] |};
     cls_sofa_node_mappers := [("grid", 1%nat)] |}.

(** A class with a descriptor field whose annotation does not resolve. *)
Definition toy_unresolved_body : list decl :=
  [Mapper "fem" (PyStr "FEM") (PyFunc 0%nat) PyNone (PyBool false);
   Annotation "fem" (AnnOther "vtkMRMLNoSuchNode")].


(** * Properties *)

Section Properties.
Context `{Env : Environment}.
Implicit Types (st : State) (d : direction) (r : loc).

(** ** Composition of programs *)

Lemma bind_Ok {A B} (m : prog A) (k : A → prog B) st a st' :
  m st = (Ok a, st') → (m ≫= k) st = k a st'.
Proof. intros E. unfold mbind, prog_bind. by rewrite E. Qed.

Lemma bind_Raise {A B} (m : prog A) (k : A → prog B) st e st' :
  m st = (Raise e, st') → (m ≫= k) st = (Raise e, st').
Proof. intros E. unfold mbind, prog_bind. by rewrite E. Qed.

Lemma bind_gets {A B} (f : State → A) (k : A → prog B) st :
  (gets f ≫= k) st = k (f st) st.
Proof. done. Qed.

Lemma keeps_bind (R : State → State → Prop) `{!Transitive R} {A B}
    (m : prog A) (k : A → prog B) :
  keeps R m → (∀ a, keeps R (k a)) → keeps R (m ≫= k).
Proof.
  intros Hm Hk st. specialize (Hm st).
  unfold mbind, prog_bind. destruct (m st) as [[a|e] st1]; simpl in *.
  - etrans; [exact Hm | apply Hk].
  - exact Hm.
Qed.

Lemma keeps_ret (R : State → State → Prop) `{!Reflexive R} {A} (a : A) :
  keeps R (mret a : prog A).
Proof. intros st. simpl. reflexivity. Qed.

Lemma keeps_raise (R : State → State → Prop) `{!Reflexive R} {A} e :
  keeps R (raise e : prog A).
Proof. intros st. simpl. reflexivity. Qed.

Lemma keeps_gets (R : State → State → Prop) `{!Reflexive R} {A} (f : State → A) :
  keeps R (gets f).
Proof. intros st. simpl. reflexivity. Qed.

Lemma keeps_modify (R : State → State → Prop) (f : State → State) :
  (∀ st, R st (f st)) → keeps R (modify f).
Proof. intros Hf st. apply Hf. Qed.

Lemma keeps_the_parameterNode (R : State → State → Prop) `{!Reflexive R} :
  keeps R the_parameterNode.
Proof.
  intros st. unfold the_parameterNode.
  destruct (_parameterNode (self st)); [destruct (objs st !! _)|]; simpl; reflexivity.
Qed.

Lemma keeps_for_each (R : State → State → Prop) `{!PreOrder R} items body :
  (∀ r, keeps R (body r)) → keeps R (for_each items body).
Proof.
  intros Hb. induction items as [|[name r] rest IH]; simpl.
  - apply keeps_ret; apply _.
  - apply keeps_bind; [apply _ | apply Hb | intros _; exact IH].
Qed.

(** ** The shape of one iteration of the driver *)

Lemma resolve_shape d r name st :
  ∃ evs, (resolve d r name st).2 = set_log (log st ++ evs) st ∧
         (evs = [] ∨ ∃ s, evs = [EvResolve d r s]).
Proof.
  destruct st as [l o ms fs sc lg].
  unfold resolve, mbind, prog_bind, gets, emit, modify, raise, mret, prog_ret; simpl.
  destruct (truthy name); simpl.
  2:{ exists []. rewrite app_nil_r. auto. }
  destruct (_rootNode l) as [n|]; simpl.
  2:{ exists []. rewrite app_nil_r. auto. }
  destruct name; simpl; try (exists []; rewrite app_nil_r; by auto).
  exists [EvResolve d r s]. split; [|eauto].
  unfold set_log; simpl. by destruct (Node_getitem n s sc).
Qed.

Lemma invoke_shape d r f n st :
  (∃ e, invoke d r f n st = (Raise e, st)) ∨
  ∃ o sc,
    let st' := set_sofa sc (set_objs o (set_log (log st ++ [EvMover d r f]) st)) in
    invoke d r f n st = (Ok tt, st') ∨
    (∃ e, invoke d r f n st = (Raise e, st') ∧ ¬ mover_returns f).
Proof.
  destruct st as [l o ms fs sc lg].
  unfold invoke, the_parameterNode, mbind, prog_bind, gets, emit, modify; simpl.
  destruct (_parameterNode l) as [rp|]; simpl; [|left; by eexists].
  destruct (o !! rp) as [p|]; simpl; [|left; by eexists].
  right. eexists _, _.
  destruct (mover_raises f (attrs p) n sc) as [e|] eqn:E; simpl.
  - right. exists e. split; [done|]. intros H. by rewrite H in E.
  - by left.
Qed.

(** One iteration either leaves the state as it is, or it is the iteration of
    a due mover [f]: it has looked the node up at most, or it has called the
    mover and, when the mover is run-once and has returned, set the flag. *)
Lemma sync_body_shape d r st :
  (sync_body d r st).2 = st ∨
  ∃ m f evs,
    mappers st !! r = Some m ∧ mapping d m = Some f ∧
    (f ∈ run_once_fns st → has_run d m = false) ∧
    (evs = [] ∨ ∃ s, evs = [EvResolve d r s]) ∧
    ((sync_body d r st).2 = set_log (log st ++ evs) st ∨
     ∃ o sc b, (sync_body d r st).2 =
       finish d r b
         (set_sofa sc (set_objs o (set_log ((log st ++ evs) ++ [EvMover d r f]) st))) ∧
       (b = true → f ∈ run_once_fns st) ∧
       (mover_returns f → b = bool_decide (f ∈ run_once_fns st))).
Proof.
  unfold sync_body.
  rewrite (bind_Ok _ _ st (mappers st !! r) st) by done.
  destruct (mappers st !! r) as [m|] eqn:Em; [|by left].
  destruct (mapping d m) as [f|] eqn:Ef; [|by left].
  unfold run_once_attr.
  rewrite (bind_Ok _ _ st (bool_decide (f ∈ run_once_fns st)) st) by done.
  destruct (bool_decide (f ∈ run_once_fns st) && has_run d m) eqn:Eskip; [by left|].
  right. exists m, f.
  destruct (resolve_shape d r (nodeName m) st) as (evs & Hres & Hevs).
  exists evs. split_and!; try done.
  { intros Hin. rewrite bool_decide_eq_true_2 in Eskip by done. done. }
  destruct (resolve d r (nodeName m) st) as [[n|e] st1] eqn:Er; simpl in Hres; subst st1.
  2:{ left. by rewrite (bind_Raise _ _ _ _ _ Er). }
  rewrite (bind_Ok _ _ _ _ _ Er).
  destruct (invoke_shape d r f n (set_log (log st ++ evs) st))
    as [[e Hi]|(o & sc & [Hi|(e & Hi & Hne)])].
  - left. by rewrite (bind_Raise _ _ _ _ _ Hi).
  - right. exists o, sc, (bool_decide (f ∈ run_once_fns st)).
    rewrite (bind_Ok _ _ _ _ _ Hi). split_and!; [|by intros ?%bool_decide_eq_true|done].
    simpl. unfold finish. by destruct (bool_decide (f ∈ run_once_fns st)).
  - right. exists o, sc, false.
    rewrite (bind_Raise _ _ _ _ _ Hi). split_and!; [done | done |].
    intros Hret. by destruct Hne.
Qed.

(** ** Programs and framed relations *)

Create HintDb keeps discriminated.

Ltac keeps_tac :=
  repeat first
    [ solve [auto 2 with keeps nocore]
    | apply keeps_ret; apply _
    | apply keeps_raise; apply _
    | apply keeps_gets; apply _
    | apply keeps_the_parameterNode; apply _
    | apply keeps_bind; [apply _ | | intros ?]
    | match goal with
      | |- keeps _ (match ?x with _ => _ end) => destruct x
      end ].

Section Framed.
Context (R : State → State → Prop) `{!Framed R}.

Lemma keeps_emit e : quiet R e → keeps R (emit e).
Proof. intros Hq. apply keeps_modify, Hq. Qed.
#[local] Hint Resolve keeps_emit : keeps.

Lemma keeps_assign_sceneUp b : keeps R (assign_sceneUp b).
Proof. apply keeps_modify. intros st. apply framed_self. Qed.
#[local] Hint Resolve keeps_assign_sceneUp : keeps.

Lemma keeps_assign_rootNode n : keeps R (assign_rootNode n).
Proof. apply keeps_modify. intros st. apply framed_self. Qed.
#[local] Hint Resolve keeps_assign_rootNode : keeps.

Lemma keeps_assign_parameterNode p : keeps R (assign_parameterNode p).
Proof. apply keeps_modify. intros st. apply framed_self. Qed.
#[local] Hint Resolve keeps_assign_parameterNode : keeps.

Lemma keeps_read_fields : keeps R read_fields.
Proof. unfold read_fields. keeps_tac. Qed.
#[local] Hint Resolve keeps_read_fields : keeps.

Lemma keeps_write_fields f : keeps R (write_fields f).
Proof.
  unfold write_fields. keeps_tac.
  apply keeps_modify. intros st. apply framed_objs.
Qed.
#[local] Hint Resolve keeps_write_fields : keeps.

Lemma keeps_checkParameterNode v : keeps R (__checkParameterNode__ v).
Proof.
  unfold __checkParameterNode__, getattr_sofaParameterNodeWrapped. keeps_tac.
Qed.
#[local] Hint Resolve keeps_checkParameterNode : keeps.

Lemma keeps_startSimulation : keeps R startSimulation.
Proof. unfold startSimulation. keeps_tac. Qed.
#[local] Hint Resolve keeps_startSimulation : keeps.

Lemma keeps_stopSimulation : keeps R stopSimulation.
Proof. unfold stopSimulation. keeps_tac. Qed.
#[local] Hint Resolve keeps_stopSimulation : keeps.

(** The relation does not see the engine calls, the entries of the driver nor
    the messages, and every iteration of the driver keeps it. *)
Context (quiet_init : ∀ n, quiet R (EvInit n))
        (quiet_animate : ∀ n z, quiet R (EvAnimate n z))
        (quiet_unload : ∀ n, quiet R (EvUnload n))
        (quiet_display : ∀ msg, quiet R (EvErrorDisplay msg))
        (quiet_sync : ∀ d, quiet R (EvSync d))
        (keeps_body : ∀ d r, keeps R (sync_body d r)).

Lemma keeps_sync d : keeps R (sync d).
Proof.
  unfold sync. keeps_tac.
  apply keeps_for_each; [apply _ | apply keeps_body].
Qed.
#[local] Hint Resolve keeps_sync : keeps.

Lemma keeps_init n : keeps R (Sofa_Simulation_init n).
Proof.
  unfold Sofa_Simulation_init. keeps_tac.
  apply keeps_modify; intros st; apply framed_sofa.
Qed.
#[local] Hint Resolve keeps_init : keeps.

Lemma keeps_animate n z : keeps R (Sofa_Simulation_animate n z).
Proof.
  unfold Sofa_Simulation_animate. keeps_tac.
  apply keeps_modify; intros st; apply framed_sofa.
Qed.
#[local] Hint Resolve keeps_animate : keeps.

Lemma keeps_unload n : keeps R (Sofa_Simulation_unload n).
Proof.
  unfold Sofa_Simulation_unload. keeps_tac.
  apply keeps_modify; intros st; apply framed_sofa.
Qed.
#[local] Hint Resolve keeps_unload : keeps.

Lemma keeps_animate_root : keeps R animate_root.
Proof. unfold animate_root. keeps_tac. Qed.
#[local] Hint Resolve keeps_animate_root : keeps.

Lemma keeps_setupScene a b : keeps R (setupScene a b).
Proof.
  unfold setupScene, __updateSofa__. keeps_tac.
Qed.

Lemma keeps_simulationStep : keeps R simulationStep.
Proof.
  unfold simulationStep, errorDisplay, __updateSofa__, __updateMRML__. keeps_tac.
Qed.

Lemma keeps_clean : keeps R clean.
Proof. unfold clean. keeps_tac. Qed.

Lemma keeps_exec c : keeps R (exec c).
Proof.
  destruct c; simpl.
  - apply keeps_setupScene.
  - apply keeps_startSimulation.
  - apply keeps_stopSimulation.
  - apply keeps_simulationStep.
  - apply keeps_clean.
  - apply keeps_sync.
  - apply keeps_sync.
Qed.

Lemma keeps_run cs st : R st (run cs st).
Proof.
  revert st. induction cs as [|c cs IH]; intros st; simpl.
  - reflexivity.
  - etrans; [apply (keeps_exec c st) | apply IH].
Qed.

End Framed.

(** ** Descriptors only gain flags *)

Lemma same_static_refl m : same_static m m.
Proof. by repeat split. Qed.

Lemma same_static_trans m1 m2 m3 :
  same_static m1 m2 → same_static m2 m3 → same_static m1 m3.
Proof.
  intros (?&?&?&?&H12) (?&?&?&?&H23). repeat split; try congruence.
  intros d Hd. by apply H23, H12.
Qed.

Lemma same_static_set_has_run d m : same_static m (set_has_run d m).
Proof.
  destruct d; repeat split; simpl; try done; intros [] Hd; simpl in *; done.
Qed.

Lemma mapping_set_has_run d d' m : mapping d (set_has_run d' m) = mapping d m.
Proof. by destruct d, d'. Qed.

Lemma has_run_set_has_run d d' m :
  has_run d (set_has_run d' m) = same_dir d d' || has_run d m.
Proof. by destruct d, d'. Qed.

#[local] Instance evolves_preorder : PreOrder evolves.
Proof.
  split.
  - intros st. split; [done|]. intros r.
    destruct (mappers st !! r) as [m|] eqn:E; [|done].
    exists m. split; [done | apply same_static_refl].
  - intros st1 st2 st3 [Hf12 H12] [Hf23 H23]. split; [congruence|].
    intros r. specialize (H12 r). specialize (H23 r).
    destruct (mappers st1 !! r) as [m1|].
    + destruct H12 as (m2 & E2 & S12). rewrite E2 in H23.
      destruct H23 as (m3 & E3 & S23). exists m3. split; [done|].
      by eapply same_static_trans.
    + by rewrite H12 in H23.
Qed.

Lemma evolves_same st st' :
  mappers st' = mappers st → run_once_fns st' = run_once_fns st → evolves st st'.
Proof.
  intros Em Ef. split; [done|]. intros r. rewrite Em.
  destruct (mappers st !! r) as [m|]; [|done].
  exists m. split; [done | apply same_static_refl].
Qed.

#[local] Instance evolves_framed : Framed evolves.
Proof. split; [apply _ | intros; by apply evolves_same ..]. Qed.

Lemma evolves_quiet e : quiet evolves e.
Proof. intros st. by apply evolves_same. Qed.

Lemma evolves_finish d r b st : evolves st (finish d r b st).
Proof.
  destruct b; simpl; [|reflexivity].
  split; [done|]. intros r'. simpl.
  destruct (decide (r = r')) as [->|Hne].
  - rewrite lookup_alter_eq. destruct (mappers st !! r') as [m|]; simpl; [|done].
    exists (set_has_run d m). split; [done | apply same_static_set_has_run].
  - rewrite lookup_alter_ne by done.
    destruct (mappers st !! r') as [m|]; [|done].
    exists m. split; [done | apply same_static_refl].
Qed.

Lemma evolves_sync_body d r : keeps evolves (sync_body d r).
Proof.
  intros st.
  destruct (sync_body_shape d r st)
    as [->|(m & f & evs & _ & _ & _ & _ & [->|(o & sc & b & -> & _)])].
  - reflexivity.
  - by apply evolves_same.
  - etrans; [|apply evolves_finish]. by apply evolves_same.
Qed.

(** Any sequence of calls leaves the descriptors where they are, with the
    flags they had set. *)
Lemma run_evolves cs st : evolves st (run cs st).
Proof.
  apply keeps_run; try apply _; try (intros; apply evolves_quiet).
  apply evolves_sync_body.
Qed.

(** ** The run-once discipline *)

Lemma count_events_app P l l' :
  count_events P (l ++ l') = (count_events P l + count_events P l')%nat.
Proof. induction l as [|e l IH]; simpl; [done|]. rewrite IH. lia. Qed.

Lemma is_mover_touches d r e : is_mover d r e = true → touches d r e = true.
Proof. by destruct e. Qed.

Lemma count_mover_filter d r l :
  count_events (is_mover d r) (List.filter (touches d r) l) =
  count_events (is_mover d r) l.
Proof.
  induction l as [|e l IH]; simpl; [done|].
  destruct (touches d r e) eqn:Et; simpl; rewrite IH; [done|].
  destruct (is_mover d r e) eqn:Em; [|done].
  apply is_mover_touches in Em. congruence.
Qed.

Lemma untouched_count d r l l' :
  List.filter (touches d r) l' = List.filter (touches d r) l →
  count_events (is_mover d r) l' = count_events (is_mover d r) l.
Proof.
  intros E. rewrite <- (count_mover_filter d r l'), E. apply count_mover_filter.
Qed.

(** A step that does not touch the mover, its flag nor its descriptor. *)
Lemma once_untouched d r st st' :
  run_once_fns st' = run_once_fns st →
  (∀ m, mappers st !! r = Some m →
        ∃ m', mappers st' !! r = Some m' ∧ mapping d m' = mapping d m ∧
              has_run d m' = has_run d m) →
  List.filter (touches d r) (log st') = List.filter (touches d r) (log st) →
  once d r st st'.
Proof.
  intros Ef Hm El m f Em Emap Hin.
  destruct (Hm m Em) as (m' & Em' & Emap' & Eflag).
  assert (flag d r st' = Some (has_run d m)) as Efl.
  { unfold flag. by rewrite Em'; simpl; rewrite Eflag. }
  split_and!.
  - exists m'. split; [done | congruence].
  - by rewrite Ef.
  - destruct (has_run d m); [done|]. intros _. left.
    split; [done | by apply untouched_count].
Qed.

#[local] Instance once_preorder d r : PreOrder (once d r).
Proof.
  split.
  - intros st. apply once_untouched; [done | | done].
    intros m Em. by exists m.
  - intros st1 st2 st3 H12 H23 m f Em Emap Hin.
    destruct (H12 m f Em Emap Hin) as ((m2 & Em2 & Emap2) & Hin2 & H12').
    destruct (H23 m2 f Em2 Emap2 Hin2) as (Hm3 & Hin3 & H23').
    split_and!; [done | done |].
    assert (∀ b, flag d r st2 = Some b → has_run d m2 = b) as Hfl2.
    { intros b. unfold flag. rewrite Em2. simpl. congruence. }
    destruct (has_run d m).
    + destruct H12' as [E2 F12]. rewrite (Hfl2 _ E2) in H23'.
      destruct H23' as [E3 F23]. split; [done | congruence].
    + intros Hret.
      destruct (H12' Hret) as [[E2 C12]|[E2 C12]]; rewrite (Hfl2 _ E2) in H23'.
      * destruct (H23' Hret) as [[E3 C23]|[E3 C23]]; [left | right]; split; congruence.
      * destruct H23' as [E3 F23]. right. split; [done|].
        rewrite <- C12. by apply untouched_count.
Qed.

#[local] Instance once_framed d r : Framed (once d r).
Proof.
  split; [apply _ | intros; apply once_untouched; simpl; try done;
                    intros m Em; by exists m ..].
Qed.

Lemma filter_snoc (P : event → bool) l e :
  List.filter P (l ++ [e]) = List.filter P l ++ (if P e then [e] else []).
Proof. by rewrite List.filter_app. Qed.

Lemma once_quiet d r e : touches d r e = false → quiet (once d r) e.
Proof.
  intros He st. apply once_untouched; simpl; [done | |].
  - intros m Em. by exists m.
  - rewrite filter_snoc, He. apply app_nil_r.
Qed.

Lemma touches_other d r d' r' f s :
  same_dir d d' && Nat.eqb r r' = false →
  touches d r (EvMover d' r' f) = false ∧ touches d r (EvResolve d' r' s) = false.
Proof. done. Qed.

Lemma same_dir_eq d d' : same_dir d d' = true → d = d'.
Proof. by destruct d, d'. Qed.

Lemma filter_resolve_evs d r d' r' (evs : list event) :
  (evs = [] ∨ ∃ s, evs = [EvResolve d' r' s]) →
  same_dir d d' && Nat.eqb r r' = false →
  List.filter (touches d r) evs = [].
Proof. intros [->|[s ->]] Hne; simpl; [done|]. by rewrite Hne. Qed.

Lemma count_resolve_evs d r d' r' (evs : list event) :
  (evs = [] ∨ ∃ s, evs = [EvResolve d' r' s]) →
  count_events (is_mover d r) evs = O.
Proof. by intros [->|[s ->]]. Qed.

Lemma once_sync_body d r d' r' : keeps (once d r) (sync_body d' r').
Proof.
  intros st.
  destruct (sync_body_shape d' r' st)
    as [->|(m & f & evs & Em & Emap & Hfresh & Hevs & Hst)]; [reflexivity|].
  destruct (same_dir d d' && Nat.eqb r r') eqn:Esame.
  - (* the descriptor and direction in question *)
    apply andb_true_iff in Esame as [Ed Er].
    apply same_dir_eq in Ed as <-. apply Nat.eqb_eq in Er as <-.
    intros m0 f0 Em0 Emap0 Hin.
    assert (m0 = m) as -> by congruence. assert (f0 = f) as -> by congruence.
    rewrite (Hfresh Hin).
    destruct Hst as [->|(o & sc & b & -> & Hb1 & Hb2)].
    + split_and!; [by exists m | done |]. intros _. left. split.
      * unfold flag. simpl. rewrite Em. simpl. by rewrite (Hfresh Hin).
      * simpl. rewrite count_events_app, (count_resolve_evs d r d r evs) by done. lia.
    + split_and!.
      * destruct b; simpl; [|by exists m]. exists (set_has_run d m).
        rewrite lookup_alter_eq, Em. simpl. by rewrite mapping_set_has_run.
      * by destruct b.
      * intros Hret. rewrite (Hb2 Hret), bool_decide_eq_true_2 by done. simpl.
        right. unfold flag. simpl. rewrite lookup_alter_eq, Em. simpl.
        rewrite has_run_set_has_run. split; [by destruct d|].
        rewrite !count_events_app, (count_resolve_evs d r d r evs) by done.
        simpl. destruct d; simpl; rewrite Nat.eqb_refl; simpl; lia.
  - (* another descriptor or the other direction *)
    assert (∀ b st0, once d r st0 (finish d' r' b st0)) as Hfin.
    { intros b st0. destruct b; simpl; [|reflexivity].
      apply once_untouched; simpl; [done | | done].
      intros m1 Em1. destruct (decide (r' = r)) as [->|Hne].
      - rewrite lookup_alter_eq, Em1. simpl. eexists. split; [done|].
        rewrite mapping_set_has_run, has_run_set_has_run.
        rewrite Nat.eqb_refl, andb_true_r in Esame. by rewrite Esame.
      - rewrite lookup_alter_ne by done. by exists m1. }
    destruct Hst as [->|(o & sc & b & -> & _)].
    + apply once_untouched; simpl; [done | intros m1 ?; by exists m1 |].
      rewrite List.filter_app, (filter_resolve_evs d r d' r' evs) by done.
      apply app_nil_r.
    + etrans; [|apply Hfin].
      apply once_untouched; simpl; [done | intros m1 ?; by exists m1 |].
      rewrite !List.filter_app, (filter_resolve_evs d r d' r' evs) by done.
      simpl. rewrite Esame. by rewrite !app_nil_r.
Qed.

(** Any sequence of calls keeps the run-once discipline of every mover. *)
Lemma run_once_discipline d r cs st : once d r st (run cs st).
Proof.
  apply keeps_run; try apply _; try (intros; by apply once_quiet).
  intros d' r'. apply once_sync_body.
Qed.

(** C4, as the code has it.  For a descriptor whose mover in a direction is
    a run-once function: once the has-run flag of that direction is set, the
    flag stays set and no later call on the controller (Push and Pull, alone
    or through setupScene and simulationStep) invokes the mover or looks up
    its node; and when the calls of the mover return, the mover is called at
    most once over any sequence of calls on the controller.  The flag is
    written after the mover has returned (lines 240-242 and 256-258): a
    run-once mover that raises is called again by the next Push or Pull. *)
Theorem run_once_mover_at_most_once d r m f cs st :
  mappers st !! r = Some m → mapping d m = Some f → f ∈ run_once_fns st →
  (flag d r st = Some true →
   flag d r (run cs st) = Some true ∧
   List.filter (touches d r) (log (run cs st)) = List.filter (touches d r) (log st)) ∧
  (mover_returns f →
   (count_events (is_mover d r) (log (run cs st))
      ≤ S (count_events (is_mover d r) (log st)))%nat ∧
   ((count_events (is_mover d r) (log st)
       < count_events (is_mover d r) (log (run cs st)))%nat →
    flag d r (run cs st) = Some true)).
Proof.
  intros Em Emap Hin.
  destruct (run_once_discipline d r cs st m f Em Emap Hin) as (_ & _ & H).
  unfold flag at 1. rewrite Em. simpl.
  destruct (has_run d m).
  - destruct H as [Hf Hl]. split; [done|]. intros _.
    rewrite (untouched_count _ _ _ _ Hl). split; [lia | done].
  - split; [done|]. intros Hret.
    destruct (H Hret) as [[_ ->]|[Hf ->]]; (split; [lia|]); [lia | done].
Qed.



(** ** Programs that return *)

Lemma returns_bind {A B} (P : State → Prop) (Q : A → State → Prop)
    (S : B → State → Prop) (m : prog A) (k : A → prog B) :
  returns P m Q → (∀ a, returns (Q a) (k a) S) → returns P (m ≫= k) S.
Proof.
  intros Hm Hk st HP. destruct (Hm st HP) as (a & Ea & HQ).
  destruct (m st) as [o st1] eqn:E. simpl in *. subst o.
  rewrite (bind_Ok _ _ _ _ _ E). by apply Hk.
Qed.

Lemma returns_ret {A} (P : State → Prop) (a : A) :
  returns P (mret a) (λ a' st, a' = a ∧ P st).
Proof. intros st HP. by exists a. Qed.

Lemma returns_post {A} (P : State → Prop) (Q Q' : A → State → Prop) (m : prog A) :
  returns P m Q → (∀ a st, Q a st → Q' a st) → returns P m Q'.
Proof. intros Hm HQ st HP. destruct (Hm st HP) as (a & ? & ?). eauto. Qed.

Lemma returns_pre {A} (P P' : State → Prop) (Q : A → State → Prop) (m : prog A) :
  returns P m Q → (∀ st, P' st → P st) → returns P' m Q.
Proof. intros Hm HP st HP'. apply Hm, HP, HP'. Qed.

Lemma entry_ok_mappers st st' root r :
  evolves st st' → entry_ok st root r → entry_ok st' root r.
Proof.
  intros [_ Hev] (m & Em & Hm). specialize (Hev r). rewrite Em in Hev.
  destruct Hev as (m' & Em' & Hn & _ & Hi & Ho & _).
  exists m'. split; [done|]. intros d f Hf. rewrite Hn. apply (Hm d f).
  destruct d; simpl in *; congruence.
Qed.

Lemma Forall_entry_ok st st' root (reg : list (string * loc)) :
  evolves st st' →
  Forall (λ e, entry_ok st root e.2) reg → Forall (λ e, entry_ok st' root e.2) reg.
Proof.
  intros Hev Hall. eapply Forall_impl; [exact Hall|].
  intros e. by apply entry_ok_mappers.
Qed.

Lemma returns_pure {A} (φ : Prop) (P : State → Prop) (Q : A → State → Prop) (m : prog A) :
  (φ → returns P m Q) → returns (λ st, φ ∧ P st) m Q.
Proof. intros Hm st [Hφ HP]. by apply Hm. Qed.

Section Sim.
Context (up : bool) (root : node) (r : loc) (reg : list (string * loc)) (N : Z).

(** The invariant reads the controller, the attached node and the
    descriptors. *)
Lemma Sim_same c b st st' :
  self st' = self st → objs st' !! r = objs st !! r →
  mappers st' = mappers st → run_once_fns st' = run_once_fns st →
  Sim up root r reg N c b st → Sim up root r reg N c b st'.
Proof.
  intros Es Eo Em Ef (Hself & Hp & Hok). split_and!.
  - congruence.
  - by rewrite Eo.
  - eapply Forall_entry_ok; [|done]. by apply evolves_same.
Qed.

Lemma Sim_read_fields c b :
  returns (Sim up root r reg N c b) read_fields
    (λ a st, (totalSteps a = N ∧ currentStep a = c ∧ isSimulationRunning a = b) ∧
             Sim up root r reg N c b st).
Proof.
  intros st HS. pose proof HS as (Hself & (p & Ep & Hreg & HN & Hc & Hb) & Hok).
  exists (attrs p). unfold read_fields, the_parameterNode, mbind, prog_bind.
  rewrite Hself. simpl. rewrite Ep. simpl. done.
Qed.

Lemma Sim_gets_sceneUp c b :
  returns (Sim up root r reg N c b) (gets (λ st, _sceneUp (self st)))
    (λ u st, u = up ∧ Sim up root r reg N c b st).
Proof.
  intros st HS. exists up. simpl. split; [|done].
  destruct HS as (-> & _). done.
Qed.

Lemma Sim_gets_rootNode c b :
  returns (Sim up root r reg N c b) (gets (λ st, _rootNode (self st)))
    (λ u st, u = Some root ∧ Sim up root r reg N c b st).
Proof.
  intros st HS. exists (Some root). simpl. split; [|done].
  destruct HS as (-> & _). done.
Qed.

(** A write to the control fields of the attached parameter node. *)
Lemma Sim_write_fields c b c' b' (f : fields → fields) :
  (∀ a, totalSteps a = N → currentStep a = c → isSimulationRunning a = b →
        totalSteps (f a) = N ∧ currentStep (f a) = c' ∧ isSimulationRunning (f a) = b') →
  returns (Sim up root r reg N c b) (write_fields f) (λ _, Sim up root r reg N c' b').
Proof.
  intros Hf st (Hself & (p & Ep & Hreg & HN & Hc & Hb) & Hok).
  exists tt. unfold write_fields, the_parameterNode, mbind, prog_bind.
  rewrite Hself. simpl. rewrite Ep. simpl. split; [done|].
  split_and!; simpl; [done | | ].
  - exists (with_attrs (f (attrs p)) p). rewrite lookup_insert_eq. simpl.
    destruct (Hf (attrs p)) as (?&?&?); done.
  - eapply Forall_entry_ok; [|done]. by apply evolves_same.
Qed.

Lemma Sim_emit c b e :
  returns (Sim up root r reg N c b) (emit e) (λ _, Sim up root r reg N c b).
Proof. intros st HS. exists tt. split; [done|]. by eapply Sim_same; [..|exact HS]. Qed.

Lemma Sim_set_sofa c b (f : scene → scene) :
  returns (Sim up root r reg N c b) (modify (λ st, set_sofa (f (sofa st)) st))
    (λ _, Sim up root r reg N c b).
Proof. intros st HS. exists tt. split; [done|]. by eapply Sim_same; [..|exact HS]. Qed.

Lemma Sim_animate_root c b :
  returns (Sim up root r reg N c b) animate_root (λ _, Sim up root r reg N c b).
Proof.
  unfold animate_root.
  eapply returns_bind; [apply Sim_gets_rootNode|]. intros o.
  apply returns_pure; intros ->.
  eapply returns_bind; [apply Sim_read_fields|]. intros a.
  apply returns_pure; intros _.
  unfold Sofa_Simulation_animate.
  eapply returns_bind; [apply Sim_emit|]. intros ?.
  apply (Sim_set_sofa c b (Simulation_animate root (dt a))).
Qed.

Lemma Sim_resolve c b d r' name :
  resolvable root name →
  returns (Sim up root r reg N c b) (resolve d r' name) (λ _, Sim up root r reg N c b).
Proof.
  intros Hres st HS. pose proof HS as (Hself & _).
  unfold resolve. rewrite bind_gets, Hself. simpl.
  destruct Hres as [->|(s & -> & Hs)]; [by exists (Some root)|].
  destruct (truthy (PyStr s)); [|by exists (Some root)].
  unfold mbind, prog_bind, emit, modify, gets; simpl.
  destruct (Hs (sofa st)) as [n' ->]. exists (Some n'). split; [done|]. simpl.
  by eapply Sim_same; [..|exact HS].
Qed.

Lemma Sim_invoke c b d r' f n :
  mover_returns f → keeps_control f →
  returns (Sim up root r reg N c b) (invoke d r' f n) (λ _, Sim up root r reg N c b).
Proof.
  intros Hret Hk st (Hself & (p & Ep & Hreg & HN & Hc & Hb) & Hok).
  exists tt. unfold invoke, the_parameterNode, mbind, prog_bind, emit, modify, gets.
  rewrite Hself. simpl. rewrite Ep. simpl. rewrite Hret. simpl. split; [done|].
  destruct (Hk (attrs p) n (sofa st)) as (H1 & H2 & H3).
  split_and!; simpl; [done | |].
  - eexists. rewrite lookup_insert_eq. split; [done|]. simpl.
    split_and!; [done | congruence ..].
  - eapply Forall_entry_ok; [|done]. by apply evolves_same.
Qed.

Lemma Sim_mark_has_run c b d r' :
  returns (Sim up root r reg N c b) (mark_has_run d r') (λ _, Sim up root r reg N c b).
Proof.
  intros st (Hself & Hp & Hok). exists tt. split; [done|].
  split_and!; simpl; [done | done |].
  eapply Forall_entry_ok; [|done]. apply (evolves_finish d r' true).
Qed.

Lemma Sim_sync_body c b d name r' :
  (name, r') ∈ reg →
  returns (Sim up root r reg N c b) (sync_body d r') (λ _, Sim up root r reg N c b).
Proof.
  intros Hin st HS. pose proof HS as (_ & _ & Hok).
  rewrite Forall_forall in Hok. destruct (Hok _ Hin) as (m & Em & Hm). simpl in Em.
  unfold sync_body. rewrite bind_gets, Em.
  destruct (mapping d m) as [f|] eqn:Ef; [|by exists tt].
  destruct (Hm d f Ef) as (Hret & Hk & Hres).
  unfold run_once_attr. rewrite bind_gets.
  destruct (bool_decide (f ∈ run_once_fns st) && has_run d m); [by exists tt|].
  revert HS.
  assert (returns (Sim up root r reg N c b)
            (n ← resolve d r' (nodeName m);
             invoke d r' f n;;
             if bool_decide (f ∈ run_once_fns st) then mark_has_run d r' else mret tt)
            (λ _, Sim up root r reg N c b)) as Hrest; [|exact (Hrest st)].
  eapply returns_bind; [by apply Sim_resolve|]. intros n.
  eapply returns_bind; [by apply Sim_invoke|]. intros ?.
  destruct (bool_decide (f ∈ run_once_fns st)); [apply Sim_mark_has_run|].
  intros st' HS'. by exists tt.
Qed.

Lemma Sim_for_each c b d (items : list (string * loc)) :
  (∀ e, e ∈ items → e ∈ reg) →
  returns (Sim up root r reg N c b) (for_each items (sync_body d))
    (λ _, Sim up root r reg N c b).
Proof.
  induction items as [|[name r'] rest IH]; intros Hsub; simpl.
  - intros st HS. by exists tt.
  - eapply returns_bind.
    + apply (Sim_sync_body c b d name r'). apply Hsub. left.
    + intros ?. apply IH. intros e He. apply Hsub. by right.
Qed.

Lemma Sim_the_parameterNode c b :
  returns (Sim up root r reg N c b) the_parameterNode
    (λ rp st, sofa_node_mappers rp.2 = reg ∧ Sim up root r reg N c b st).
Proof.
  intros st HS. pose proof HS as (Hself & (p & Ep & Hreg & _) & _).
  exists (r, p). unfold the_parameterNode. rewrite Hself. simpl. rewrite Ep. done.
Qed.

Lemma Sim_sync c b d :
  returns (Sim up root r reg N c b) (sync d) (λ _, Sim up root r reg N c b).
Proof.
  unfold sync.
  eapply returns_bind; [apply Sim_emit|]. intros ?.
  eapply returns_bind; [apply Sim_the_parameterNode|]. intros rp.
  apply returns_pure; intros ->. by apply Sim_for_each.
Qed.

Lemma Sim_startSimulation c b :
  returns (Sim up root r reg N c b) startSimulation (λ _, Sim up root r reg N 0 true).
Proof.
  unfold startSimulation.
  eapply returns_bind; [apply (Sim_write_fields c b 0 b); intros; simpl; auto|].
  intros ?. apply (Sim_write_fields 0 b 0 true). intros; simpl; auto.
Qed.

Lemma Sim_observed c b st :
  Sim up root r reg N c b st → running st = Some b ∧ step_counter st = Some c.
Proof.
  intros (Hself & (p & Ep & _ & _ & Hc & Hb) & _).
  unfold running, step_counter. rewrite Hself. simpl. rewrite Ep. simpl.
  by rewrite Hc, Hb.
Qed.

End Sim.

(** ** Stepping a simulation *)

Section Stepping.
Context (root : node) (r : loc) (reg : list (string * loc)) (N : Z).

(** One call of [simulationStep] on a running simulation. *)
Lemma Sim_simulationStep c :
  returns (Sim true root r reg N c true) simulationStep
    (λ _, Sim true root r reg N (if c <? N then c + 1 else c)
                                (if c <? N then true else N <? 0)).
Proof.
  unfold simulationStep.
  eapply returns_bind; [apply Sim_gets_sceneUp|]. intros u.
  apply returns_pure; intros ->. simpl.
  eapply returns_bind.
  { eapply returns_bind; [apply Sim_read_fields|]. intros a.
    apply returns_pure; intros (_ & _ & ->). apply returns_ret. }
  intros stopped. apply returns_pure; intros ->. simpl.
  eapply returns_bind; [apply Sim_sync|]. intros [].
  eapply returns_bind; [apply Sim_read_fields|]. intros a.
  apply returns_pure; intros (HN & Hc & _). rewrite HN, Hc.
  destruct (c <? N) eqn:Elt.
  - eapply returns_bind; [|intros ?; apply Sim_sync].
    eapply returns_bind; [apply Sim_animate_root|]. intros ?.
    apply (Sim_write_fields _ _ _ _ _ c true (c + 1) true).
    intros a' ? Hc' ?. simpl. by rewrite Hc'.
  - destruct (N <? 0) eqn:Eneg.
    + eapply returns_bind; [apply Sim_animate_root | intros ?; apply Sim_sync].
    + eapply returns_bind; [|intros ?; apply Sim_sync].
      apply (Sim_write_fields _ _ _ _ _ c true c false).
      intros; simpl; auto.
Qed.

Lemma outcomes_cons c cs st :
  outcomes (c :: cs) st = (exec c st).1 :: outcomes cs (exec c st).2.
Proof. done. Qed.

Lemma outcomes_app cs cs' st :
  outcomes (cs ++ cs') st = outcomes cs st ++ outcomes cs' (run cs st).
Proof.
  revert st. induction cs as [|c0 cs IH]; intros st; [done|].
  simpl. f_equal. apply IH.
Qed.

Lemma run_cons c cs st : run (c :: cs) st = run cs (exec c st).2.
Proof. done. Qed.

Lemma run_snoc cs c st : run (cs ++ [c]) st = (exec c (run cs st)).2.
Proof. unfold run. by rewrite foldl_app. Qed.

Lemma steps_S n : steps (S n) = steps n ++ [SimulationStep].
Proof.
  unfold steps. induction n as [|n IH]; simpl in *; [done|]. by rewrite <- IH.
Qed.

(** While the bound is not reached the steps return and count. *)
Lemma Sim_steps_bounded n c st :
  c + Z.of_nat n ≤ N →
  Sim true root r reg N c true st →
  outcomes (steps n) st = replicate n (Ok tt) ∧
  Sim true root r reg N (c + Z.of_nat n) true (run (steps n) st).
Proof.
  revert c st. induction n as [|n IH]; intros c st Hle HS.
  - simpl. by rewrite Z.add_0_r.
  - destruct (Sim_simulationStep c st HS) as ([] & Eo & HS').
    assert ((c <? N) = true) as Elt by (apply Z.ltb_lt; lia).
    rewrite Elt in HS'.
    destruct (IH (c + 1) (simulationStep st).2) as [IHo IHs]; [lia | done |].
    change (steps (S n)) with (SimulationStep :: steps n).
    rewrite outcomes_cons, run_cons. simpl exec. rewrite Eo, IHo.
    split; [done|]. by replace (c + Z.of_nat (S n)) with (c + 1 + Z.of_nat n) by lia.
Qed.

(** Without a bound the steps return and change neither the counter nor the
    flag. *)
Lemma Sim_steps_unbounded n c st :
  N < 0 → N ≤ c →
  Sim true root r reg N c true st →
  outcomes (steps n) st = replicate n (Ok tt) ∧
  Sim true root r reg N c true (run (steps n) st).
Proof.
  intros Hneg Hc. revert st. induction n as [|n IH]; intros st HS; [done|].
  destruct (Sim_simulationStep c st HS) as ([] & Eo & HS').
  assert ((c <? N) = false) as Elt by (apply Z.ltb_ge; lia).
  assert ((N <? 0) = true) as En by (apply Z.ltb_lt; lia).
  rewrite Elt, En in HS'.
  destruct (IH (simulationStep st).2 HS') as [IHo IHs].
  change (steps (S n)) with (SimulationStep :: steps n).
  rewrite outcomes_cons, run_cons. simpl exec. by rewrite Eo, IHo.
Qed.

End Stepping.

(** The Built state of a well-behaved parameter node is a simulation, stopped
    or in progress. *)
Lemma Built_Sim st r p :
  Built st → attached st r p → well_behaved st →
  ∃ root, Sim true root r (sofa_node_mappers p) (totalSteps (attrs p))
            (currentStep (attrs p)) (isSimulationRunning (attrs p)) st.
Proof.
  intros (Hup & [root Hroot] & _) [Hpn Hp] Hwb. exists root. split_and!.
  - destruct (self st) as [u ro pn]. simpl in *. congruence.
  - by exists p.
  - by apply (Hwb root r p).
Qed.

(** C1, as the code has it.  In the Built state, on a parameter node with
    totalSteps = N >= 0 whose registered movers return and leave totalSteps,
    currentStep and isSimulationRunning as they found them, and whose named
    nodes are in the graph under the root node whatever the state of the
    scene: startSimulation() and the N + 1 calls of step() that follow all
    return; startSimulation() sets currentStep to 0 and the running flag;
    after N calls of step() the flag is still set and currentStep = N; after
    the next call the flag is cleared and currentStep is still N. *)
Theorem step_bounded st r p N :
  Built st → attached st r p → well_behaved st →
  totalSteps (attrs p) = N → 0 ≤ N →
  let n := Z.to_nat N in
  outcomes (StartSimulation :: steps (S n)) st = replicate (S (S n)) (Ok tt) ∧
  (running (run [StartSimulation] st) = Some true ∧
   step_counter (run [StartSimulation] st) = Some 0) ∧
  (running (run (StartSimulation :: steps n) st) = Some true ∧
   step_counter (run (StartSimulation :: steps n) st) = Some N) ∧
  (running (run (StartSimulation :: steps (S n)) st) = Some false ∧
   step_counter (run (StartSimulation :: steps (S n)) st) = Some N).
Proof.
  intros HB Hatt Hwb HN Hpos n.
  destruct (Built_Sim st r p HB Hatt Hwb) as [root HS]. rewrite HN in HS.
  destruct (Sim_startSimulation _ _ _ _ _ _ _ st HS) as ([] & Eo & HS0).
  destruct (Sim_steps_bounded root r _ N n 0 _ ltac:(lia) HS0) as [Eos HSn].
  replace (0 + Z.of_nat n) with N in HSn by lia.
  destruct (Sim_simulationStep root r _ N N _ HSn) as ([] & Eo' & HSn').
  rewrite Z.ltb_irrefl in HSn'.
  assert ((N <? 0) = false) as EN by (apply Z.ltb_ge; lia). rewrite EN in HSn'.
  split_and!.
  - rewrite outcomes_cons. simpl exec. rewrite Eo. f_equal.
    rewrite steps_S, outcomes_app, Eos. simpl. rewrite Eo'.
    change (Ok () :: replicate n (Ok ())) with (replicate (S n) (Ok ())).
    by rewrite replicate_S_end.
  - apply (Sim_observed _ _ _ _ _ _ _ _ HS0).
  - apply (Sim_observed _ _ _ _ _ _ _ _ HS0).
  - rewrite run_cons. apply (Sim_observed _ _ _ _ _ _ _ _ HSn).
  - rewrite run_cons. apply (Sim_observed _ _ _ _ _ _ _ _ HSn).
  - rewrite run_cons, steps_S, run_snoc. apply (Sim_observed _ _ _ _ _ _ _ _ HSn').
  - rewrite run_cons, steps_S, run_snoc. apply (Sim_observed _ _ _ _ _ _ _ _ HSn').
Qed.

(** C2, as the code has it.  In the Built state, on a parameter node with
    totalSteps = -1 whose registered movers return and leave totalSteps,
    currentStep and isSimulationRunning as they found them, and whose named
    nodes are in the graph under the root node whatever the state of the
    scene: after startSimulation(), any number of calls of step() return with
    the running flag still set and currentStep still 0. *)
Theorem step_unbounded st r p k :
  Built st → attached st r p → well_behaved st →
  totalSteps (attrs p) = -1 →
  outcomes (StartSimulation :: steps k) st = replicate (S k) (Ok tt) ∧
  running (run (StartSimulation :: steps k) st) = Some true ∧
  step_counter (run (StartSimulation :: steps k) st) = Some 0.
Proof.
  intros HB Hatt Hwb HN.
  destruct (Built_Sim st r p HB Hatt Hwb) as [root HS]. rewrite HN in HS.
  destruct (Sim_startSimulation _ _ _ _ _ _ _ st HS) as ([] & Eo & HS0).
  destruct (Sim_steps_unbounded root r _ (-1) k 0 _ ltac:(lia) ltac:(lia) HS0)
    as [Eos HSk].
  rewrite outcomes_cons, run_cons. simpl exec. rewrite Eo, Eos.
  split; [done|]. apply (Sim_observed _ _ _ _ _ _ _ _ HSk).
Qed.

(** ** setupScene *)

#[local] Instance unsynced_preorder d : PreOrder (unsynced d).
Proof.
  split; [by intros st | intros st1 st2 st3; unfold unsynced; congruence].
Qed.

#[local] Instance unsynced_framed d : Framed (unsynced d).
Proof. split; [apply _ | by intros ..]. Qed.

Lemma unsynced_quiet d e : is_sync d e = false → quiet (unsynced d) e.
Proof.
  intros He st. unfold unsynced. simpl.
  rewrite count_events_app. simpl. rewrite He. lia.
Qed.

Lemma unsynced_finish d d' r b st : unsynced d st (finish d' r b st).
Proof. by destruct b. Qed.

Lemma unsynced_sync_body d d' r : keeps (unsynced d) (sync_body d' r).
Proof.
  intros st. unfold unsynced.
  destruct (sync_body_shape d' r st)
    as [->|(m & f & evs & _ & _ & _ & Hevs & [->|(o & sc & b & -> & _)])]; [done | |].
  - simpl. rewrite count_events_app.
    destruct Hevs as [->|[s ->]]; simpl; lia.
  - rewrite unsynced_finish. simpl. rewrite !count_events_app.
    destruct Hevs as [->|[s ->]]; simpl; lia.
Qed.

(** Every Push (resp. Pull) is counted once. *)
Lemma sync_counted d st :
  count_events (is_sync d) (log (sync d st).2) = S (count_events (is_sync d) (log st)).
Proof.
  unfold sync, emit, modify, mbind, prog_bind. simpl.
  set (st1 := set_log (log st ++ [EvSync d]) st).
  assert (count_events (is_sync d) (log st1) = S (count_events (is_sync d) (log st))) as E1.
  { simpl. rewrite count_events_app. simpl. destruct d; simpl; lia. }
  pose proof (keeps_the_parameterNode (unsynced d) st1) as H1.
  destruct (the_parameterNode st1) as [[rp|e] st2]; simpl in H1.
  - pose proof (keeps_for_each (unsynced d) (sofa_node_mappers rp.2) (sync_body d)
                  (unsynced_sync_body d d) st2) as H2.
    unfold unsynced in *. congruence.
  - unfold unsynced in *. simpl. congruence.
Qed.

Lemma bind_inv {A B} (m : prog A) (k : A → prog B) st b st' :
  (m ≫= k) st = (Ok b, st') →
  ∃ a st1, m st = (Ok a, st1) ∧ k a st1 = (Ok b, st').
Proof.
  unfold mbind, prog_bind. destruct (m st) as [[a|e] st1]; [|done]. eauto.
Qed.

(** In the Built state [setupScene] returns at once. *)
Lemma setupScene_Built st a b :
  _sceneUp (self st) = true → setupScene a b st = (Ok tt, st).
Proof. intros Hup. unfold setupScene. rewrite bind_gets, Hup. done. Qed.

(** A call of [setupScene] that returns from a state that is not Built has
    made one Push and has reached the Built state. *)
Lemma setupScene_returned st a b st1 :
  _sceneUp (self st) = false → setupScene a b st = (Ok tt, st1) →
  _sceneUp (self st1) = true ∧
  count_events (is_sync ToSofa) (log st1) = S (count_events (is_sync ToSofa) (log st)).
Proof.
  intros Hup. unfold setupScene. rewrite bind_gets, Hup.
  intros H.
  apply bind_inv in H as ([] & s1 & H1 & H).
  apply bind_inv in H as ([] & s2 & H2 & H).
  destruct (as_node b) as [n|]; [|done].
  apply bind_inv in H as ([] & s3 & H3 & H).
  apply bind_inv in H as ([] & s4 & H4 & H).
  apply bind_inv in H as ([] & s5 & H5 & H).
  injection H as <-. split; [done|]. simpl.
  pose proof (keeps_checkParameterNode (unsynced ToSofa) a st) as K1.
  pose proof (keeps_assign_parameterNode (unsynced ToSofa) (as_loc a) s1) as K2.
  pose proof (keeps_assign_rootNode (unsynced ToSofa) (Some n) s2) as K3.
  pose proof (sync_counted ToSofa s3) as K4.
  pose proof (keeps_init (unsynced ToSofa) (λ n0, unsynced_quiet ToSofa (EvInit n0) eq_refl) n s4) as K5.
  rewrite H1 in K1. rewrite H2 in K2. rewrite H3 in K3.
  unfold __updateSofa__ in H4. rewrite H4 in K4. rewrite H5 in K5.
  unfold unsynced in *. simpl in *. congruence.
Qed.

Lemma setups_Built args st :
  _sceneUp (self st) = true →
  run (setups args) st = st ∧
  outcomes (setups args) st = replicate (length args) (Ok tt).
Proof.
  intros Hup. induction args as [|[a b] args [IHr IHo]]; [done|].
  simpl. rewrite setupScene_Built by done. simpl.
  split; [apply IHr | by rewrite IHo].
Qed.

(** C3.  When the first setupScene call on a controller that is not Built
    returns, exactly one Push has been made; any further setupScene calls,
    whatever their arguments, return and leave the whole state, and so the
    number of Pushes, as it is. *)
Theorem setupScene_pushes_once st a b st1 (again : list (pyval * pyval)) :
  _sceneUp (self st) = false →
  setupScene a b st = (Ok tt, st1) →
  count_events (is_sync ToSofa) (log (run (SetupScene a b :: setups again) st))
    = S (count_events (is_sync ToSofa) (log st)) ∧
  _sceneUp (self st1) = true ∧
  run (setups again) st1 = st1 ∧
  outcomes (setups again) st1 = replicate (length again) (Ok tt).
Proof.
  intros Hup H1.
  destruct (setupScene_returned st a b st1 Hup H1) as [Hup1 Hcount].
  destruct (setups_Built again st1 Hup1) as [Hrun Hout].
  rewrite run_cons. simpl exec. rewrite H1. simpl. rewrite Hrun. done.
Qed.

(** ** simulationStep when the simulation is not running *)

(** C5.  When the Built flag is false or the running flag is false,
    simulationStep displays its message and returns; nothing else changes: no
    Push, no Pull, no engine call, the same parameter nodes, descriptors,
    controller and scene. *)
Theorem simulationStep_not_running st :
  _sceneUp (self st) = false ∨ running st = Some false →
  simulationStep st = (Ok tt, set_log (log st ++ [EvErrorDisplay not_running_msg]) st).
Proof.
  intros H. unfold simulationStep. rewrite bind_gets.
  destruct (_sceneUp (self st)) eqn:Hup; [|done].
  destruct H as [|Hrun]; [done|]. simpl.
  unfold running in Hrun. unfold read_fields, the_parameterNode, mbind, prog_bind.
  destruct (_parameterNode (self st)) as [r|]; [|done]. simpl in *.
  destruct (objs st !! r) as [p|]; [|done]. simpl in *.
  injection Hrun as ->. done.
Qed.

(** ** startSimulation *)

Lemma startSimulation_result st r p :
  attached st r p →
  startSimulation st =
    (Ok tt,
     set_objs (<[r := with_attrs (with_isSimulationRunning true
                                    (with_currentStep 0 (attrs p))) p]> (objs st)) st).
Proof.
  intros [Hpn Hp].
  unfold startSimulation, write_fields, the_parameterNode, mbind, prog_bind, modify.
  rewrite Hpn, Hp. simpl. rewrite Hpn. simpl. rewrite lookup_insert_eq. simpl.
  unfold set_objs. simpl. by rewrite insert_insert_eq.
Qed.

(** C10.  With a parameter node attached, startSimulation returns whatever
    the controller's state (scene up or not, root node or none): in the state
    it leaves, the attached node has currentStep = 0 and isSimulationRunning =
    True and its other fields and its registry as before; the other parameter
    nodes, the controller, the descriptors, the scene and the log are
    unchanged. *)
Theorem startSimulation_unconditional st r p :
  attached st r p →
  startSimulation st =
    (Ok tt,
     {| self := self st;
        objs := <[r := {| attrs := {| dt := dt (attrs p);
                                       totalSteps := totalSteps (attrs p);
                                       currentStep := 0;
                                       isSimulationRunning := true;
                                       sofaParameterNodeWrapped :=
                                         sofaParameterNodeWrapped (attrs p) |};
                          sofa_node_mappers := sofa_node_mappers p |}]> (objs st);
        mappers := mappers st;
        run_once_fns := run_once_fns st;
        sofa := sofa st;
        log := log st |}) ∧
  running (startSimulation st).2 = Some true ∧
  step_counter (startSimulation st).2 = Some 0 ∧
  _sceneUp (self (startSimulation st).2) = _sceneUp (self st).
Proof.
  intros Hatt. rewrite (startSimulation_result st r p Hatt).
  destruct Hatt as [Hpn Hp]. split_and!; [done | | | done].
  - unfold running. simpl. rewrite Hpn. simpl. by rewrite lookup_insert_eq.
  - unfold step_counter. simpl. rewrite Hpn. simpl. by rewrite lookup_insert_eq.
Qed.

(** ** clean *)

Lemma clean_not_up st : _sceneUp (self st) = false → clean st = (Ok tt, st).
Proof. intros Hup. unfold clean. rewrite !bind_gets, Hup. done. Qed.

(** Either clean() does nothing, or it leaves the scene down. *)
Lemma clean_result st :
  clean st = (Ok tt, st) ∨ _sceneUp (self (clean st).2) = false.
Proof.
  destruct st as [[up root pn] o ms fs sc lg].
  unfold clean. rewrite !bind_gets. simpl.
  destruct up; [|by left]. destruct root as [n|]; [|by left]. right.
  unfold Sofa_Simulation_unload, emit, assign_rootNode, assign_sceneUp,
    write_fields, the_parameterNode, modify, mbind, prog_bind. simpl.
  destruct pn as [rp|]; [|done]. simpl.
  by destruct (o !! rp).
Qed.

(** C7.  After clean(), a second clean() returns and changes nothing: the
    scene-up flag, the root node, the running flag and the log of engine
    calls are those left by the first. *)
Theorem clean_idempotent st :
  clean (clean st).2 = (Ok tt, (clean st).2).
Proof.
  destruct (clean_result st) as [E|Hdown].
  - rewrite E. simpl. exact E.
  - by apply clean_not_up.
Qed.

(** ** Rejected arguments *)

Lemma checkParameterNode_valid st a :
  valid_container st a → __checkParameterNode__ a st = (Ok tt, st).
Proof.
  intros (r & p & -> & Ep & Hw).
  unfold __checkParameterNode__, getattr_sofaParameterNodeWrapped,
    mbind, prog_bind, gets. simpl.
  rewrite Ep. simpl. rewrite Hw. simpl. rewrite Ep. simpl. by rewrite Hw.
Qed.

Lemma checkParameterNode_rejected st a :
  rejected_container st a →
  ∃ msg, __checkParameterNode__ a st = (Raise (ValueError msg), st).
Proof.
  intros [->|(r & p & -> & Ep & Hw)]; [by eexists|].
  unfold __checkParameterNode__, getattr_sofaParameterNodeWrapped,
    mbind, prog_bind, gets. simpl.
  rewrite Ep. simpl. rewrite Hw. simpl. by eexists.
Qed.

(** C6, as the code has it.  From a state that is not Built, setupScene
    raises ValueError when the container is None or a wrapped instance whose
    sofaParameterNodeWrapped is not True, and then changes nothing; it also
    raises ValueError when the container is valid and the root is not a
    Sofa.Core.Node, and then the container has already been stored in
    _parameterNode: that is the only change (not Built, same root node, no
    Push, no engine call). *)
Theorem setupScene_rejects st a b :
  _sceneUp (self st) = false →
  rejected_container st a ∨ (valid_container st a ∧ as_node b = None) →
  ∃ msg,
    (rejected_container st a ∧ setupScene a b st = (Raise (ValueError msg), st)) ∨
    (valid_container st a ∧
     setupScene a b st =
       (Raise (ValueError msg),
        set_self {| _sceneUp := false; _rootNode := _rootNode (self st);
                    _parameterNode := as_loc a |} st)).
Proof.
  intros Hup [Hrej|[Hval Hb]].
  - destruct (checkParameterNode_rejected st a Hrej) as [msg E].
    exists msg. left. split; [done|].
    unfold setupScene. rewrite bind_gets, Hup.
    by rewrite (bind_Raise _ _ _ _ _ E).
  - eexists. right. split; [done|].
    unfold setupScene. rewrite bind_gets, Hup.
    rewrite (bind_Ok _ _ _ _ _ (checkParameterNode_valid st a Hval)).
    rewrite Hb. unfold assign_parameterNode, modify, mbind, prog_bind. simpl.
    by rewrite Hup.
Qed.

(** ** Construction of descriptors *)

Lemma SofaNodeMapper_init_raises name inp out rec e :
  SofaNodeMapper_init name inp out rec = Raise e → ∃ msg, e = ValueError msg.
Proof.
  unfold SofaNodeMapper_init.
  destruct (negb (is_None inp) && negb (callable inp)); [intros [= <-]; eauto|].
  destruct (negb (is_None out) && negb (callable out)); [intros [= <-]; eauto|done].
Qed.

Lemma class_body_raises field name inp out rec pre post cls st :
  (∃ msg, SofaNodeMapper_init name inp out rec = Raise (ValueError msg)) →
  ∃ msg st',
    class_body (pre ++ Mapper field name inp out rec :: post) cls st
      = (Raise (ValueError msg), st').
Proof.
  intros [msg Hbad]. revert cls st.
  induction pre as [|[f v|f a b c d|f a] pre IH]; intros cls st; simpl.
  - rewrite Hbad. by exists msg, st.
  - apply IH.
  - destruct (SofaNodeMapper_init a b c d) as [m|e] eqn:E.
    + unfold mbind, prog_bind, alloc_mapper. simpl. apply IH.
    + destruct (SofaNodeMapper_init_raises _ _ _ _ _ E) as [msg' ->].
      by exists msg', st.
  - apply IH.
Qed.

(** C9.  The constructor of SofaNodeMapper raises ValueError whenever the
    input mover or the output mover is neither None nor callable; a class
    statement with such a field raises ValueError too, so that no class, and
    no registry holding the descriptor, comes to exist. *)
Theorem SofaNodeMapper_rejects_non_callable name inp out rec field pre post st :
  (is_None inp = false ∧ callable inp = false) ∨
  (is_None out = false ∧ callable out = false) →
  (∃ msg, SofaNodeMapper_init name inp out rec = Raise (ValueError msg)) ∧
  (∃ msg st', declare_class (pre ++ Mapper field name inp out rec :: post) st
                = (Raise (ValueError msg), st')).
Proof.
  intros H.
  assert (∃ msg, SofaNodeMapper_init name inp out rec = Raise (ValueError msg)) as Hbad.
  { unfold SofaNodeMapper_init.
    destruct H as [[-> ->]|[-> ->]]; simpl; [by eexists|].
    destruct (negb (is_None inp) && negb (callable inp)); by eexists. }
  split; [done|].
  destruct (class_body_raises field name inp out rec pre post empty_class st Hbad)
    as (msg & st' & E).
  exists msg, st'. unfold declare_class. by rewrite (bind_Raise _ _ _ _ _ E).
Qed.

(** A call of [setupScene] on a wrapped instance and a root node, from a
    state that is not Built, returns in the Built state when the descriptors
    of the instance are well behaved. *)
Lemma setupScene_returns st r p n :
  _sceneUp (self st) = false →
  objs st !! r = Some p → sofaParameterNodeWrapped (attrs p) = true →
  Forall (λ e, entry_ok st n e.2) (sofa_node_mappers p) →
  ∃ st1, setupScene (PyObj r) (PyNode n) st = (Ok tt, st1) ∧ Built st1.
Proof.
  intros Hup Hp Hw Hok.
  unfold setupScene. rewrite bind_gets, Hup.
  rewrite (bind_Ok _ _ _ _ _ (checkParameterNode_valid st (PyObj r) ltac:(by exists r, p))).
  simpl as_loc. simpl as_node.
  unfold assign_parameterNode at 1, assign_rootNode at 1.
  unfold modify at 1 2. unfold mbind at 1 2, prog_bind at 1 2. simpl.
  set (s2 := set_self _ _).
  assert (Sim false n r (sofa_node_mappers p) (totalSteps (attrs p))
            (currentStep (attrs p)) (isSimulationRunning (attrs p)) s2) as HS.
  { split_and!; [by subst s2; simpl; rewrite Hup | by exists p |].
    eapply Forall_entry_ok; [|done]. by apply evolves_same. }
  destruct (Sim_sync _ _ _ _ _ _ _ ToSofa s2 HS) as ([] & E & HS3).
  destruct (sync ToSofa s2) as [o s3] eqn:Esync. simpl in E, HS3. subst o.
  unfold __updateSofa__. rewrite (bind_Ok _ _ _ _ _ Esync).
  unfold Sofa_Simulation_init, emit, assign_sceneUp, modify, mbind, prog_bind. simpl.
  destruct HS3 as (Hself & (p' & Ep' & Hreg & _) & _).
  eexists. split; [done|]. rewrite Hself.
  split_and!; simpl; [done | by eexists | exists r, p'; by split].
Qed.

(** * Further properties of the controller *)

(** ** Counting events through the driver *)

#[local] Instance uncounted_preorder P : PreOrder (uncounted P).
Proof.
  split; [by intros st | intros st1 st2 st3; unfold uncounted; congruence].
Qed.

#[local] Instance uncounted_framed P : Framed (uncounted P).
Proof. split; [apply _ | by intros ..]. Qed.

Lemma uncounted_quiet P e : P e = false → quiet (uncounted P) e.
Proof.
  intros He st. unfold uncounted. simpl.
  rewrite count_events_app. simpl. rewrite He. lia.
Qed.

Lemma uncounted_sync_body P d r : driver_blind P → keeps (uncounted P) (sync_body d r).
Proof.
  intros HP st. unfold uncounted. destruct (HP d r) as [Hres Hmov].
  assert (∀ evs : list event, (evs = [] ∨ ∃ s, evs = [EvResolve d r s]) →
            count_events P evs = O) as Hevs.
  { intros evs [->|[s ->]]; simpl; [done|]. by rewrite Hres. }
  destruct (sync_body_shape d r st)
    as [->|(m & f & evs & _ & _ & _ & He & [->|(o & sc & b & -> & _)])]; [done | |].
  - simpl. rewrite count_events_app, (Hevs evs He). lia.
  - assert (∀ b s, log (finish d r b s) = log s) as -> by (by intros []).
    simpl. rewrite !count_events_app, (Hevs evs He). simpl. rewrite Hmov. lia.
Qed.

Lemma uncounted_for_each P d items :
  driver_blind P → keeps (uncounted P) (for_each items (sync_body d)).
Proof.
  intros HP. apply keeps_for_each; [apply _|]. intros r. by apply uncounted_sync_body.
Qed.

(** ** The driver leaves the controller alone *)

#[local] Instance same_self_preorder : PreOrder same_self.
Proof.
  split.
  - by intros st.
  - intros st1 st2 st3 [E12 H12] [E23 H23]. split; [congruence|].
    intros r Hr. by apply H23, H12.
Qed.

Lemma same_self_log st l : same_self st (set_log l st).
Proof. by split. Qed.

Lemma same_self_finish d r b st : same_self st (finish d r b st).
Proof. by destruct b. Qed.

Lemma same_self_invoke d r f n (b : bool) :
  keeps same_self (invoke d r f n;; if b then mark_has_run d r else mret tt).
Proof.
  intros st.
  unfold invoke, the_parameterNode, emit, modify, mbind, prog_bind, gets,
    mark_has_run; simpl.
  destruct (_parameterNode (self st)) as [rp|]; simpl; [|reflexivity].
  destruct (objs st !! rp) as [p|] eqn:Ep; simpl; [|reflexivity].
  assert (same_self st
            (set_sofa (call_mover f (attrs p) n (sofa st)).2
               (set_objs (<[rp:=with_attrs (call_mover f (attrs p) n (sofa st)).1 p]>
                            (objs st))
                  (set_log (log st ++ [EvMover d r f]) st)))) as H.
  { split; [done|]. simpl. intros r0 Hr0.
    destruct (decide (rp = r0)) as [->|Hne].
    - rewrite lookup_insert_eq. by eexists.
    - by rewrite lookup_insert_ne. }
  destruct (mover_raises f (attrs p) n (sofa st)); simpl; [exact H|].
  destruct b; simpl; [|exact H].
  destruct H as [H1 H2]. by split.
Qed.

Lemma same_self_sync_body d r : keeps same_self (sync_body d r).
Proof.
  intros st. unfold sync_body. rewrite bind_gets.
  destruct (mappers st !! r) as [m|]; [|reflexivity].
  destruct (mapping d m) as [f|]; [|reflexivity].
  unfold run_once_attr. rewrite bind_gets.
  destruct (bool_decide (f ∈ run_once_fns st) && has_run d m); [reflexivity|].
  destruct (resolve_shape d r (nodeName m) st) as (evs & Hres & _).
  destruct (resolve d r (nodeName m) st) as [[n|e] st1] eqn:Er; simpl in Hres; subst st1.
  2:{ rewrite (bind_Raise _ _ _ _ _ Er). apply same_self_log. }
  rewrite (bind_Ok _ _ _ _ _ Er).
  etrans; [apply (same_self_log st (log st ++ evs))|].
  apply same_self_invoke.
Qed.

Lemma same_self_sync d : keeps same_self (sync d).
Proof.
  unfold sync. apply keeps_bind; [apply _ | |intros ?].
  { intros st. apply same_self_log. }
  apply keeps_bind; [apply _ | apply keeps_the_parameterNode; apply _ | intros rp].
  apply keeps_for_each; [apply _ | apply same_self_sync_body].
Qed.

(** ** Inversion of a bind *)

Lemma bind_cases {A B} (m : prog A) (k : A → prog B) st :
  (∃ a, m st = (Ok a, (m st).2) ∧ (m ≫= k) st = k a (m st).2) ∨
  (∃ e, m st = (Raise e, (m st).2) ∧ (m ≫= k) st = (Raise e, (m st).2)).
Proof.
  unfold mbind, prog_bind. destruct (m st) as [[a|e] st1]; simpl; eauto.
Qed.

(** ** startSimulation and stopSimulation *)

(** X1.  stopSimulation looks at the scene-up flag only: a simulation that
    was started while the scene is not up (before setupScene, or after
    clean) is not stopped by stopSimulation, which returns without any
    effect; the running flag stays set. *)
Theorem stopSimulation_ignored_when_not_up st r p :
  attached st r p → _sceneUp (self st) = false →
  run [StartSimulation; StopSimulation] st = run [StartSimulation] st ∧
  outcomes [StartSimulation; StopSimulation] st = [Ok tt; Ok tt] ∧
  running (run [StartSimulation; StopSimulation] st) = Some true.
Proof.
  intros Hatt Hup. pose proof (startSimulation_result st r p Hatt) as E.
  destruct Hatt as [Hpn Hp].
  unfold run, outcomes. simpl. rewrite E. simpl.
  unfold stopSimulation. rewrite bind_gets. simpl. rewrite Hup. simpl.
  split_and!; [done | done |].
  unfold running. simpl. rewrite Hpn. simpl. by rewrite lookup_insert_eq.
Qed.

(** X2.  With the scene up, stopSimulation clears the running flag of the
    attached parameter node and changes nothing else (the step counter stays);
    the next simulationStep only displays its message. *)
Theorem stopSimulation_then_step st r p :
  _sceneUp (self st) = true → attached st r p →
  let st1 := set_objs (<[r := with_attrs (with_isSimulationRunning false (attrs p)) p]>
                         (objs st)) st in
  stopSimulation st = (Ok tt, st1) ∧
  step_counter st1 = step_counter st ∧
  simulationStep st1 =
    (Ok tt, set_log (log st ++ [EvErrorDisplay not_running_msg]) st1).
Proof.
  intros Hup [Hpn Hp]. simpl. split_and!.
  - unfold stopSimulation. rewrite bind_gets, Hup.
    unfold write_fields, the_parameterNode, mbind, prog_bind, modify.
    by rewrite Hpn, Hp.
  - unfold step_counter. simpl. rewrite Hpn. simpl.
    by rewrite lookup_insert_eq, Hp.
  - unfold simulationStep. rewrite bind_gets. simpl. rewrite Hup. simpl.
    unfold read_fields, the_parameterNode, mbind, prog_bind. simpl.
    rewrite Hpn. simpl. by rewrite lookup_insert_eq.
Qed.

(** X3.  startSimulation on a controller that has no parameter node (none
    was ever accepted by setupScene) raises AttributeError and changes
    nothing. *)
Theorem startSimulation_without_parameterNode st :
  _parameterNode (self st) = None →
  ∃ msg, startSimulation st = (Raise (AttributeError msg), st).
Proof.
  intros Hpn. eexists.
  unfold startSimulation, write_fields, the_parameterNode, mbind, prog_bind.
  by rewrite Hpn.
Qed.

(** ** clean *)

Lemma clean_up st n r p :
  _sceneUp (self st) = true → _rootNode (self st) = Some n → attached st r p →
  clean st =
    (Ok tt,
     set_objs (<[r := with_attrs (with_isSimulationRunning false (attrs p)) p]> (objs st))
       (set_self {| _sceneUp := false; _rootNode := None; _parameterNode := Some r |}
          (set_sofa (Simulation_unload n (sofa st))
             (set_log (log st ++ [EvUnload n]) st)))).
Proof.
  intros Hup Hroot [Hpn Hp].
  unfold clean. rewrite !bind_gets, Hup, Hroot.
  unfold Sofa_Simulation_unload, emit, assign_rootNode, assign_sceneUp,
    write_fields, the_parameterNode, modify, mbind, prog_bind. simpl.
  by rewrite Hpn, Hp.
Qed.

(** X4.  With the scene up on root node n, clean() unloads n once, forgets
    the root node, lowers the scene-up flag and clears the running flag; the
    parameter node stays attached and its step counter is not reset. *)
Theorem clean_tears_down st n r p :
  _sceneUp (self st) = true → _rootNode (self st) = Some n → attached st r p →
  clean st =
    (Ok tt,
     set_objs (<[r := with_attrs (with_isSimulationRunning false (attrs p)) p]> (objs st))
       (set_self {| _sceneUp := false; _rootNode := None; _parameterNode := Some r |}
          (set_sofa (Simulation_unload n (sofa st))
             (set_log (log st ++ [EvUnload n]) st)))) ∧
  rootNode (clean st).2 = None ∧
  running (clean st).2 = Some false ∧
  step_counter (clean st).2 = step_counter st.
Proof.
  intros Hup Hroot Hatt. rewrite (clean_up st n r p Hup Hroot Hatt).
  destruct Hatt as [Hpn Hp]. split_and!; [done | done | |].
  - unfold running. simpl. by rewrite lookup_insert_eq.
  - unfold step_counter. simpl. rewrite Hpn. simpl. by rewrite lookup_insert_eq, Hp.
Qed.


(** ** setupScene, stage by stage *)

Lemma checkParameterNode_state st a : (__checkParameterNode__ a st).2 = st.
Proof.
  unfold __checkParameterNode__, getattr_sofaParameterNodeWrapped,
    mbind, prog_bind, gets, raise.
  destruct a; simpl; try done.
  destruct (objs st !! r) as [p|]; simpl; [|done].
  destruct (sofaParameterNodeWrapped (attrs p)); simpl; [|done].
  destruct (objs st !! r) as [p'|]; simpl; [|done].
  by destruct (sofaParameterNodeWrapped (attrs p')).
Qed.

Lemma checkParameterNode_accepts st a :
  (__checkParameterNode__ a st).1 = Ok tt → valid_container st a.
Proof.
  unfold __checkParameterNode__, getattr_sofaParameterNodeWrapped,
    mbind, prog_bind, gets, raise.
  destruct a; simpl; try done.
  destruct (objs st !! r) as [p|] eqn:Ep; simpl; [|done].
  destruct (sofaParameterNodeWrapped (attrs p)) eqn:Ew; simpl; [|done].
  intros _. by exists r, p.
Qed.

Lemma uncounted_sync P d :
  driver_blind P → (∀ d', P (EvSync d') = false) → keeps (uncounted P) (sync d).
Proof.
  intros HP Hs. unfold sync.
  apply keeps_bind; [apply _ | apply (keeps_emit (uncounted P)), uncounted_quiet, Hs |].
  intros ?. apply keeps_bind; [apply _ | apply keeps_the_parameterNode; apply _|].
  intros rp. by apply uncounted_for_each.
Qed.

Lemma is_init_blind : driver_blind is_init.
Proof. by intros d r. Qed.

Lemma is_animate_blind : driver_blind is_animate.
Proof. by intros d r. Qed.

Lemma is_unload_blind : driver_blind is_unload.
Proof. by intros d r. Qed.

Lemma is_sync_blind d : driver_blind (is_sync d).
Proof. by intros d' r. Qed.

(** The state in which [__updateSofa__] runs inside [setupScene]. *)
Lemma setupScene_unfold st a b :
  _sceneUp (self st) = false →
  setupScene a b st =
    match (__checkParameterNode__ a st).1 with
    | Raise e => (Raise e, st)
    | Ok _ =>
        let s2 := set_self {| _sceneUp := false; _rootNode := _rootNode (self st);
                              _parameterNode := as_loc a |} st in
        match as_node b with
        | None => (Raise (ValueError "rootNode is not a valid Sofa.Core.Node root node"), s2)
        | Some n =>
            let s3 := set_self {| _sceneUp := false; _rootNode := Some n;
                                  _parameterNode := as_loc a |} st in
            match sync ToSofa s3 with
            | (Raise e, s4) => (Raise e, s4)
            | (Ok _, s4) =>
                (Ok tt,
                 set_self {| _sceneUp := true; _rootNode := _rootNode (self s4);
                             _parameterNode := _parameterNode (self s4) |}
                   (set_sofa (Simulation_init n (sofa s4))
                      (set_log (log s4 ++ [EvInit n]) s4)))
            end
        end
    end.
Proof.
  intros Hup. unfold setupScene. rewrite bind_gets, Hup.
  pose proof (checkParameterNode_state st a) as Hst.
  unfold mbind at 1, prog_bind at 1.
  destruct (__checkParameterNode__ a st) as [[[]|e] s1]; simpl in Hst; subst s1;
    simpl; [|done].
  unfold assign_parameterNode, modify, mbind at 1, prog_bind at 1. simpl. rewrite Hup.
  destruct (as_node b) as [n|]; [|done].
  unfold assign_rootNode, modify, mbind at 1, prog_bind at 1. simpl.
  unfold __updateSofa__, mbind at 1, prog_bind at 1.
  destruct (sync ToSofa _) as [[[]|e] s4]; [|done].
  done.
Qed.

(** X5.  Whenever setupScene raises, whatever the exception (a rejected
    argument, a node missing from the graph, ...), the scene-up flag is still
    false and the engine graph has not been initialized. *)
Theorem setupScene_raise_leaves_scene_down st a b e st' :
  _sceneUp (self st) = false →
  setupScene a b st = (Raise e, st') →
  _sceneUp (self st') = false ∧
  count_events is_init (log st') = count_events is_init (log st).
Proof.
  intros Hup. rewrite (setupScene_unfold st a b Hup).
  destruct (__checkParameterNode__ a st).1; [|by intros [= _ <-]].
  simpl. destruct (as_node b) as [n|]; [|by intros [= _ <-]].
  set (s3 := set_self _ st).
  pose proof (same_self_sync ToSofa s3) as [Hself _].
  pose proof (uncounted_sync is_init ToSofa is_init_blind ltac:(done) s3) as Hcount.
  destruct (sync ToSofa s3) as [[[]|e'] s4]; [done|].
  intros [= _ <-]. simpl in *. split; [by rewrite Hself | exact Hcount].
Qed.


Lemma setupScene_Sim st r p n :
  _sceneUp (self st) = false →
  objs st !! r = Some p → sofaParameterNodeWrapped (attrs p) = true →
  Forall (λ e, entry_ok st n e.2) (sofa_node_mappers p) →
  ∃ st1, setupScene (PyObj r) (PyNode n) st = (Ok tt, st1) ∧
    Sim true n r (sofa_node_mappers p) (totalSteps (attrs p))
      (currentStep (attrs p)) (isSimulationRunning (attrs p)) st1 ∧
    (∀ P, driver_blind P → (∀ d, P (EvSync d) = false) →
          count_events P (log st1) = (count_events P (log st) + count_events P [EvInit n])%nat) ∧
    count_events (is_sync ToSofa) (log st1) = S (count_events (is_sync ToSofa) (log st)).
Proof.
  intros Hup Hp Hw Hok. rewrite (setupScene_unfold _ _ _ Hup).
  rewrite (checkParameterNode_valid st (PyObj r) ltac:(by exists r, p)). simpl.
  set (s3 := set_self _ st).
  assert (Sim false n r (sofa_node_mappers p) (totalSteps (attrs p))
            (currentStep (attrs p)) (isSimulationRunning (attrs p)) s3) as HS.
  { split_and!; [done | by exists p |].
    eapply Forall_entry_ok; [|done]. by apply evolves_same. }
  destruct (Sim_sync _ _ _ _ _ _ _ ToSofa s3 HS) as ([] & E & HS4).
  pose proof (sync_counted ToSofa s3) as Hsync.
  assert (∀ P, driver_blind P → (∀ d, P (EvSync d) = false) →
               uncounted P s3 (sync ToSofa s3).2) as Hother.
  { intros P HP Hs. by apply uncounted_sync. }
  destruct (sync ToSofa s3) as [o s4]. simpl in E, HS4, Hsync, Hother. subst o.
  eexists. split; [done|].
  destruct HS4 as (Hself & Hp4 & Hok4). rewrite Hself. simpl. split_and!.
  - split_and!; [done | done |].
    eapply Forall_entry_ok; [|done]. by apply evolves_same.
  - intros P HP Hs. simpl. rewrite count_events_app. by rewrite (Hother P HP Hs).
  - simpl. rewrite count_events_app. simpl. lia.
Qed.

(** X6.  From a state where the scene is not up, setupScene on an instance
    of a wrapped class (attribute True) and a Sofa node returns when the
    descriptors of the class are well behaved for that node (their movers
    return and keep the control fields, their named nodes are in the graph
    under that node): the scene is up on that node and that instance, one
    Push and one engine initialization were made, the engine was not
    advanced, and the running flag and the step counter of the instance are
    what they were. *)
Theorem setupScene_builds st r p n :
  _sceneUp (self st) = false →
  objs st !! r = Some p → sofaParameterNodeWrapped (attrs p) = true →
  Forall (λ e, entry_ok st n e.2) (sofa_node_mappers p) →
  ∃ st1, setupScene (PyObj r) (PyNode n) st = (Ok tt, st1) ∧
    self st1 = {| _sceneUp := true; _rootNode := Some n; _parameterNode := Some r |} ∧
    count_events (is_sync ToSofa) (log st1) = S (count_events (is_sync ToSofa) (log st)) ∧
    count_events is_init (log st1) = S (count_events is_init (log st)) ∧
    count_events is_animate (log st1) = count_events is_animate (log st) ∧
    running st1 = Some (isSimulationRunning (attrs p)) ∧
    step_counter st1 = Some (currentStep (attrs p)).
Proof.
  intros Hup Hp Hw Hok.
  destruct (setupScene_Sim st r p n Hup Hp Hw Hok) as (st1 & E & HS & Hcount & Hsync).
  exists st1. split; [done|].
  destruct (Sim_observed _ _ _ _ _ _ _ _ HS) as [Hrun Hstep].
  destruct HS as (Hself & _). split_and!; try done.
  - rewrite (Hcount is_init is_init_blind ltac:(done)). simpl. lia.
  - rewrite (Hcount is_animate is_animate_blind ltac:(done)). simpl. lia.
Qed.

(** X7.  A scene that is up can be torn down and set up again on another
    root node, when the attached parameter node still has
    sofaParameterNodeWrapped = True and the descriptors of its class are well
    behaved for the new root node (their movers return and keep the control
    fields, their named nodes are in the graph under the new root): clean()
    then setupScene on the same parameter node and the new root return, the
    scene is up on the new node with the same parameter node, there was one
    unload, one more Push and one more initialization, and the running flag
    is false. *)
Theorem scene_rebuilt_after_clean st n n' r p :
  _sceneUp (self st) = true → _rootNode (self st) = Some n → attached st r p →
  sofaParameterNodeWrapped (attrs p) = true →
  Forall (λ e, entry_ok st n' e.2) (sofa_node_mappers p) →
  let cs := [Clean; SetupScene (PyObj r) (PyNode n')] in
  outcomes cs st = [Ok tt; Ok tt] ∧
  self (run cs st) = {| _sceneUp := true; _rootNode := Some n'; _parameterNode := Some r |} ∧
  count_events is_unload (log (run cs st)) = S (count_events is_unload (log st)) ∧
  count_events (is_sync ToSofa) (log (run cs st))
    = S (count_events (is_sync ToSofa) (log st)) ∧
  count_events is_init (log (run cs st)) = S (count_events is_init (log st)) ∧
  running (run cs st) = Some false.
Proof.
  intros Hup Hroot Hatt Hw Hok cs.
  pose proof (clean_up st n r p Hup Hroot Hatt) as Ec.
  set (sc := (clean st).2).
  assert (objs sc !! r = Some (with_attrs (with_isSimulationRunning false (attrs p)) p))
    as Hp' by (subst sc; rewrite Ec; simpl; by rewrite lookup_insert_eq).
  assert (_sceneUp (self sc) = false) as Hup' by (subst sc; by rewrite Ec).
  assert (Forall (λ e, entry_ok sc n' e.2) (sofa_node_mappers p)) as Hok'.
  { eapply Forall_entry_ok; [|done]. subst sc. rewrite Ec. by apply evolves_same. }
  destruct (setupScene_Sim sc r _ n' Hup' Hp' Hw Hok') as (st1 & E & HS & Hcount & Hsync).
  assert (log sc = log st ++ [EvUnload n]) as Hlog by (subst sc; by rewrite Ec).
  subst cs. rewrite outcomes_cons, run_cons. simpl exec. fold sc.
  rewrite outcomes_cons, run_cons. simpl exec. rewrite E. simpl.
  rewrite Ec. simpl.
  destruct (Sim_observed _ _ _ _ _ _ _ _ HS) as [Hrun _].
  destruct HS as (Hself & _). split_and!; try done.
  - rewrite (Hcount is_unload is_unload_blind ltac:(done)), Hlog, count_events_app.
    simpl. lia.
  - rewrite Hsync, Hlog, count_events_app. simpl. lia.
  - rewrite (Hcount is_init is_init_blind ltac:(done)), Hlog, count_events_app.
    simpl. lia.
Qed.


(** ** The scene is up only on a root node and a parameter node *)

Lemma same_self_scene_up_ok st st' :
  same_self st st' → scene_up_ok st → scene_up_ok st'.
Proof.
  intros [Es Ho] H Hup'. rewrite Es in Hup' |- *.
  destruct (H Hup') as [Hr (r & p & Hpn & Hp)]. split; [done|].
  destruct (Ho r) as [p' Hp']; [by eexists|].
  exists r, p'. split; [by rewrite Es | done].
Qed.

Lemma same_self_write_fields f : keeps same_self (write_fields f).
Proof.
  intros st. unfold write_fields, the_parameterNode, mbind, prog_bind, modify.
  destruct (_parameterNode (self st)) as [rp|]; simpl; [|reflexivity].
  destruct (objs st !! rp) as [p|] eqn:Ep; simpl; [|reflexivity].
  split; [done|]. simpl. intros r0 Hr0.
  destruct (decide (rp = r0)) as [->|Hne].
  - rewrite lookup_insert_eq. by eexists.
  - by rewrite lookup_insert_ne.
Qed.

Lemma same_self_read_fields : keeps same_self read_fields.
Proof.
  unfold read_fields. apply keeps_bind; [apply _ | |intros ?; apply keeps_ret; apply _].
  apply keeps_the_parameterNode; apply _.
Qed.

Lemma same_self_animate_root : keeps same_self animate_root.
Proof.
  unfold animate_root.
  apply keeps_bind; [apply _ | apply keeps_gets; apply _ | intros root].
  apply keeps_bind; [apply _ | apply same_self_read_fields | intros a].
  destruct root as [n|]; [|apply keeps_raise; apply _].
  intros st. by split.
Qed.

Lemma same_self_startSimulation : keeps same_self startSimulation.
Proof.
  unfold startSimulation.
  apply keeps_bind; [apply _ | apply same_self_write_fields | intros ?].
  apply same_self_write_fields.
Qed.

Lemma same_self_stopSimulation : keeps same_self stopSimulation.
Proof.
  unfold stopSimulation.
  apply keeps_bind; [apply _ | apply keeps_gets; apply _ | intros up].
  destruct up; [apply same_self_write_fields | apply keeps_ret; apply _].
Qed.

Lemma same_self_simulationStep : keeps same_self simulationStep.
Proof.
  unfold simulationStep.
  apply keeps_bind; [apply _ | apply keeps_gets; apply _ | intros up].
  apply keeps_bind; [apply _ | | intros stopped].
  { destruct up; simpl; [|apply keeps_ret; apply _].
    apply keeps_bind; [apply _ | apply same_self_read_fields | intros a].
    apply keeps_ret; apply _. }
  destruct stopped; [intros st; by split|].
  apply keeps_bind; [apply _ | apply same_self_sync | intros []].
  apply keeps_bind; [apply _ | apply same_self_read_fields | intros a].
  apply keeps_bind; [apply _ | | intros []; apply same_self_sync].
  destruct (currentStep a <? totalSteps a).
  - apply keeps_bind; [apply _ | apply same_self_animate_root | intros []].
    apply same_self_write_fields.
  - destruct (totalSteps a <? 0);
      [apply same_self_animate_root | apply same_self_write_fields].
Qed.

Lemma scene_up_ok_setupScene st a b :
  scene_up_ok st → scene_up_ok (setupScene a b st).2.
Proof.
  intros H. destruct (_sceneUp (self st)) eqn:Hup.
  { by rewrite setupScene_Built. }
  rewrite (setupScene_unfold _ _ _ Hup).
  pose proof (checkParameterNode_accepts st a) as Hacc.
  destruct (__checkParameterNode__ a st).1 as [[]|e]; [|done].
  destruct (Hacc eq_refl) as (r & p & -> & Hp & _). simpl.
  destruct (as_node b) as [n|]; [|by intros ?].
  set (s3 := set_self _ st).
  pose proof (same_self_sync ToSofa s3) as [Hself Hobjs].
  destruct (sync ToSofa s3) as [[[]|e] s4]; simpl in *.
  - intros _. rewrite Hself. simpl. split; [by eexists|].
    destruct (Hobjs r) as [p' Hp']; [by eexists|]. by exists r, p'.
  - intros Hup4. rewrite Hself in Hup4. done.
Qed.

Lemma scene_up_ok_exec c st : scene_up_ok st → scene_up_ok (exec c st).2.
Proof.
  intros H. destruct c; simpl.
  - by apply scene_up_ok_setupScene.
  - eapply same_self_scene_up_ok; [apply same_self_startSimulation | done].
  - eapply same_self_scene_up_ok; [apply same_self_stopSimulation | done].
  - eapply same_self_scene_up_ok; [apply same_self_simulationStep | done].
  - destruct (clean_result st) as [->|Hdown]; [done|].
    intros Hup. congruence.
  - eapply same_self_scene_up_ok; [apply same_self_sync | done].
  - eapply same_self_scene_up_ok; [apply same_self_sync | done].
Qed.

(** X8.  Over any sequence of calls (setupScene, start, stop, step, clean,
    Push, Pull, with any arguments and whether they raise or not), whenever
    the scene-up flag is set the controller holds a root node and a parameter
    node.  It holds of a new controller, whose flag is false. *)
Theorem scene_up_ok_invariant cs st :
  scene_up_ok st → scene_up_ok (run cs st).
Proof.
  revert st. induction cs as [|c cs IH]; intros st H; [done|].
  rewrite run_cons. by apply IH, scene_up_ok_exec.
Qed.


(** ** Counting what a step does *)

Lemma sync_counts P d st :
  driver_blind P →
  count_events P (log (sync d st).2)
  = (count_events P (log st) + count_events P [EvSync d])%nat.
Proof.
  intros HP. unfold sync, emit, modify, mbind, prog_bind. simpl.
  set (st1 := set_log (log st ++ [EvSync d]) st).
  assert (count_events P (log st1)
          = (count_events P (log st) + count_events P [EvSync d])%nat) as E1.
  { simpl. by rewrite count_events_app. }
  pose proof (keeps_the_parameterNode (uncounted P) st1) as H1.
  destruct (the_parameterNode st1) as [[rp|e] st2]; simpl in H1.
  - pose proof (uncounted_for_each P d (sofa_node_mappers rp.2) HP st2) as H2.
    unfold uncounted in *. simpl in *. rewrite H2, H1. exact E1.
  - unfold uncounted in *. simpl in *. rewrite H1. exact E1.
Qed.

Lemma returns_and {A} (Pre : State → Prop) (Q : A → State → Prop)
    (I I' : State → Prop) (m : prog A) :
  returns Pre m Q → (∀ st, Pre st → I st → I' (m st).2) →
  returns (λ st, Pre st ∧ I st) m (λ a st', Q a st' ∧ I' st').
Proof.
  intros Hm HI st [HP Hi]. destruct (Hm st HP) as (a & E & HQ).
  exists a. split_and!; [done | done | by apply HI].
Qed.

Lemma uncounted_counted P k {A} (m : prog A) st :
  keeps (uncounted P) m → counted P k st → counted P k (m st).2.
Proof. intros Hm Hk. unfold counted in *. by rewrite (Hm st). Qed.

Section Counting.
Context (P : event → bool) (root : node) (r : loc) (reg : list (string * loc)) (N : Z).
Context (P_blind : driver_blind P)
        (P_animate : ∀ n z z', P (EvAnimate n z) = P (EvAnimate n z')).

Lemma SimC_sync c b k d :
  returns (SimC P root r reg N c b k) (sync d)
    (λ _, SimC P root r reg N c b (k + count_events P [EvSync d])).
Proof.
  apply returns_and; [apply Sim_sync|].
  intros st _ Hk. unfold counted in *. by rewrite sync_counts, Hk.
Qed.

Lemma SimC_read_fields c b k :
  returns (SimC P root r reg N c b k) read_fields
    (λ a st, (totalSteps a = N ∧ currentStep a = c ∧ isSimulationRunning a = b) ∧
             SimC P root r reg N c b k st).
Proof.
  eapply returns_post.
  - eapply (returns_and _ _ (counted P k) (counted P k)); [apply Sim_read_fields|].
    intros st _. apply uncounted_counted, keeps_read_fields. apply _.
  - intros a st [[Ha HS] Hk]. exact (conj Ha (conj HS Hk)).
Qed.

Lemma SimC_write_fields c b c' b' k (f : fields → fields) :
  (∀ a, totalSteps a = N → currentStep a = c → isSimulationRunning a = b →
        totalSteps (f a) = N ∧ currentStep (f a) = c' ∧ isSimulationRunning (f a) = b') →
  returns (SimC P root r reg N c b k) (write_fields f)
    (λ _, SimC P root r reg N c' b' k).
Proof.
  intros Hf. apply returns_and; [by apply Sim_write_fields|].
  intros st _. apply uncounted_counted, keeps_write_fields. apply _.
Qed.

Lemma SimC_animate_root c b k :
  returns (SimC P root r reg N c b k) animate_root
    (λ _, SimC P root r reg N c b (k + count_events P [EvAnimate root 0])).
Proof.
  apply returns_and; [apply Sim_animate_root|].
  intros st (Hself & (p & Ep & _) & _) Hk. unfold counted in *.
  unfold animate_root, read_fields, the_parameterNode, Sofa_Simulation_animate,
    emit, modify, mbind, prog_bind, gets. rewrite Hself. simpl. rewrite Ep. simpl.
  rewrite count_events_app, Hk. simpl.
  by rewrite (P_animate root (dt (attrs p)) 0).
Qed.

(** One call of [simulationStep] on a running simulation, with what it
    logs. *)
Lemma SimC_simulationStep c k :
  returns (SimC P root r reg N c true k) simulationStep
    (λ _, SimC P root r reg N (if c <? N then c + 1 else c)
            (if c <? N then true else N <? 0)
            (k + count_events P [EvSync ToSofa]
             + (if (c <? N) || (N <? 0) then count_events P [EvAnimate root 0] else 0)
             + count_events P [EvSync ToMRML])).
Proof.
  unfold simulationStep.
  eapply returns_bind.
  { eapply (returns_and _ _ (counted P k) (counted P k)); [apply Sim_gets_sceneUp|].
    by intros st _. }
  intros u. eapply returns_pre; [|intros st [[Hu HS] Hk]; exact (conj Hu (conj HS Hk))].
  apply returns_pure; intros ->. simpl.
  eapply returns_bind.
  { eapply returns_bind; [apply SimC_read_fields|]. intros a.
    apply returns_pure; intros (_ & _ & ->). apply returns_ret. }
  intros stopped. apply returns_pure; intros ->. simpl.
  eapply returns_bind; [apply SimC_sync|]. intros [].
  eapply returns_bind; [apply SimC_read_fields|]. intros a.
  apply returns_pure; intros (HN & Hc & _). rewrite HN, Hc.
  destruct (c <? N) eqn:Elt; simpl.
  - eapply (returns_bind _
              (λ _, SimC P root r reg N (c + 1) true
                      (k + count_events P [EvSync ToSofa]
                       + count_events P [EvAnimate root 0])));
      [|intros []; apply SimC_sync].
    eapply returns_bind; [apply SimC_animate_root|]. intros [].
    apply (SimC_write_fields c true (c + 1) true).
    intros a' ? Hc' ?. simpl. by rewrite Hc'.
  - destruct (N <? 0) eqn:Eneg; simpl.
    + eapply (returns_bind _
                (λ _, SimC P root r reg N c true
                        (k + count_events P [EvSync ToSofa]
                         + count_events P [EvAnimate root 0])));
        [apply SimC_animate_root | intros []; apply SimC_sync].
    + eapply (returns_bind _
                (λ _, SimC P root r reg N c false
                        (k + count_events P [EvSync ToSofa]))).
      * apply (SimC_write_fields c true c false). intros; simpl; auto.
      * intros []. eapply returns_post; [apply SimC_sync|].
        intros ? st H. by rewrite Nat.add_0_r.
Qed.

Lemma SimC_startSimulation c b k :
  returns (SimC P root r reg N c b k) startSimulation
    (λ _, SimC P root r reg N 0 true k).
Proof.
  apply returns_and; [apply Sim_startSimulation|].
  intros st _. apply uncounted_counted, keeps_startSimulation. apply _.
Qed.

(** What one running step logs in [P]. *)
Lemma SimC_steps_bounded n c k st :
  c + Z.of_nat n ≤ N →
  SimC P root r reg N c true k st →
  SimC P root r reg N (c + Z.of_nat n) true
    (k + n * (count_events P [EvSync ToSofa] + count_events P [EvAnimate root 0]
              + count_events P [EvSync ToMRML]))
    (run (steps n) st).
Proof.
  revert c k st. induction n as [|n IH]; intros c k st Hle HS.
  - simpl run. by rewrite Z.add_0_r, Nat.add_0_r.
  - destruct (SimC_simulationStep c k st HS) as ([] & _ & HS').
    assert ((c <? N) = true) as Elt by (apply Z.ltb_lt; lia).
    rewrite Elt in HS'. cbv iota in HS'. rewrite orb_true_l in HS'. cbv iota in HS'.
    change (steps (S n)) with (SimulationStep :: steps n). rewrite run_cons.
    destruct (IH (c + 1) _ _ ltac:(lia) HS') as [H Hk].
    replace (c + Z.of_nat (S n)) with (c + 1 + Z.of_nat n) by lia.
    split; [exact H|]. unfold counted in *. simpl exec. rewrite Hk. nia.
Qed.

Lemma SimC_steps_unbounded n c k st :
  N < 0 → N ≤ c →
  SimC P root r reg N c true k st →
  SimC P root r reg N c true
    (k + n * (count_events P [EvSync ToSofa] + count_events P [EvAnimate root 0]
              + count_events P [EvSync ToMRML]))
    (run (steps n) st).
Proof.
  intros Hneg Hc. revert k st. induction n as [|n IH]; intros k st HS.
  - simpl run. by rewrite Nat.add_0_r.
  - destruct (SimC_simulationStep c k st HS) as ([] & _ & HS').
    assert ((c <? N) = false) as Elt by (apply Z.ltb_ge; lia).
    assert ((N <? 0) = true) as En by (apply Z.ltb_lt; lia).
    rewrite Elt, En in HS'. cbv iota in HS'. rewrite orb_false_l in HS'. cbv iota in HS'.
    change (steps (S n)) with (SimulationStep :: steps n). rewrite run_cons.
    destruct (IH _ _ HS') as [H Hk].
    split; [exact H|]. unfold counted in *. simpl exec. rewrite Hk. nia.
Qed.

(** From startSimulation to the step that stops the simulation. *)
Lemma SimC_bounded_run c b k st :
  0 ≤ N →
  SimC P root r reg N c b k st →
  SimC P root r reg N N false
    (k + Z.to_nat N * (count_events P [EvSync ToSofa] + count_events P [EvAnimate root 0]
                       + count_events P [EvSync ToMRML])
     + count_events P [EvSync ToSofa] + count_events P [EvSync ToMRML])
    (run (StartSimulation :: steps (S (Z.to_nat N))) st).
Proof.
  intros Hpos HS.
  destruct (SimC_startSimulation c b k st HS) as ([] & _ & HS0).
  pose proof (SimC_steps_bounded (Z.to_nat N) 0 k _ ltac:(lia) HS0) as HSn.
  replace (0 + Z.of_nat (Z.to_nat N)) with N in HSn by lia.
  destruct (SimC_simulationStep N _ _ HSn) as ([] & _ & HSn').
  rewrite Z.ltb_irrefl in HSn'.
  assert ((N <? 0) = false) as EN by (apply Z.ltb_ge; lia).
  rewrite EN in HSn'. cbv iota in HSn'. rewrite orb_false_l in HSn'. cbv iota in HSn'.
  rewrite run_cons, steps_S, run_snoc. simpl exec.
  destruct HSn' as [H Hk]. split; [exact H|]. unfold counted in *. rewrite Hk. lia.
Qed.

End Counting.

(** X9.  In the Built state, on a parameter node with totalSteps = N >= 0
    and well-behaved descriptors (their movers return and keep the control
    fields, their named nodes are in the graph): over startSimulation and the
    N + 1 calls of step() up to the automatic stop, the engine is advanced
    exactly N times, while Push and Pull are each made N + 1 times (the call
    that stops the simulation still pushes and pulls). *)
Theorem bounded_run_advances_N_times st r p N :
  Built st → attached st r p → well_behaved st →
  totalSteps (attrs p) = N → 0 ≤ N →
  let st' := run (StartSimulation :: steps (S (Z.to_nat N))) st in
  count_events is_animate (log st')
    = (count_events is_animate (log st) + Z.to_nat N)%nat ∧
  count_events (is_sync ToSofa) (log st')
    = (count_events (is_sync ToSofa) (log st) + S (Z.to_nat N))%nat ∧
  count_events (is_sync ToMRML) (log st')
    = (count_events (is_sync ToMRML) (log st) + S (Z.to_nat N))%nat.
Proof.
  intros HB Hatt Hwb HN Hpos st'.
  destruct (Built_Sim st r p HB Hatt Hwb) as [root HS]. rewrite HN in HS.
  split_and!.
  - destruct (SimC_bounded_run is_animate root r _ N is_animate_blind ltac:(done)
                _ _ _ st Hpos (conj HS eq_refl)) as [_ Hk].
    subst st'. unfold counted in Hk. rewrite Hk. simpl. lia.
  - destruct (SimC_bounded_run (is_sync ToSofa) root r _ N (is_sync_blind _) ltac:(done)
                _ _ _ st Hpos (conj HS eq_refl)) as [_ Hk].
    subst st'. unfold counted in Hk. rewrite Hk. simpl. lia.
  - destruct (SimC_bounded_run (is_sync ToMRML) root r _ N (is_sync_blind _) ltac:(done)
                _ _ _ st Hpos (conj HS eq_refl)) as [_ Hk].
    subst st'. unfold counted in Hk. rewrite Hk. simpl. lia.
Qed.

(** X10.  In the Built state, on a parameter node with a negative totalSteps
    and well-behaved descriptors (their movers return and keep the control
    fields, their named nodes are in the graph): after startSimulation, each
    of any number k of calls of step() makes one Push, advances the engine
    once and makes one Pull; the step counter stays 0 and the running flag
    stays set. *)
Theorem unbounded_run_advances_every_step st r p k :
  Built st → attached st r p → well_behaved st →
  totalSteps (attrs p) < 0 →
  let st' := run (StartSimulation :: steps k) st in
  count_events is_animate (log st') = (count_events is_animate (log st) + k)%nat ∧
  count_events (is_sync ToSofa) (log st')
    = (count_events (is_sync ToSofa) (log st) + k)%nat ∧
  count_events (is_sync ToMRML) (log st')
    = (count_events (is_sync ToMRML) (log st) + k)%nat ∧
  running st' = Some true ∧ step_counter st' = Some 0.
Proof.
  intros HB Hatt Hwb HN st'.
  destruct (Built_Sim st r p HB Hatt Hwb) as [root HS].
  assert (∀ P, driver_blind P → (∀ n z z', P (EvAnimate n z) = P (EvAnimate n z')) →
            SimC P root r (sofa_node_mappers p) (totalSteps (attrs p)) 0 true
              (count_events P (log st)
               + k * (count_events P [EvSync ToSofa] + count_events P [EvAnimate root 0]
                      + count_events P [EvSync ToMRML])) st') as Hall.
  { intros P HP Ha.
    destruct (SimC_startSimulation P root r _ _ _ _ _ st (conj HS eq_refl))
      as ([] & _ & HS0).
    subst st'. rewrite run_cons. simpl exec.
    apply SimC_steps_unbounded; [done | done | lia | lia | done]. }
  split_and!.
  - destruct (Hall is_animate is_animate_blind ltac:(done)) as [_ Hk].
    unfold counted in Hk. rewrite Hk. simpl. lia.
  - destruct (Hall (is_sync ToSofa) (is_sync_blind _) ltac:(done)) as [_ Hk].
    unfold counted in Hk. rewrite Hk. simpl. lia.
  - destruct (Hall (is_sync ToMRML) (is_sync_blind _) ltac:(done)) as [_ Hk].
    unfold counted in Hk. rewrite Hk. simpl. lia.
  - destruct (Hall is_animate is_animate_blind ltac:(done)) as [HS' _].
    apply (Sim_observed _ _ _ _ _ _ _ _ HS').
  - destruct (Hall is_animate is_animate_blind ltac:(done)) as [HS' _].
    apply (Sim_observed _ _ _ _ _ _ _ _ HS').
Qed.


(** ** One iteration of the driver *)

Lemma truthy_PyStr s : truthy (PyStr s) = true ↔ s ≠ "".
Proof.
  simpl. rewrite negb_true_iff. split.
  - intros H ->. by rewrite String.eqb_refl in H.
  - intros H. by apply String.eqb_neq.
Qed.

Lemma resolve_resolves d r root name st n evs :
  _rootNode (self st) = Some root →
  resolves_to d r root name (sofa st) n evs →
  resolve d r name st = (Ok (Some n), set_log (log st ++ evs) st).
Proof.
  intros Hroot [(Hname & -> & ->)|(s & -> & Hs & Hget & ->)];
    unfold resolve; rewrite bind_gets, Hroot.
  - rewrite Hname. rewrite app_nil_r. by destruct st.
  - apply truthy_PyStr in Hs. rewrite Hs.
    unfold mbind, prog_bind, emit, modify, gets. simpl. by rewrite Hget.
Qed.

Lemma sync_body_due d r m f st rp p root n evs :
  mappers st !! r = Some m → mapping d m = Some f →
  (f ∈ run_once_fns st → has_run d m = false) →
  attached st rp p → _rootNode (self st) = Some root →
  resolves_to d r root (nodeName m) (sofa st) n evs →
  let exc := mover_raises f (attrs p) (Some n) (sofa st) in
  sync_body d r st =
    (outcome_of exc,
     finish d r (bool_decide (f ∈ run_once_fns st) && returned exc)
       (set_sofa (call_mover f (attrs p) (Some n) (sofa st)).2
          (set_objs (<[rp := with_attrs (call_mover f (attrs p) (Some n) (sofa st)).1 p]>
                       (objs st))
             (set_log (log st ++ evs ++ [EvMover d r f]) st)))).
Proof.
  intros Em Ef Hdue [Hpn Hp] Hroot Hres exc. subst exc.
  unfold sync_body. rewrite bind_gets, Em, Ef.
  unfold run_once_attr. rewrite bind_gets.
  assert (bool_decide (f ∈ run_once_fns st) && has_run d m = false) as ->.
  { destruct (bool_decide (f ∈ run_once_fns st)) eqn:E; [|done].
    apply bool_decide_eq_true in E. by rewrite Hdue. }
  rewrite (bind_Ok _ _ _ _ _ (resolve_resolves d r root _ st n evs Hroot Hres)).
  unfold invoke, the_parameterNode, emit, modify, mark_has_run, mbind, prog_bind, gets.
  simpl. rewrite Hpn. simpl. rewrite Hp. simpl.
  rewrite <- app_assoc.
  destruct (mover_raises f (attrs p) (Some n) (sofa st)); simpl.
  - by rewrite andb_false_r.
  - rewrite andb_true_r. by destruct (bool_decide (f ∈ run_once_fns st)).
Qed.

(** X11.  One iteration of Push or Pull on a descriptor whose mover is due
    (it is not run-once, or has not run): the node is the root when the
    descriptor has no name or an empty one, and the node of that name
    otherwise; the mover is called once with the parameter node and that
    node; what it has done to the parameter node and to the scene is there
    afterwards, whether it returns or raises; the iteration returns when the
    mover returns and raises the mover's exception otherwise; the has-run
    flag is set when the mover is run-once and has returned, and is left as
    it was otherwise. *)
Theorem due_mover_is_called d r m f st rp p root n evs :
  mappers st !! r = Some m → mapping d m = Some f →
  (f ∈ run_once_fns st → has_run d m = false) →
  attached st rp p → _rootNode (self st) = Some root →
  resolves_to d r root (nodeName m) (sofa st) n evs →
  let res := call_mover f (attrs p) (Some n) (sofa st) in
  let exc := mover_raises f (attrs p) (Some n) (sofa st) in
  let st' := (sync_body d r st).2 in
  (sync_body d r st).1 = match exc with None => Ok tt | Some e => Raise e end ∧
  log st' = log st ++ evs ++ [EvMover d r f] ∧
  objs st' = <[rp := with_attrs res.1 p]> (objs st) ∧
  sofa st' = res.2 ∧
  self st' = self st ∧
  flag d r st' =
    Some (match exc with
          | None => bool_decide (f ∈ run_once_fns st) || has_run d m
          | Some _ => has_run d m
          end).
Proof.
  intros Em Ef Hdue Hatt Hroot Hres res exc st'. subst st' exc.
  rewrite (sync_body_due d r m f st rp p root n evs Em Ef Hdue Hatt Hroot Hres).
  simpl. destruct (mover_raises f (attrs p) (Some n) (sofa st)) as [e|]; simpl.
  - rewrite andb_false_r. simpl. split_and!; try done.
    unfold flag. simpl. by rewrite Em.
  - rewrite andb_true_r.
    destruct (bool_decide (f ∈ run_once_fns st)) eqn:E; simpl.
    + split_and!; try done. unfold flag. simpl. rewrite lookup_alter_eq, Em. simpl.
      rewrite has_run_set_has_run. by destruct d.
    + split_and!; try done. unfold flag. simpl. by rewrite Em.
Qed.


(** ** A node missing from the graph *)

Lemma sync_missing_node d st rp p name r rest m f s root :
  attached st rp p → sofa_node_mappers p = (name, r) :: rest →
  mappers st !! r = Some m → mapping d m = Some f →
  (f ∈ run_once_fns st → has_run d m = false) →
  _rootNode (self st) = Some root →
  nodeName m = PyStr s → s ≠ "" → Node_getitem root s (sofa st) = None →
  sync d st = (Raise (NodeNotFound s), set_log (log st ++ [EvSync d; EvResolve d r s]) st).
Proof.
  intros [Hpn Hp] Hreg Em Ef Hdue Hroot Hname Hs Hget.
  set (st1 := set_log (log st ++ [EvSync d]) st).
  assert (sync_body d r st1
          = (Raise (NodeNotFound s), set_log (log st1 ++ [EvResolve d r s]) st1)) as Eb.
  { unfold sync_body. rewrite bind_gets. simpl. rewrite Em, Ef.
    unfold run_once_attr. rewrite bind_gets. simpl.
    assert (bool_decide (f ∈ run_once_fns st) && has_run d m = false) as ->.
    { destruct (bool_decide (f ∈ run_once_fns st)) eqn:E; [|done].
      apply bool_decide_eq_true in E. by rewrite Hdue. }
    assert (resolve d r (nodeName m) st1
            = (Raise (NodeNotFound s), set_log (log st1 ++ [EvResolve d r s]) st1)) as Er.
    { unfold resolve. rewrite bind_gets. simpl. rewrite Hroot, Hname.
      apply truthy_PyStr in Hs. rewrite Hs.
      unfold mbind, prog_bind, emit, modify, gets. simpl. by rewrite Hget. }
    by rewrite (bind_Raise _ _ _ _ _ Er). }
  unfold sync.
  rewrite (bind_Ok _ _ st tt st1) by done.
  rewrite (bind_Ok _ _ st1 (rp, p) st1)
    by (unfold the_parameterNode; simpl; by rewrite Hpn, Hp).
  simpl. rewrite Hreg. simpl.
  rewrite (bind_Raise _ _ _ _ _ Eb). simpl. by rewrite <- app_assoc.
Qed.

(** X12.  setupScene on a valid container and a Sofa node, when the first
    descriptor of the class has an input mover that is due and names a node
    that the graph under the root does not have: the call raises
    NodeNotFound after one lookup; no mover was called, the engine was not
    initialized and the scene is not up, but the container and the root node
    have been stored in the controller. *)
Theorem setupScene_missing_node st r p n name rm rest m f s :
  _sceneUp (self st) = false →
  objs st !! r = Some p → sofaParameterNodeWrapped (attrs p) = true →
  sofa_node_mappers p = (name, rm) :: rest →
  mappers st !! rm = Some m → inputMapping m = Some f →
  (f ∈ run_once_fns st → inputMapping_has_run m = false) →
  nodeName m = PyStr s → s ≠ "" → Node_getitem n s (sofa st) = None →
  setupScene (PyObj r) (PyNode n) st =
    (Raise (NodeNotFound s),
     set_log (log st ++ [EvSync ToSofa; EvResolve ToSofa rm s])
       (set_self {| _sceneUp := false; _rootNode := Some n; _parameterNode := Some r |} st)).
Proof.
  intros Hup Hp Hw Hreg Em Ef Hdue Hname Hs Hget.
  rewrite (setupScene_unfold _ _ _ Hup).
  rewrite (checkParameterNode_valid st (PyObj r) ltac:(by exists r, p)). simpl.
  set (s3 := set_self _ st).
  by rewrite (sync_missing_node ToSofa s3 r p name rm rest m f s n).
Qed.

(** ** Flags are for run-once movers only *)

#[local] Instance never_marked_preorder d r : PreOrder (never_marked d r).
Proof.
  split; [intros st H; exact H | intros st1 st2 st3 H12 H23 H; by apply H23, H12].
Qed.

Lemma never_marked_same d r st st' :
  mappers st' = mappers st → run_once_fns st' = run_once_fns st →
  never_marked d r st st'.
Proof.
  intros Em Ef. unfold never_marked, flag, run_once_mover. by rewrite Em, Ef.
Qed.

#[local] Instance never_marked_framed d r : Framed (never_marked d r).
Proof. split; [apply _ | intros; by apply never_marked_same ..]. Qed.

Lemma never_marked_quiet d r e : quiet (never_marked d r) e.
Proof. intros st. by apply never_marked_same. Qed.

Lemma never_marked_sync_body d r d' r' : keeps (never_marked d r) (sync_body d' r').
Proof.
  intros st.
  destruct (sync_body_shape d' r' st)
    as [->|(m & f & evs & Em & Ef & _ & _ & [->|(o & sc & b & -> & Eonce & _)])];
    [reflexivity | by apply never_marked_same |].
  destruct b; [|by apply never_marked_same].
  specialize (Eonce eq_refl).
  intros [Hflag Hnot]. unfold flag, run_once_mover in *. simpl.
  destruct (decide (r' = r)) as [->|Hne].
  - rewrite lookup_alter_eq, Em in *. simpl in *.
    rewrite has_run_set_has_run.
    destruct (same_dir d d') eqn:Ed.
    + apply same_dir_eq in Ed as <-. exfalso. apply Hnot. by exists m, f.
    + split; [done|]. intros (m0 & f0 & [= <-] & Ef0 & Hin0).
      rewrite mapping_set_has_run in Ef0. apply Hnot. by exists m, f0.
  - by rewrite lookup_alter_ne.
Qed.

(** X13.  The has-run flag of a direction is set for run-once movers only:
    when the flag of a descriptor is clear and the descriptor has no mover in
    that direction, or one that is not run-once, the flag is still clear after
    any sequence of calls on the controller. *)
Theorem has_run_only_for_run_once d r m cs st :
  mappers st !! r = Some m → has_run d m = false →
  (∀ f, mapping d m = Some f → f ∉ run_once_fns st) →
  flag d r (run cs st) = Some false.
Proof.
  intros Em Hflag Hnot.
  assert (never_marked d r st (run cs st)) as H.
  { apply keeps_run; try apply _; try (intros; apply never_marked_quiet).
    intros d' r'. apply never_marked_sync_body. }
  apply H. split.
  - unfold flag. by rewrite Em; simpl; rewrite Hflag.
  - intros (m0 & f & Em0 & Ef & Hin). assert (m0 = m) as -> by congruence.
    by apply (Hnot f).
Qed.


(** ** Movers that run on every Push or Pull *)

Lemma uncounted_sync_body_other d rm d' r' :
  same_dir d d' && Nat.eqb rm r' = false →
  keeps (uncounted (is_mover d rm)) (sync_body d' r').
Proof.
  intros Hne st. unfold uncounted.
  destruct (sync_body_shape d' r' st)
    as [->|(m & f & evs & _ & _ & _ & He & [->|(o & sc & b & -> & _)])]; [done | |].
  - simpl. rewrite count_events_app, (count_resolve_evs d rm d' r' evs He). lia.
  - assert (∀ b s, log (finish d' r' b s) = log s) as -> by (by intros []).
    simpl. rewrite !count_events_app, (count_resolve_evs d rm d' r' evs He).
    simpl. rewrite Hne. lia.
Qed.

Lemma resolvable_resolves_to d r root name sc :
  resolvable root name → ∃ n evs, resolves_to d r root name sc n evs.
Proof.
  intros [Hname|(s & -> & Hs)].
  - exists root, []. by left.
  - destruct (decide (s = "")) as [->|Hne].
    + exists root, []. by left.
    + destruct (Hs sc) as [n Hn]. exists n, [EvResolve d r s]. right. by exists s.
Qed.

Lemma every_step_mover_evolves d r f st st' :
  evolves st st' → every_step_mover d r f st → every_step_mover d r f st'.
Proof.
  intros [Hf Hev] (m & Em & Ef & Hnot). specialize (Hev r). rewrite Em in Hev.
  destruct Hev as (m' & Em' & _ & _ & Hi & Ho & _).
  exists m'. rewrite Hf. split_and!; [done | | done].
  destruct d; simpl in *; congruence.
Qed.

Section EveryStep.
Context (up : bool) (root : node) (r : loc) (reg : list (string * loc)) (N c : Z) (b : bool).
Context (d : direction) (rm : loc) (f : fun_id).

Lemma every_step_sync_body k name r' :
  (name, r') ∈ reg →
  returns (λ st, Sim up root r reg N c b st ∧
                 counted (is_mover d rm) k st ∧ every_step_mover d rm f st)
    (sync_body d r')
    (λ _ st, Sim up root r reg N c b st ∧
             counted (is_mover d rm) (k + (if Nat.eqb rm r' then 1 else 0)) st ∧
             every_step_mover d rm f st).
Proof.
  intros Hin st (HS & Hk & HJ).
  destruct (Sim_sync_body up root r reg N c b d name r' Hin st HS) as ([] & E & HS').
  exists tt. split; [done|]. split; [done|].
  split; [|by eapply every_step_mover_evolves; [apply evolves_sync_body|]].
  unfold counted in *.
  destruct (Nat.eqb rm r') eqn:Er.
  - apply Nat.eqb_eq in Er as <-.
    destruct HJ as (m & Em & Ef & Hnot).
    pose proof HS as (Hself & (p & Ep & _) & Hok).
    rewrite Forall_forall in Hok. destruct (Hok _ Hin) as (m' & Em' & Hm').
    simpl in Em'. assert (m' = m) as -> by congruence.
    destruct (Hm' d f Ef) as (Hret & _ & Hres).
    destruct (resolvable_resolves_to d rm root (nodeName m) (sofa st) Hres)
      as (n & evs & Hto).
    rewrite (sync_body_due d rm m f st r p root n evs Em Ef); try done.
    + assert (count_events (is_mover d rm) evs = O) as Hevs.
      { by destruct Hto as [(_ & _ & ->)|(s & _ & _ & _ & ->)]. }
      rewrite Hret. simpl.
      destruct (bool_decide (f ∈ run_once_fns st)); simpl;
        rewrite !count_events_app, Hk, Hevs; simpl; rewrite Nat.eqb_refl;
        destruct d; simpl; lia.
    + split; [by rewrite Hself | done].
    + by rewrite Hself.
  - assert (same_dir d d && Nat.eqb rm r' = false) as Hne
      by (rewrite Er; apply andb_false_r).
    rewrite (uncounted_sync_body_other d rm d r' Hne st), Hk. lia.
Qed.

Lemma every_step_for_each k (items : list (string * loc)) :
  (∀ e, e ∈ items → e ∈ reg) →
  returns (λ st, Sim up root r reg N c b st ∧
                 counted (is_mover d rm) k st ∧ every_step_mover d rm f st)
    (for_each items (sync_body d))
    (λ _ st, Sim up root r reg N c b st ∧
             counted (is_mover d rm) (k + entries_of rm items) st ∧
             every_step_mover d rm f st).
Proof.
  revert k. induction items as [|[name r'] rest IH]; intros k Hsub; simpl.
  - intros st H. exists tt. split; [done|]. by rewrite Nat.add_0_r.
  - eapply returns_bind.
    + apply (every_step_sync_body k name r'). apply Hsub. left.
    + intros []. eapply returns_post.
      * apply IH. intros e He. apply Hsub. by right.
      * intros ? st (HS & Hk & HJ). split_and!; [done | | done].
        unfold counted in *. rewrite Hk. lia.
Qed.

End EveryStep.

(** X14.  A Push (resp. Pull) on a controller that holds a root node and a
    parameter node with well-behaved descriptors (their movers return and
    keep the control fields, their named nodes are in the graph) returns, and
    it calls the mover of a descriptor that is not run-once once for every
    registry entry that holds the descriptor: once per Push for a descriptor
    bound to one field. *)
Theorem every_push_calls_mover d st root r p rm m f :
  _rootNode (self st) = Some root → attached st r p → well_behaved st →
  mappers st !! rm = Some m → mapping d m = Some f → f ∉ run_once_fns st →
  (sync d st).1 = Ok tt ∧
  count_events (is_mover d rm) (log (sync d st).2)
    = (count_events (is_mover d rm) (log st) + entries_of rm (sofa_node_mappers p))%nat.
Proof.
  intros Hroot Hatt Hwb Em Ef Hnot.
  pose proof (Hwb root r p Hroot Hatt) as Hok. destruct Hatt as [Hpn Hp].
  set (st1 := set_log (log st ++ [EvSync d]) st).
  assert (Sim (_sceneUp (self st)) root r (sofa_node_mappers p) (totalSteps (attrs p))
            (currentStep (attrs p)) (isSimulationRunning (attrs p)) st1) as HS.
  { split_and!.
    - subst st1. simpl. destruct (self st) as [u ro pn]. simpl in *. congruence.
    - by exists p.
    - eapply Forall_entry_ok; [|done]. by apply evolves_same. }
  assert (counted (is_mover d rm) (count_events (is_mover d rm) (log st)) st1) as Hk.
  { unfold counted. simpl. rewrite count_events_app. simpl. lia. }
  assert (every_step_mover d rm f st1) as HJ by (by exists m).
  destruct (every_step_for_each _ root r _ _ _ _ d rm f _ (sofa_node_mappers p)
              ltac:(done) st1 (conj HS (conj Hk HJ))) as ([] & E & _ & Hk' & _).
  unfold sync.
  rewrite (bind_Ok _ _ st tt st1) by done.
  rewrite (bind_Ok _ _ st1 (r, p) st1)
    by (unfold the_parameterNode; simpl; by rewrite Hpn, Hp).
  simpl. split; [done|]. exact Hk'.
Qed.


(** * Properties of the class decorator *)

(** ** Dicts *)

Lemma dict_get_set_eq {V} k (v : V) dc : dict_get k (dict_set k v dc) = Some v.
Proof.
  induction dc as [|[k' w] dc IH]; simpl.
  - by rewrite String.eqb_refl.
  - destruct (String.eqb k' k) eqn:E; simpl; rewrite E; [done | exact IH].
Qed.

Lemma dict_get_set_ne {V} k k' (v : V) dc :
  k ≠ k' → dict_get k' (dict_set k v dc) = dict_get k' dc.
Proof.
  intros Hne. induction dc as [|[k0 w] dc IH]; simpl.
  - by apply String.eqb_neq in Hne as ->.
  - destruct (String.eqb k0 k) eqn:E; simpl.
    + apply String.eqb_eq in E as ->. by apply String.eqb_neq in Hne as ->.
    + by rewrite IH.
Qed.

Lemma dict_get_None {V} k (dc : list (string * V)) : dict_get k dc = None ↔ k ∉ dc.*1.
Proof.
  induction dc as [|[k' w] dc IH]; simpl.
  - split; [intros _; apply not_elem_of_nil | done].
  - rewrite not_elem_of_cons. destruct (String.eqb k' k) eqn:E.
    + apply String.eqb_eq in E as ->. split; [done | by intros [? _]].
    + apply String.eqb_neq in E. rewrite IH. split; [by intros ? | by intros [_ ?]].
Qed.

Lemma dict_set_absent {V} k (v : V) dc :
  dict_get k dc = None → dict_set k v dc = dc ++ [(k, v)].
Proof.
  induction dc as [|[k' w] dc IH]; simpl; [done|].
  destruct (String.eqb k' k); [done|]. intros H. by rewrite IH.
Qed.

Lemma dict_set_same {V} k (v : V) dc : dict_get k dc = Some v → dict_set k v dc = dc.
Proof.
  induction dc as [|[k' w] dc IH]; simpl; [done|].
  destruct (String.eqb k' k); [by intros [= ->]|]. intros H. by rewrite IH.
Qed.

Lemma dict_set_keys {V} k (v w : V) dc :
  dict_get k dc = Some w → (dict_set k v dc).*1 = dc.*1.
Proof.
  induction dc as [|[k' w'] dc IH]; [done|]. cbn [dict_get dict_set].
  destruct (String.eqb k' k); [done|]. intros H. rewrite !fmap_cons.
  f_equal. by apply IH.
Qed.

Lemma dict_set_NoDup {V} k (v : V) dc : NoDup dc.*1 → NoDup (dict_set k v dc).*1.
Proof.
  intros Hnd. destruct (dict_get k dc) as [w|] eqn:E.
  - by rewrite (dict_set_keys k v w dc E).
  - rewrite (dict_set_absent k v dc E), fmap_app. apply NoDup_app. split_and!.
    + done.
    + intros x Hx Hk. apply list_elem_of_singleton in Hk as ->.
      by apply dict_get_None in E.
    + apply NoDup_singleton.
Qed.

(** ** What a class shows *)

Lemma getattr_cls_spec cls var st :
  match shown st cls var with
  | Some v => getattr_cls cls var st = (Ok v, st)
  | None => ∃ msg, getattr_cls cls var st = (Raise (AttributeError msg), st)
  end.
Proof.
  unfold shown, getattr_cls.
  destruct (dict_get var (cls_dict cls)) as [v|]; [|by eexists].
  destruct v; try done.
  rewrite bind_gets. destruct (mappers st !! r) as [m|]; simpl; [|by eexists].
  unfold SofaNodeMapper_get. destruct (value m); simpl; [done | by eexists].
Qed.

Lemma hasattr_cls_spec cls var st :
  hasattr_cls cls var st =
    (Ok (match shown st cls var with Some _ => true | None => false end), st).
Proof.
  unfold hasattr_cls. pose proof (getattr_cls_spec cls var st) as H.
  destruct (shown st cls var) as [v|]; [by rewrite H|].
  destruct H as [msg ->]. done.
Qed.

Lemma checkAndCreate_spec cls var t dv st :
  __checkAndCreate__ cls var t dv st =
  if declared_ok st var t cls then (Ok (ensure st var t dv cls), st)
  else (Raise (TypeError ("sofaParameterNodeWrapper: " ++ var ++ " has the wrong type")%string),
        st).
Proof.
  unfold __checkAndCreate__, declared_ok, ensure.
  rewrite (bind_Ok _ _ _ _ _ (hasattr_cls_spec cls var st)).
  pose proof (getattr_cls_spec cls var st) as H.
  destruct (shown st cls var) as [v|]; [|done].
  rewrite (bind_Ok _ _ _ _ _ H). by destruct (isinstance v t).
Qed.

Lemma isinstance_PyStr s t : isinstance (PyStr s) t = false.
Proof. by destruct t. Qed.

Lemma shown_ensure_ne st var var' t dv cls :
  var ≠ var' → shown st (ensure st var t dv cls) var' = shown st cls var'.
Proof.
  intros Hne. unfold ensure. destruct (shown st cls var); [done|].
  unfold shown. simpl. by rewrite dict_get_set_ne.
Qed.

Lemma declared_ok_ensure st var t var' t' dv cls :
  var' ≠ var → declared_ok st var t (ensure st var' t' dv cls) = declared_ok st var t cls.
Proof. intros Hne. unfold declared_ok. by rewrite shown_ensure_ne. Qed.

Lemma well_typed_iff st cls :
  well_typed st cls ↔
  declared_ok st "dt" Tfloat cls = true ∧ declared_ok st "totalSteps" Tint cls = true ∧
  declared_ok st "currentStep" Tint cls = true ∧
  declared_ok st "isSimulationRunning" Tbool cls = true ∧
  declared_ok st "sofaParameterNodeWrapped" Tbool cls = true.
Proof.
  split.
  - intros H. split_and!; apply H; unfold control_types; set_solver.
  - intros (H1 & H2 & H3 & H4 & H5) var t Hin.
    unfold control_types in Hin.
    repeat (apply elem_of_cons in Hin as [[= -> ->]|Hin]; [done|]).
    by apply elem_of_nil in Hin.
Qed.

(** Lines 99-114: what the decorator does once the control attributes are
    there. *)
Local Notation register_and_wrap cls :=
  (sofa_node_mappers ← scan_mappers cls (cls_dict cls) [];
   wrapped ← lift (parameterNodeWrapper cls);
   wrapped ← lift (dataclass wrapped);
   mret {| wrapped_class := wrapped; cls_sofa_node_mappers := sofa_node_mappers |}).

(** The checks of lines 93-97 either all pass, and leave the state as it is
    and the class with its defaults, or one of them raises TypeError. *)
Lemma wrapper_checks cls st :
  (well_typed st cls ∧
   sofaParameterNodeWrapper cls st = (register_and_wrap (with_controls st cls)) st) ∨
  (¬ well_typed st cls ∧
   ∃ msg, sofaParameterNodeWrapper cls st = (Raise (TypeError msg), st)).
Proof.
  rewrite well_typed_iff. unfold sofaParameterNodeWrapper, with_controls.
  pose proof (checkAndCreate_spec cls "dt" Tfloat (PyFloat float_0_01) st) as H1.
  destruct (declared_ok st "dt" Tfloat cls);
    [|right; split; [by intros (?&_) | eexists; by rewrite (bind_Raise _ _ _ _ _ H1)]].
  rewrite (bind_Ok _ _ _ _ _ H1). clear H1.
  set (c1 := ensure st "dt" Tfloat (PyFloat float_0_01) cls).
  pose proof (checkAndCreate_spec c1 "totalSteps" Tint (PyInt (-1)) st) as H2.
  subst c1. rewrite declared_ok_ensure in H2 by done.
  destruct (declared_ok st "totalSteps" Tint cls);
    [|right; split; [by intros (_&?&_) | eexists; by rewrite (bind_Raise _ _ _ _ _ H2)]].
  rewrite (bind_Ok _ _ _ _ _ H2). clear H2.
  set (c2 := ensure st "totalSteps" Tint (PyInt (-1)) _).
  pose proof (checkAndCreate_spec c2 "currentStep" Tint (PyInt 0) st) as H3.
  subst c2. rewrite !declared_ok_ensure in H3 by done.
  destruct (declared_ok st "currentStep" Tint cls);
    [|right; split; [by intros (_&_&?&_) | eexists; by rewrite (bind_Raise _ _ _ _ _ H3)]].
  rewrite (bind_Ok _ _ _ _ _ H3). clear H3.
  set (c3 := ensure st "currentStep" Tint (PyInt 0) _).
  pose proof (checkAndCreate_spec c3 "isSimulationRunning" Tbool (PyBool false) st) as H4.
  subst c3. rewrite !declared_ok_ensure in H4 by done.
  destruct (declared_ok st "isSimulationRunning" Tbool cls);
    [|right; split; [by intros (_&_&_&?&_) | eexists; by rewrite (bind_Raise _ _ _ _ _ H4)]].
  rewrite (bind_Ok _ _ _ _ _ H4). clear H4.
  set (c4 := ensure st "isSimulationRunning" Tbool (PyBool false) _).
  pose proof (checkAndCreate_spec c4 "sofaParameterNodeWrapped" Tbool (PyBool true) st) as H5.
  subst c4. rewrite !declared_ok_ensure in H5 by done.
  destruct (declared_ok st "sofaParameterNodeWrapped" Tbool cls);
    [|right; split; [by intros (_&_&_&_&?) | eexists; by rewrite (bind_Raise _ _ _ _ _ H5)]].
  rewrite (bind_Ok _ _ _ _ _ H5). clear H5.
  left. done.
Qed.

(** ** The descriptor fields of a class *)

Lemma mapper_fields_app ns ns' :
  mapper_fields (ns ++ ns') = mapper_fields ns ++ mapper_fields ns'.
Proof.
  induction ns as [|[k v] ns IH]; simpl; [done|].
  destruct v; simpl; by rewrite ?IH.
Qed.

Lemma mapper_fields_elem name r ns :
  (name, r) ∈ mapper_fields ns ↔ (name, PyMapper r) ∈ ns.
Proof.
  induction ns as [|[k v] ns IH]; simpl.
  - split; intros H; by apply elem_of_nil in H.
  - destruct v; rewrite ?elem_of_cons, IH; try (split; [by right | by intros [[= _ ?]|]]).
    split; (intros [[= -> ->]|]; [by left | by right]).
Qed.

Lemma mapper_fields_keys ns k : k ∈ (mapper_fields ns).*1 → k ∈ ns.*1.
Proof.
  intros (e & -> & He)%list_elem_of_fmap. destruct e as [name r].
  apply mapper_fields_elem in He. apply list_elem_of_fmap.
  by exists (name, PyMapper r).
Qed.

Lemma mapper_fields_NoDup ns : NoDup ns.*1 → NoDup (mapper_fields ns).*1.
Proof.
  induction ns as [|[k v] ns IH]; csimpl; [done|].
  rewrite ?fmap_cons, NoDup_cons. intros [Hk Hnd].
  destruct v; csimpl; try by apply IH.
  apply NoDup_cons. split; [|by apply IH].
  intros Hin. by apply Hk, mapper_fields_keys.
Qed.

Lemma mapper_fields_filter_sublist (Q : string * pyval → bool) ns :
  mapper_fields (List.filter Q ns) `sublist_of` mapper_fields ns.
Proof.
  induction ns as [|[k v] ns IH]; simpl; [done|].
  destruct (Q (k, v)); destruct v; simpl; try done; by constructor.
Qed.

Lemma filter_no_key (Q : string → bool) var (ns : namespace) :
  var ∉ ns.*1 →
  List.filter (λ e, Q e.1 && negb (String.eqb e.1 var)) ns = List.filter (λ e, Q e.1) ns.
Proof.
  induction ns as [|[k w] ns IH]; csimpl; [done|].
  rewrite ?fmap_cons, not_elem_of_cons. intros [Hne Hd].
  assert (String.eqb k var = false) as -> by (apply String.eqb_neq; congruence).
  rewrite andb_true_r. by rewrite IH.
Qed.

(** Binding a name to a value that is not a descriptor removes the name from
    the descriptor fields. *)
Lemma mapper_fields_filter_set (Q : string → bool) var dv (ns : namespace) :
  NoDup ns.*1 → is_mapper dv = false →
  mapper_fields (List.filter (λ e, Q e.1) (dict_set var dv ns)) =
  mapper_fields (List.filter (λ e, Q e.1 && negb (String.eqb e.1 var)) ns).
Proof.
  intros Hnd Hdv. induction ns as [|[k w] ns IH]; csimpl.
  - destruct (Q var); [|done]. simpl. by destruct dv.
  - rewrite ?fmap_cons in Hnd. apply NoDup_cons in Hnd as [Hk Hnd].
    destruct (String.eqb k var) eqn:E; simpl.
    + apply String.eqb_eq in E as ->. rewrite andb_false_r.
      rewrite (filter_no_key Q var ns Hk).
      destruct (Q var); [|done]. simpl. by destruct dv.
    + rewrite andb_true_r.
      destruct (Q k); simpl; [|by apply IH].
      destruct w; simpl; rewrite ?IH; done.
Qed.

Lemma filter_ext_eq {A} (P P' : A → bool) (l : list A) :
  (∀ x, P x = P' x) → List.filter P l = List.filter P' l.
Proof.
  intros H. induction l as [|x l IH]; simpl; [done|]. by rewrite H, IH.
Qed.

Lemma filter_true {A} (l : list A) : List.filter (λ _, true) l = l.
Proof. induction l as [|x l IH]; simpl; [done|]. by rewrite IH. Qed.

(** A check that passes binds the control name to a value that is not a
    descriptor. *)
Lemma ensure_dict st var t dv cls :
  declared_ok st var t cls = true → is_mapper dv = false →
  ∃ v, is_mapper v = false ∧
       cls_dict (ensure st var t dv cls) = dict_set var v (cls_dict cls) ∧
       dict_get var (cls_dict (ensure st var t dv cls)) =
         Some (default dv (shown st cls var)).
Proof.
  unfold declared_ok, ensure, shown. intros Hok Hdv.
  destruct (dict_get var (cls_dict cls)) as [v|] eqn:E.
  - destruct v;
      try (eexists; split_and!;
           [|symmetry; by apply dict_set_same|by rewrite E]; done).
    destruct (mappers st !! r) as [m|]; simpl in *.
    + destruct (value m) as [s|]; simpl in *.
      * by rewrite isinstance_PyStr in Hok.
      * exists dv. split_and!; [done | done | apply dict_get_set_eq].
    + exists dv. split_and!; [done | done | apply dict_get_set_eq].
  - exists dv. split_and!; [done | done |]. simpl. apply dict_get_set_eq.
Qed.

Lemma is_control_eq k :
  true && negb (String.eqb k "sofaParameterNodeWrapped")
    && negb (String.eqb k "isSimulationRunning") && negb (String.eqb k "currentStep")
    && negb (String.eqb k "totalSteps") && negb (String.eqb k "dt")
  = negb (is_control k).
Proof.
  unfold is_control, control_types. cbn [dict_get].
  rewrite !(String.eqb_sym k).
  destruct (String.eqb "dt" k); [by rewrite !andb_false_r|].
  destruct (String.eqb "totalSteps" k); [by rewrite !andb_false_r|].
  destruct (String.eqb "currentStep" k); [by rewrite !andb_false_r|].
  destruct (String.eqb "isSimulationRunning" k); [by rewrite !andb_false_r|].
  by destruct (String.eqb "sofaParameterNodeWrapped" k).
Qed.

(** The class with its defaults: its namespace still has distinct names, its
    descriptor fields are those of the class that are not under a control
    name, and each name is bound as the class showed it, or to its default. *)
Lemma with_controls_spec st cls :
  well_typed st cls → NoDup (cls_dict cls).*1 →
  NoDup (cls_dict (with_controls st cls)).*1 ∧
  mapper_fields (cls_dict (with_controls st cls)) =
    mapper_fields (own_fields (cls_dict cls)).
Proof.
  intros (H1 & H2 & H3 & H4 & H5)%well_typed_iff Hnd. unfold with_controls.
  set (c1 := ensure st "dt" Tfloat (PyFloat float_0_01) cls).
  set (c2 := ensure st "totalSteps" Tint (PyInt (-1)) c1).
  set (c3 := ensure st "currentStep" Tint (PyInt 0) c2).
  set (c4 := ensure st "isSimulationRunning" Tbool (PyBool false) c3).
  destruct (ensure_dict st "dt" Tfloat (PyFloat float_0_01) cls H1 eq_refl)
    as (v1 & M1 & D1 & _). fold c1 in D1.
  destruct (ensure_dict st "totalSteps" Tint (PyInt (-1)) c1) as (v2 & M2 & D2 & _);
    [by subst c1; rewrite declared_ok_ensure | done |]. fold c2 in D2.
  destruct (ensure_dict st "currentStep" Tint (PyInt 0) c2) as (v3 & M3 & D3 & _);
    [by subst c2 c1; rewrite !declared_ok_ensure | done |]. fold c3 in D3.
  destruct (ensure_dict st "isSimulationRunning" Tbool (PyBool false) c3)
    as (v4 & M4 & D4 & _);
    [by subst c3 c2 c1; rewrite !declared_ok_ensure | done |]. fold c4 in D4.
  destruct (ensure_dict st "sofaParameterNodeWrapped" Tbool (PyBool true) c4)
    as (v5 & M5 & D5 & _);
    [by subst c4 c3 c2 c1; rewrite !declared_ok_ensure | done |].
  assert (NoDup (cls_dict c1).*1) as N1 by (rewrite D1; by apply dict_set_NoDup).
  assert (NoDup (cls_dict c2).*1) as N2 by (rewrite D2; by apply dict_set_NoDup).
  assert (NoDup (cls_dict c3).*1) as N3 by (rewrite D3; by apply dict_set_NoDup).
  assert (NoDup (cls_dict c4).*1) as N4 by (rewrite D4; by apply dict_set_NoDup).
  split; [rewrite D5; by apply dict_set_NoDup|].
  rewrite D5, <- (filter_true (dict_set _ v5 _)).
  etrans; [apply (mapper_fields_filter_set (λ _, true)); done|]. rewrite D4.
  etrans; [apply (mapper_fields_filter_set
                    (λ k, true && negb (String.eqb k "sofaParameterNodeWrapped"))); done|].
  rewrite D3.
  etrans; [apply (mapper_fields_filter_set
                    (λ k, true && negb (String.eqb k "sofaParameterNodeWrapped")
                          && negb (String.eqb k "isSimulationRunning"))); done|].
  rewrite D2.
  etrans; [apply (mapper_fields_filter_set
                    (λ k, true && negb (String.eqb k "sofaParameterNodeWrapped")
                          && negb (String.eqb k "isSimulationRunning")
                          && negb (String.eqb k "currentStep"))); done|].
  rewrite D1.
  etrans; [apply (mapper_fields_filter_set
                    (λ k, true && negb (String.eqb k "sofaParameterNodeWrapped")
                          && negb (String.eqb k "isSimulationRunning")
                          && negb (String.eqb k "currentStep")
                          && negb (String.eqb k "totalSteps"))); done|].
  unfold own_fields. f_equal. apply filter_ext_eq. intros [k v]. apply is_control_eq.
Qed.

Lemma with_controls_lookup st cls var :
  well_typed st cls →
  dict_get var (cls_dict (with_controls st cls)) =
  if is_control var then
    match shown st cls var with
    | Some v => Some v
    | None => dict_get var control_defaults
    end
  else dict_get var (cls_dict cls).
Proof.
  intros (H1 & H2 & H3 & H4 & H5)%well_typed_iff. unfold with_controls.
  set (c1 := ensure st "dt" Tfloat (PyFloat float_0_01) cls).
  set (c2 := ensure st "totalSteps" Tint (PyInt (-1)) c1).
  set (c3 := ensure st "currentStep" Tint (PyInt 0) c2).
  set (c4 := ensure st "isSimulationRunning" Tbool (PyBool false) c3).
  destruct (ensure_dict st "dt" Tfloat (PyFloat float_0_01) cls H1 eq_refl)
    as (v1 & M1 & D1 & G1). fold c1 in D1, G1.
  destruct (ensure_dict st "totalSteps" Tint (PyInt (-1)) c1) as (v2 & M2 & D2 & G2);
    [by subst c1; rewrite declared_ok_ensure | done |]. fold c2 in D2, G2.
  destruct (ensure_dict st "currentStep" Tint (PyInt 0) c2) as (v3 & M3 & D3 & G3);
    [by subst c2 c1; rewrite !declared_ok_ensure | done |]. fold c3 in D3, G3.
  destruct (ensure_dict st "isSimulationRunning" Tbool (PyBool false) c3)
    as (v4 & M4 & D4 & G4);
    [by subst c3 c2 c1; rewrite !declared_ok_ensure | done |]. fold c4 in D4, G4.
  destruct (ensure_dict st "sofaParameterNodeWrapped" Tbool (PyBool true) c4)
    as (v5 & M5 & D5 & G5);
    [by subst c4 c3 c2 c1; rewrite !declared_ok_ensure | done |].
  assert (shown st c1 "totalSteps" = shown st cls "totalSteps") as S2
    by (subst c1; by rewrite shown_ensure_ne).
  assert (shown st c2 "currentStep" = shown st cls "currentStep") as S3
    by (subst c2 c1; by rewrite !shown_ensure_ne).
  assert (shown st c3 "isSimulationRunning" = shown st cls "isSimulationRunning") as S4
    by (subst c3 c2 c1; by rewrite !shown_ensure_ne).
  assert (shown st c4 "sofaParameterNodeWrapped" = shown st cls "sofaParameterNodeWrapped")
    as S5 by (subst c4 c3 c2 c1; by rewrite !shown_ensure_ne).
  rewrite S2 in G2. rewrite S3 in G3. rewrite S4 in G4. rewrite S5 in G5.
  unfold is_control, control_types, control_defaults. cbn [dict_get].
  destruct (String.eqb "dt" var) eqn:E1.
  { apply String.eqb_eq in E1 as <-.
    rewrite D5, dict_get_set_ne, D4, dict_get_set_ne, D3, dict_get_set_ne,
      D2, dict_get_set_ne, G1 by done.
    by destruct (shown st cls "dt"). }
  destruct (String.eqb "totalSteps" var) eqn:E2.
  { apply String.eqb_eq in E2 as <-.
    rewrite D5, dict_get_set_ne, D4, dict_get_set_ne, D3, dict_get_set_ne, G2 by done.
    by destruct (shown st cls "totalSteps"). }
  destruct (String.eqb "currentStep" var) eqn:E3.
  { apply String.eqb_eq in E3 as <-.
    rewrite D5, dict_get_set_ne, D4, dict_get_set_ne, G3 by done.
    by destruct (shown st cls "currentStep"). }
  destruct (String.eqb "isSimulationRunning" var) eqn:E4.
  { apply String.eqb_eq in E4 as <-.
    rewrite D5, dict_get_set_ne, G4 by done.
    by destruct (shown st cls "isSimulationRunning"). }
  destruct (String.eqb "sofaParameterNodeWrapped" var) eqn:E5.
  { apply String.eqb_eq in E5 as <-. rewrite G5.
    by destruct (shown st cls "sofaParameterNodeWrapped"). }
  apply String.eqb_neq in E1, E2, E3, E4, E5.
  by rewrite D5, dict_get_set_ne, D4, dict_get_set_ne, D3, dict_get_set_ne,
    D2, dict_get_set_ne, D1, dict_get_set_ne by done.
Qed.

(** ** The scan of the descriptor fields *)

Lemma registry_fold (l acc : list (string * loc)) :
  NoDup (acc ++ l).*1 → foldl (λ a e, dict_set e.1 e.2 a) acc l = acc ++ l.
Proof.
  revert acc. induction l as [|[k r] l IH]; intros acc Hnd; simpl.
  - by rewrite app_nil_r.
  - rewrite dict_set_absent.
    + rewrite IH; by rewrite <- app_assoc.
    + apply dict_get_None. rewrite fmap_app in Hnd.
      apply NoDup_app in Hnd as (_ & Hd & _).
      intros Hin. apply (Hd k Hin). rewrite fmap_cons. left.
Qed.

Lemma set_type_same m : set_type (type m) m = m.
Proof. by destruct m. Qed.

Lemma retyped_refl L st : retyped L st st.
Proof.
  split_and!; try done. intros r. split; [done|].
  destruct (mappers st !! r) as [m|]; [|done].
  exists (type m). by rewrite set_type_same.
Qed.

Lemma retyped_trans L st1 st2 st3 :
  retyped L st1 st2 → retyped L st2 st3 → retyped L st1 st3.
Proof.
  intros (a1&a2&a3&a4&a5&H12) (b1&b2&b3&b4&b5&H23). split_and!; try congruence.
  intros r. destruct (H12 r) as [U12 T12], (H23 r) as [U23 T23]. split.
  - intros Hr. by rewrite U23, U12.
  - destruct (mappers st1 !! r) as [m|].
    + destruct T12 as [t E]. rewrite E in T23. destruct T23 as [t' E'].
      exists t'. by rewrite E'.
    + by rewrite T12 in T23.
Qed.

Lemma retyped_mono (L L' : list loc) st st' :
  (∀ r, r ∈ L → r ∈ L') → retyped L st st' → retyped L' st st'.
Proof.
  intros Hsub (a1&a2&a3&a4&a5&H). split_and!; try done.
  intros r. destruct (H r) as [U T]. split; [|done].
  intros Hr. apply U. intros Hin. by apply Hr, Hsub.
Qed.

Lemma retyped_infer r t st :
  retyped [r] st (set_mappers (alter (set_type t) r (mappers st)) st).
Proof.
  split_and!; try done. intros r'. simpl. split.
  - intros Hr. rewrite lookup_alter_ne; [done|]. intros ->. apply Hr. left.
  - destruct (decide (r = r')) as [->|Hne].
    + rewrite lookup_alter_eq. destruct (mappers st !! r') as [m|]; simpl; [by exists t | done].
    + rewrite lookup_alter_ne by done.
      destruct (mappers st !! r') as [m|]; [|done].
      exists (type m). by rewrite set_type_same.
Qed.

Lemma lift_inv {A} (o : outcome A) st a st' :
  lift o st = (Ok a, st') → o = Ok a ∧ st' = st.
Proof. destruct o; simpl; [by intros [= <- <-] | done]. Qed.

Lemma scan_mappers_Ok cls items acc st reg st' :
  scan_mappers cls items acc st = (Ok reg, st') →
  reg = foldl (λ a e, dict_set e.1 e.2 a) acc (mapper_fields items) ∧
  retyped (mapper_fields items).*2 st st'.
Proof.
  revert acc st. induction items as [|[k v] items IH]; intros acc st; simpl.
  - intros [= <- <-]. split; [done | apply retyped_refl].
  - destruct v; try apply IH.
    intros H. apply bind_inv in H as ([] & s1 & H1 & H).
    unfold infer_type in H1. apply bind_inv in H1 as (h & s0 & Hh & H1).
    apply lift_inv in Hh as [Hh ->]. injection H1 as <-.
    destruct (IH _ _ H) as [-> Hret]. split; [done|].
    rewrite fmap_cons. eapply retyped_trans.
    + eapply retyped_mono; [|apply retyped_infer].
      intros r' ->%list_elem_of_singleton. left.
    + eapply retyped_mono; [|exact Hret]. intros r' Hr'. by right.
Qed.



(** What a call of the decorator that returns has done. *)
Lemma wrapper_Ok_inv cls st c st' :
  sofaParameterNodeWrapper cls st = (Ok c, st') →
  well_typed st cls ∧
  cls_sofa_node_mappers c =
    foldl (λ a e, dict_set e.1 e.2 a) []
      (mapper_fields (cls_dict (with_controls st cls))) ∧
  retyped (mapper_fields (cls_dict (with_controls st cls))).*2 st st' ∧
  ∃ c1, parameterNodeWrapper (with_controls st cls) = Ok c1 ∧
        dataclass c1 = Ok (wrapped_class c).
Proof.
  intros H. destruct (wrapper_checks cls st) as [[Hwt E]|[_ [msg E]]]; [|congruence].
  split; [done|]. rewrite E in H.
  apply bind_inv in H as (reg & s1 & Hscan & H).
  apply bind_inv in H as (c1 & s2 & H1 & H).
  apply bind_inv in H as (c2 & s3 & H2 & H).
  injection H as <- <-.
  apply lift_inv in H1 as [H1 ->]. apply lift_inv in H2 as [H2 ->].
  destruct (scan_mappers_Ok _ _ _ _ _ _ Hscan) as [-> Hret].
  split_and!; [done | done |]. by exists c1.
Qed.


(** X16.  When sofaParameterNodeWrapper returns, the class returned is the
    one that dataclass returns for the class that parameterNodeWrapper
    returns for the class with its defaults; and the class with its defaults
    binds each control attribute to the value that the class showed, and to
    its default (dt 0.01, totalSteps -1, currentStep 0, isSimulationRunning
    False, sofaParameterNodeWrapped True) when the class showed none: a
    declared totalSteps is kept, and a SofaNodeMapper without a value that
    was bound to a control name is replaced by the default.  Every other
    attribute is as the class declared it. *)
Theorem sofaParameterNodeWrapper_attributes cls st c st' :
  sofaParameterNodeWrapper cls st = (Ok c, st') →
  (∃ c1, parameterNodeWrapper (with_controls st cls) = Ok c1 ∧
         dataclass c1 = Ok (wrapped_class c)) ∧
  ∀ var,
    dict_get var (cls_dict (with_controls st cls)) =
    if is_control var then
      match shown st cls var with
      | Some v => Some v
      | None => dict_get var control_defaults
      end
    else dict_get var (cls_dict cls).
Proof.
  intros H. destruct (wrapper_Ok_inv cls st c st' H) as (Hwt & _ & _ & c1 & E1 & E2).
  split; [by exists c1|].
  intros var. by apply with_controls_lookup.
Qed.

Lemma wrapper_registry cls st c st' :
  NoDup (cls_dict cls).*1 →
  sofaParameterNodeWrapper cls st = (Ok c, st') →
  cls_sofa_node_mappers c = mapper_fields (own_fields (cls_dict cls)) ∧
  retyped (mapper_fields (own_fields (cls_dict cls))).*2 st st'.
Proof.
  intros Hnd H. destruct (wrapper_Ok_inv cls st c st' H) as (Hwt & -> & Hret & _).
  destruct (with_controls_spec st cls Hwt Hnd) as [Hnd' E].
  rewrite E in Hret. split; [|done].
  rewrite registry_fold; [by rewrite E|].
  simpl. by apply mapper_fields_NoDup.
Qed.

(** X18.  The registry __sofa_node_mappers__ of the class that
    sofaParameterNodeWrapper returns is made of the fields that the class
    binds to a SofaNodeMapper under a name that is not a control attribute,
    each under its field name and in the order of their definition.  A
    descriptor bound to a control name is not in it: the decorator has
    replaced it by the default. *)
Theorem sofaParameterNodeWrapper_registry cls st c st' :
  NoDup (cls_dict cls).*1 →
  sofaParameterNodeWrapper cls st = (Ok c, st') →
  cls_sofa_node_mappers c = mapper_fields (own_fields (cls_dict cls)) ∧
  ∀ name r, (name, r) ∈ cls_sofa_node_mappers c ↔
            (name, PyMapper r) ∈ cls_dict cls ∧ is_control name = false.
Proof.
  intros Hnd H. destruct (wrapper_registry cls st c st' Hnd H) as [E _].
  split; [done|]. intros name r.
  rewrite E, mapper_fields_elem. unfold own_fields.
  rewrite !list_elem_of_In, List.filter_In. simpl.
  by rewrite negb_true_iff.
Qed.

(** ** Declaring a class *)

Lemma fields_set_plain_elem k v ns e :
  is_mapper v = false → e ∈ mapper_fields (dict_set k v ns) → e ∈ mapper_fields ns.
Proof.
  intros Hv. induction ns as [|[k0 w] ns IH]; simpl.
  - destruct v; simpl in *; try done; by intros ?%elem_of_nil.
  - destruct (String.eqb k0 k).
    + destruct v, w; simpl in *; try done; intros H; by try right.
    + destruct w; simpl; try done.
      rewrite !elem_of_cons. intros [->|H]; [by left | right; by apply IH].
Qed.

Lemma fields_set_plain_NoDup k v ns :
  is_mapper v = false →
  NoDup (mapper_fields ns).*2 → NoDup (mapper_fields (dict_set k v ns)).*2.
Proof.
  intros Hv. induction ns as [|[k0 w] ns IH]; simpl.
  - destruct v; simpl in *; try done; intros _; constructor.
  - destruct (String.eqb k0 k).
    + destruct v, w; simpl in *; try done; by intros ?%NoDup_cons_1_2.
    + destruct w; simpl; try done.
      rewrite !NoDup_cons. intros [Hnot Hnd]. split; [|by apply IH].
      intros Hin. apply Hnot. apply list_elem_of_fmap in Hin as (e & -> & He).
      apply list_elem_of_fmap. exists e. split; [done|].
      by eapply fields_set_plain_elem.
Qed.

Lemma fields_set_mapper_elem k r ns e :
  e ∈ mapper_fields (dict_set k (PyMapper r) ns) → e = (k, r) ∨ e ∈ mapper_fields ns.
Proof.
  induction ns as [|[k0 w] ns IH]; simpl.
  - intros ?%list_elem_of_singleton. by left.
  - destruct (String.eqb k0 k) eqn:E.
    + apply String.eqb_eq in E as ->. simpl. rewrite elem_of_cons.
      intros [->|H]; [by left|]. right. destruct w; simpl; by try right.
    + destruct w; simpl; try done.
      rewrite !elem_of_cons. intros [->|H]; [right; by left|].
      destruct (IH H); [by left | right; by right].
Qed.

Lemma fields_set_mapper_NoDup k r ns :
  r ∉ (mapper_fields ns).*2 →
  NoDup (mapper_fields ns).*2 → NoDup (mapper_fields (dict_set k (PyMapper r) ns)).*2.
Proof.
  induction ns as [|[k0 w] ns IH]; simpl.
  - intros _ _. apply NoDup_singleton.
  - destruct (String.eqb k0 k) eqn:E.
    + simpl. intros Hr Hnd. apply NoDup_cons.
      destruct w; simpl in *; try done.
      apply not_elem_of_cons in Hr as [_ Hr]. by apply NoDup_cons_1_2 in Hnd.
    + destruct w; simpl; try done.
      rewrite !not_elem_of_cons, !NoDup_cons. intros [Hne Hr] [Hnot Hnd].
      split; [|by apply IH].
      intros Hin. apply list_elem_of_fmap in Hin as (e & He2 & He).
      destruct (fields_set_mapper_elem _ _ _ _ He) as [->|He'].
      * simpl in He2. congruence.
      * apply Hnot. apply list_elem_of_fmap. by exists e.
Qed.

Lemma SofaNodeMapper_init_flags name inp out rec m :
  SofaNodeMapper_init name inp out rec = Ok m →
  inputMapping_has_run m = false ∧ outputMapping_has_run m = false.
Proof.
  unfold SofaNodeMapper_init.
  destruct (negb (is_None inp) && negb (callable inp)); [done|].
  destruct (negb (is_None out) && negb (callable out)); [done|].
  by intros [= <-].
Qed.

(** The body of a class leaves a class whose names are distinct and whose
    descriptor fields hold the descriptors that it has built. *)
Lemma class_body_fresh st0 ds cls st cls' st' :
  constructs_its_mappers ds →
  class_body ds cls st = (Ok cls', st') →
  NoDup (cls_dict cls).*1 →
  fresh_descriptors st0 (mapper_fields (cls_dict cls)) st →
  NoDup (cls_dict cls').*1 ∧
  fresh_descriptors st0 (mapper_fields (cls_dict cls')) st' ∧
  self st' = self st ∧ objs st' = objs st ∧ log st' = log st ∧
  run_once_fns st' = run_once_fns st.
Proof.
  intros Hds. revert cls st.
  induction Hds as [|[name v|name a b c d0|name a] ds Hd Hds IH]; intros cls st; simpl.
  - by intros [= <- <-].
  - intros H Hk (Hold & Hnd & Hall). apply (IH _ _ H); [by apply dict_set_NoDup|].
    split_and!; [done | |].
    + by apply fields_set_plain_NoDup.
    + apply Forall_forall. intros e He. rewrite Forall_forall in Hall.
      apply Hall. exact (fields_set_plain_elem _ _ _ _ Hd He).
  - destruct (SofaNodeMapper_init a b c d0) as [m|e] eqn:Einit; [|done].
    destruct (SofaNodeMapper_init_flags _ _ _ _ _ Einit) as [Hfi Hfo].
    unfold mbind, prog_bind, alloc_mapper. simpl.
    set (r := fresh (dom (mappers st))).
    assert (mappers st !! r = None) as Hr by (apply not_elem_of_dom, is_fresh).
    intros H Hk (Hold & Hnd & Hall).
    rewrite Forall_forall in Hall.
    destruct (IH _ _ H) as (Hk' & Hfresh & Hs & Ho & Hl & Hf);
      [by apply dict_set_NoDup | | by split_and!].
    split_and!.
    + intros r0 m0 E0. simpl. rewrite lookup_insert_ne; [by apply Hold|].
      intros <-. rewrite (Hold _ _ E0) in Hr. done.
    + apply fields_set_mapper_NoDup; [|done].
      intros Hin. apply list_elem_of_fmap in Hin as (e & Her & He).
      destruct (Hall e He) as (_ & m1 & E1 & _). rewrite <- Her in E1. congruence.
    + apply Forall_forall. intros e He.
      destruct (fields_set_mapper_elem _ _ _ _ He) as [->|He']; simpl.
      * split.
        -- destruct (mappers st0 !! r) as [m0|] eqn:E0; [|done].
           rewrite (Hold _ _ E0) in Hr. done.
        -- exists m. by rewrite lookup_insert_eq.
      * destruct (Hall e He') as (Hnew & m1 & E1 & Hf1 & Hf2). split; [done|].
        exists m1. rewrite lookup_insert_ne; [done|].
        intros Heq. rewrite <- Heq in E1. congruence.
  - intros H Hk Hfr. by apply (IH _ _ H).
Qed.

(** X19.  When a decorated class statement that constructs its descriptors
    in its body returns a class, every registry entry holds a descriptor that
    did not exist before, with both has-run flags clear; the entries hold
    pairwise distinct descriptors; and the descriptors that existed before,
    the controller, the parameter nodes and the log are as they were. *)
Theorem declare_class_fresh_descriptors ds st c st' :
  constructs_its_mappers ds →
  declare_class ds st = (Ok c, st') →
  fresh_descriptors st (cls_sofa_node_mappers c) st' ∧
  self st' = self st ∧ objs st' = objs st ∧ log st' = log st.
Proof.
  intros Hds. unfold declare_class. intros H.
  apply bind_inv in H as (cls & s1 & Hbody & H).
  destruct (class_body_fresh st ds empty_class st cls s1 Hds Hbody)
    as (Hk & (Hold & Hnd & Hall) & Hs & Ho & Hl & _).
  { constructor. }
  { split_and!; [done | constructor | constructor]. }
  destruct (wrapper_registry cls s1 c st' Hk H)
    as [-> (Hs' & Ho' & Hl' & _ & _ & Hret)].
  assert (mapper_fields (own_fields (cls_dict cls)) `sublist_of`
          mapper_fields (cls_dict cls)) as Hsub by apply mapper_fields_filter_sublist.
  rewrite Forall_forall in Hall.
  split_and!; [split_and! | congruence ..].
  - intros r m Em. destruct (Hret r) as [Hun _]. rewrite Hun; [by apply Hold|].
    intros (e & -> & He)%list_elem_of_fmap.
    destruct (Hall e (elem_of_sublist _ _ _ He Hsub)) as [Hnew _]. congruence.
  - eapply sublist_NoDup; [exact Hnd|]. by apply fmap_sublist.
  - apply Forall_forall. intros e He.
    destruct (Hall e (elem_of_sublist _ _ _ He Hsub)) as (Hnew & m & Em & Hfi & Hfo).
    split; [done|]. destruct (Hret e.2) as [_ Hty]. rewrite Em in Hty.
    destruct Hty as [t Et]. exists (set_type t m). by split_and!.
Qed.

(** * The run_once decorator *)


End Properties.

(** * Concrete runs *)

(** Functions [0], [1] and [2] return and keep the control fields. *)
Lemma toy_mover_ok f :
  (f <? 3)%nat = true → @mover_returns toy f ∧ @keeps_control toy f.
Proof.
  intros Hf. destruct f as [|[|[|f]]]; [by split ..|discriminate Hf].
Defined.

Lemma toy_built_Built total : Built (toy_built total).
Proof.
  split_and!; [done | by eexists |].
  exists 0%nat, (toy_pnode total). by split.
Defined.

Lemma toy_built_well_behaved total : well_behaved (toy_built total).
Proof.
  intros root r p Hroot [Hpn Hp].
  assert (root = 0%nat) as -> by (vm_compute in Hroot; congruence).
  assert (r = 0%nat) as -> by (vm_compute in Hpn; congruence).
  assert (objs (toy_built total) !! 0%nat = Some (toy_pnode total)) as E by done.
  pose proof (eq_trans (eq_sym E) Hp : Some (toy_pnode total) = Some p) as [= <-].
  apply List.Forall_cons; [|apply List.Forall_cons; [|apply List.Forall_nil]].
  - eexists. split; [by vm_compute|].
    intros [] f [= <-]. destruct (toy_mover_ok 0 eq_refl) as [Hret Hk].
    split_and!; [done | done |].
    right. exists "FEM". split; [done|]. intros sc. by eexists.
  - eexists. split; [by vm_compute|].
    intros [] f [= <-];
      [destruct (toy_mover_ok 1 eq_refl) as [Hret Hk]
      |destruct (toy_mover_ok 2 eq_refl) as [Hret Hk]];
      (split_and!; [done | done | by left]).
Defined.

(** Witness of C1: two steps run, the third stops. *)
Lemma step_bounded_witness :
  (running (run (StartSimulation :: steps 2) (toy_built 2)) = Some true ∧
   step_counter (run (StartSimulation :: steps 2) (toy_built 2)) = Some 2) ∧
  (running (run (StartSimulation :: steps 3) (toy_built 2)) = Some false ∧
   step_counter (run (StartSimulation :: steps 3) (toy_built 2)) = Some 2).
Proof.
  assert (attached (toy_built 2) 0%nat (toy_pnode 2)) as Hatt by (by split).
  assert (0 ≤ 2) as Hpos by (vm_compute; discriminate).
  destruct (step_bounded (toy_built 2) 0%nat (toy_pnode 2) 2
              (toy_built_Built 2) Hatt (toy_built_well_behaved 2) eq_refl Hpos)
    as (_ & _ & H2 & H3).
  exact (conj H2 H3).
Defined.

(** Witness of C2: seven steps without a bound. *)
Lemma step_unbounded_witness :
  outcomes (StartSimulation :: steps 7) (toy_built (-1)) = replicate 8 (Ok tt) ∧
  running (run (StartSimulation :: steps 7) (toy_built (-1))) = Some true ∧
  step_counter (run (StartSimulation :: steps 7) (toy_built (-1))) = Some 0.
Proof.
  assert (attached (toy_built (-1)) 0%nat (toy_pnode (-1))) as Hatt by (by split).
  exact (step_unbounded (toy_built (-1)) 0%nat (toy_pnode (-1)) 7%nat
           (toy_built_Built (-1)) Hatt (toy_built_well_behaved (-1)) eq_refl).
Defined.

(** C1 as stated fails: a mover is handed the parameter node and can write
    its fields.  Here the class has totalSteps = 2 and an input mover that
    sets currentStep to 5: the Push of the first step writes 5, the step finds
    5 >= 2 and clears the running flag; after two steps the flag is false and
    currentStep is 5. *)
Lemma step_bounded_mover_writes_counter :
  ¬ (∀ (st : @State toy) (r : loc) (p : pnode) (N : Z),
       Built st → attached st r p → totalSteps (attrs p) = N → 0 ≤ N →
       running (run (StartSimulation :: steps (Z.to_nat N)) st) = Some true ∧
       step_counter (run (StartSimulation :: steps (Z.to_nat N)) st) = Some N).
Proof.
  intros H.
  assert (Built toy_counter_built) as HB.
  { split_and!; [done | by eexists |]. by eexists _, _. }
  assert (0 ≤ 2) as Hpos by (vm_compute; discriminate).
  destruct (H toy_counter_built 0%nat
              (toy_probe_pnode (with_currentStep 5 (toy_fields 2))) 2
              HB (conj eq_refl eq_refl) eq_refl Hpos) as [H1 _].
  vm_compute in H1. discriminate H1.
Qed.

(** The same run, observed: after the two steps and after the third. *)
Example mover_writes_counter_run :
  running (run (StartSimulation :: steps 2) toy_counter_built) = Some false ∧
  step_counter (run (StartSimulation :: steps 2) toy_counter_built) = Some 5 ∧
  step_counter (run (StartSimulation :: steps 3) toy_counter_built) = Some 5.
Proof. by vm_compute. Qed.

(** C2 as stated fails, for the same reason.  Here the class has totalSteps
    = -1 and an output mover that clears the running flag: the Pull of the
    first step clears it. *)
Lemma step_unbounded_mover_clears_flag :
  ¬ (∀ (st : @State toy) (r : loc) (p : pnode) (k : nat),
       Built st → attached st r p → totalSteps (attrs p) = -1 →
       running (run (StartSimulation :: steps k) st) = Some true ∧
       step_counter (run (StartSimulation :: steps k) st) = Some 0).
Proof.
  intros H.
  assert (Built toy_halting_built) as HB.
  { split_and!; [done | by eexists |]. by eexists _, _. }
  destruct (H toy_halting_built 0%nat (toy_probe_pnode (toy_fields (-1))) 1%nat
              HB (conj eq_refl eq_refl) eq_refl) as [H1 _].
  vm_compute in H1. discriminate H1.
Qed.

(** Witness of C3: a first call that returns, then three more calls, two of
    them with arguments that a first call would reject. *)
Lemma setupScene_pushes_once_witness :
  count_events (is_sync ToSofa)
    (log (run (SetupScene (PyObj 0%nat) (PyNode 0%nat)
                 :: setups [(PyNone, PyNone); (PyObj 0%nat, PyNode 0%nat);
                            (PyInt 3, PyStr "root")])
              (toy_idle 2))) = 1%nat ∧
  _sceneUp (self (toy_built 2)) = true.
Proof.
  assert (setupScene (PyObj 0%nat) (PyNode 0%nat) (toy_idle 2) = (Ok tt, toy_built 2))
    as Hfirst by (vm_compute; reflexivity).
  destruct (setupScene_pushes_once (toy_idle 2) (PyObj 0%nat) (PyNode 0%nat)
              (toy_built 2)
              [(PyNone, PyNone); (PyObj 0%nat, PyNode 0%nat); (PyInt 3, PyStr "root")]
              eq_refl Hfirst) as (H1 & H2 & _).
  exact (conj H1 H2).
Defined.

(** Witness of C4: the run-once input mover of ["grid"] has run during
    setupScene; three steps later it has still run once. *)
Lemma run_once_mover_at_most_once_witness :
  (flag ToSofa 1%nat (run (StartSimulation :: steps 3) (toy_built 2)) = Some true ∧
   List.filter (touches ToSofa 1%nat)
     (log (run (StartSimulation :: steps 3) (toy_built 2)))
   = [EvMover ToSofa 1%nat 1%nat]) ∧
  (count_events (is_mover ToSofa 1%nat)
     (log (run (StartSimulation :: steps 3) (toy_built 2))) ≤ 2)%nat.
Proof.
  assert (1%nat ∈ run_once_fns (toy_built 2)) as Hin by (by vm_compute).
  destruct (run_once_mover_at_most_once ToSofa 1%nat toy_grid_fired 1%nat
              (StartSimulation :: steps 3) (toy_built 2) eq_refl eq_refl Hin) as [H1 H2].
  destruct (H2 (proj1 (toy_mover_ok 1 eq_refl))) as [H3 _].
  exact (conj (H1 eq_refl) H3).
Defined.

(** C4 as stated fails: a run-once mover that raises leaves its flag clear
    (the flag is written after the call, lines 240-242), so every further
    Push calls it again.  Here setupScene has raised in its Push, which has
    called the mover once; two more Pushes call it twice more. *)
Lemma run_once_mover_raising_called_again :
  ¬ (∀ (st : @State toy) (d : direction) (r : loc) (cs : list call),
       run_once_mover d r st →
       (count_events (is_mover d r) (log (run cs st))
          ≤ S (count_events (is_mover d r) (log st)))%nat).
Proof.
  intros H.
  assert (run_once_mover ToSofa 0%nat toy_failing_attached) as Hro.
  { exists (toy_probe (Some 5%nat) None), 5%nat. split_and!; [done | done |]. by vm_compute. }
  specialize (H toy_failing_attached ToSofa 0%nat [UpdateSofa; UpdateSofa] Hro).
  vm_compute in H. lia.
Qed.

(** The same run, call by call: each Push raises the exception of the mover,
    after having called it. *)
Example raising_mover_every_push :
  outcomes [UpdateSofa; UpdateSofa] toy_failing_attached
  = [Raise (PyException "RuntimeError" "the mover failed");
     Raise (PyException "RuntimeError" "the mover failed")] ∧
  List.filter (touches ToSofa 0%nat) (log (run [UpdateSofa; UpdateSofa] toy_failing_attached))
  = [EvMover ToSofa 0%nat 5%nat; EvMover ToSofa 0%nat 5%nat; EvMover ToSofa 0%nat 5%nat] ∧
  flag ToSofa 0%nat (run [UpdateSofa; UpdateSofa] toy_failing_attached) = Some false.
Proof. by vm_compute. Qed.

(** From a fresh controller: the run-once mover is called once in all. *)
Example run_once_from_idle :
  count_events (is_mover ToSofa 1%nat)
    (log (run (SetupScene (PyObj 0%nat) (PyNode 0%nat) :: StartSimulation :: steps 3
                 ++ [Clean; SetupScene (PyObj 0%nat) (PyNode 0%nat); StartSimulation]
                 ++ steps 2)
              (toy_idle 5))) = 1%nat.
Proof. by vm_compute. Qed.

(** Witness of C5: a step before the scene is set up. *)
Lemma simulationStep_not_running_witness :
  simulationStep (toy_idle 2)
  = (Ok tt, set_log [EvErrorDisplay not_running_msg] (toy_idle 2)).
Proof.
  exact (simulationStep_not_running (toy_idle 2) (or_introl eq_refl)).
Defined.

(** A step in the Built state before startSimulation: the running flag is
    false. *)
Example simulationStep_stopped :
  simulationStep (toy_built 2)
  = (Ok tt, set_log (log (toy_built 2) ++ [EvErrorDisplay not_running_msg]) (toy_built 2)).
Proof. vm_compute. reflexivity. Qed.

(** C6 as stated fails: with a valid container and a root that is not a node,
    setupScene raises ValueError after it has stored the container, so that
    the state of the controller is not the one it was called in. *)
Lemma setupScene_bad_root_changes_state :
  ¬ (∀ (st : @State toy) (a b : pyval),
       _sceneUp (self st) = false →
       ¬ valid_container st a ∨ as_node b = None →
       ∃ msg, setupScene a b st = (Raise (ValueError msg), st)).
Proof.
  intros H.
  destruct (H (toy_idle 2) (PyObj 0%nat) PyNone eq_refl (or_intror eq_refl)) as [msg E].
  apply (f_equal (λ x, _parameterNode (self x.2))) in E.
  vm_compute in E. discriminate E.
Qed.

(** An argument that is not an instance of a wrapped class has no attribute
    sofaParameterNodeWrapped: the unguarded getattr of line 168 raises
    AttributeError before the ValueError of line 169 can be raised. *)
Example setupScene_unwrapped_AttributeError :
  setupScene (PyInt 3) (PyNode 0%nat) (toy_idle 2)
  = (Raise (AttributeError "sofaParameterNodeWrapped"), toy_idle 2).
Proof. reflexivity. Qed.

(** Witness of C6 as amended: a valid container and None as the root. *)
Lemma setupScene_rejects_witness :
  ∃ msg,
    (rejected_container (toy_idle 2) (PyObj 0%nat) ∧
     setupScene (PyObj 0%nat) PyNone (toy_idle 2) = (Raise (ValueError msg), toy_idle 2)) ∨
    (valid_container (toy_idle 2) (PyObj 0%nat) ∧
     setupScene (PyObj 0%nat) PyNone (toy_idle 2) =
       (Raise (ValueError msg),
        set_self {| _sceneUp := false; _rootNode := None;
                    _parameterNode := Some 0%nat |} (toy_idle 2))).
Proof.
  assert (valid_container (toy_idle 2) (PyObj 0%nat)) as Hval.
  { exists 0%nat, (toy_pnode 2). split_and!; reflexivity. }
  exact (setupScene_rejects (toy_idle 2) (PyObj 0%nat) PyNone eq_refl
           (or_intror (conj Hval eq_refl))).
Defined.


(** Witness of C9: an integer as the input mover. *)
Lemma SofaNodeMapper_rejects_non_callable_witness :
  (∃ msg, SofaNodeMapper_init (PyStr "FEM") (PyInt 3) PyNone (PyBool false)
            = Raise (ValueError msg)) ∧
  (∃ msg st',
     declare_class
       ([Attr "dt" (PyFloat float_0_01); Mapper "grid" PyNone (PyFunc 1%nat) PyNone PyNone]
        ++ Mapper "fem" (PyStr "FEM") (PyInt 3) PyNone (PyBool false)
        :: [Attr "totalSteps" (PyInt 10)])
       (toy_idle 2)
     = (Raise (ValueError msg), st')).
Proof.
  exact (SofaNodeMapper_rejects_non_callable (Env := toy)
           (PyStr "FEM") (PyInt 3) PyNone (PyBool false) "fem"
           [Attr "dt" (PyFloat float_0_01); Mapper "grid" PyNone (PyFunc 1%nat) PyNone PyNone]
           [Attr "totalSteps" (PyInt 10)] (toy_idle 2)
           (or_introl (conj eq_refl eq_refl))).
Defined.

(** Witness of C10: the container is attached and the scene is not up, after
    a setupScene that has rejected its root node. *)
Lemma startSimulation_unconditional_witness :
  _sceneUp (self (toy_attached 2)) = false ∧
  (startSimulation (toy_attached 2)).1 = Ok tt ∧
  running (startSimulation (toy_attached 2)).2 = Some true ∧
  step_counter (startSimulation (toy_attached 2)).2 = Some 0 ∧
  _sceneUp (self (startSimulation (toy_attached 2)).2) = false.
Proof.
  destruct (startSimulation_unconditional (toy_attached 2) 0%nat (toy_pnode 2)
              (conj eq_refl eq_refl)) as (H1 & H2 & H3 & H4).
  split; [reflexivity|]. split; [by rewrite H1|]. exact (conj H2 (conj H3 H4)).
Defined.

(** ** Concrete runs of the further properties *)

Lemma toy_idle_entries total :
  Forall (λ e, entry_ok (toy_idle total) 0%nat e.2) (sofa_node_mappers (toy_pnode total)).
Proof.
  apply List.Forall_cons; [|apply List.Forall_cons; [|apply List.Forall_nil]].
  - eexists. split; [by vm_compute|].
    intros [] f [= <-]. destruct (toy_mover_ok 0 eq_refl) as [Hret Hk].
    split_and!; [done | done |].
    right. exists "FEM". split; [done|]. intros sc. by eexists.
  - eexists. split; [by vm_compute|].
    intros [] f [= <-];
      [destruct (toy_mover_ok 1 eq_refl) as [Hret Hk]
      |destruct (toy_mover_ok 2 eq_refl) as [Hret Hk]];
      (split_and!; [done | done | by left]).
Defined.

Lemma toy_built_entries total :
  Forall (λ e, entry_ok (toy_built total) 0%nat e.2) (sofa_node_mappers (toy_pnode total)).
Proof.
  apply (toy_built_well_behaved total 0%nat 0%nat (toy_pnode total)); [done | by split].
Defined.

(** Witness of X1: start then stop on a controller whose setupScene failed. *)
Lemma stopSimulation_ignored_when_not_up_witness :
  running (run [StartSimulation; StopSimulation] (toy_attached 2)) = Some true.
Proof.
  destruct (stopSimulation_ignored_when_not_up (toy_attached 2) 0%nat (toy_pnode 2)
              (conj eq_refl eq_refl) eq_refl) as (_ & _ & H).
  exact H.
Defined.

(** Witness of X2: stop, then step, in the Built state. *)
Lemma stopSimulation_then_step_witness :
  let st1 := set_objs (<[0%nat := with_attrs (with_isSimulationRunning false
                                                (attrs (toy_pnode 2))) (toy_pnode 2)]>
                         (objs (toy_built 2))) (toy_built 2) in
  stopSimulation (toy_built 2) = (Ok tt, st1) ∧
  simulationStep st1 =
    (Ok tt, set_log (log (toy_built 2) ++ [EvErrorDisplay not_running_msg]) st1).
Proof.
  destruct (stopSimulation_then_step (toy_built 2) 0%nat (toy_pnode 2)
              eq_refl (conj eq_refl eq_refl)) as (H1 & _ & H2).
  exact (conj H1 H2).
Defined.

(** Witness of X3: a new controller. *)
Lemma startSimulation_without_parameterNode_witness :
  ∃ msg, startSimulation (toy_idle 2) = (Raise (AttributeError msg), toy_idle 2).
Proof. exact (startSimulation_without_parameterNode (toy_idle 2) eq_refl). Defined.

(** Witness of X4: clean in the Built state. *)
Lemma clean_tears_down_witness :
  rootNode (clean (toy_built 2)).2 = None ∧
  running (clean (toy_built 2)).2 = Some false ∧
  step_counter (clean (toy_built 2)).2 = step_counter (toy_built 2).
Proof.
  destruct (clean_tears_down (toy_built 2) 0%nat 0%nat (toy_pnode 2)
              eq_refl eq_refl (conj eq_refl eq_refl)) as (_ & H).
  exact H.
Defined.

(** Witness of X5: setupScene raising on a missing node. *)
Lemma setupScene_raise_leaves_scene_down_witness :
  _sceneUp (self (setupScene (PyObj 0%nat) (PyNode 0%nat) toy_liver_idle).2) = false ∧
  count_events is_init (log (setupScene (PyObj 0%nat) (PyNode 0%nat) toy_liver_idle).2)
  = count_events is_init (log toy_liver_idle).
Proof.
  assert (setupScene (PyObj 0%nat) (PyNode 0%nat) toy_liver_idle
          = (Raise (NodeNotFound "Liver"),
             (setupScene (PyObj 0%nat) (PyNode 0%nat) toy_liver_idle).2)) as E
    by (vm_compute; reflexivity).
  exact (setupScene_raise_leaves_scene_down toy_liver_idle (PyObj 0%nat) (PyNode 0%nat)
           _ _ eq_refl E).
Defined.

(** Witness of X6: the first setupScene. *)
Lemma setupScene_builds_witness :
  ∃ st1, setupScene (PyObj 0%nat) (PyNode 0%nat) (toy_idle 2) = (Ok tt, st1) ∧
    self st1 = {| _sceneUp := true; _rootNode := Some 0%nat;
                  _parameterNode := Some 0%nat |}.
Proof.
  destruct (setupScene_builds (toy_idle 2) 0%nat (toy_pnode 2) 0%nat
              eq_refl eq_refl eq_refl (toy_idle_entries 2)) as (st1 & H1 & H2 & _).
  exists st1. exact (conj H1 H2).
Defined.

(** Witness of X7: clean, then setupScene again. *)
Lemma scene_rebuilt_after_clean_witness :
  outcomes [Clean; SetupScene (PyObj 0%nat) (PyNode 0%nat)] (toy_built 2)
  = [Ok tt; Ok tt] ∧
  count_events (is_sync ToSofa)
    (log (run [Clean; SetupScene (PyObj 0%nat) (PyNode 0%nat)] (toy_built 2))) = 2%nat.
Proof.
  destruct (scene_rebuilt_after_clean (toy_built 2) 0%nat 0%nat 0%nat (toy_pnode 2)
              eq_refl eq_refl (conj eq_refl eq_refl) eq_refl (toy_built_entries 2))
    as (H1 & _ & _ & H2 & _).
  exact (conj H1 H2).
Defined.

(** Witness of X8: a new controller, through calls that raise and calls that
    return. *)
Lemma scene_up_ok_invariant_witness :
  scene_up_ok
    (run [SimulationStep; SetupScene (PyObj 0%nat) PyNone; StartSimulation;
          SetupScene (PyObj 0%nat) (PyNode 0%nat); SimulationStep; Clean; UpdateMRML]
       (toy_idle 2)).
Proof.
  apply scene_up_ok_invariant. intros Hup. vm_compute in Hup. discriminate Hup.
Defined.

(** Witness of X9: totalSteps = 2. *)
Lemma bounded_run_advances_N_times_witness :
  count_events is_animate (log (run (StartSimulation :: steps 3) (toy_built 2))) = 2%nat ∧
  count_events (is_sync ToMRML) (log (run (StartSimulation :: steps 3) (toy_built 2)))
  = 3%nat.
Proof.
  assert (0 ≤ 2) as Hpos by (vm_compute; discriminate).
  destruct (bounded_run_advances_N_times (toy_built 2) 0%nat (toy_pnode 2) 2
              (toy_built_Built 2) (conj eq_refl eq_refl) (toy_built_well_behaved 2)
              eq_refl Hpos) as (H1 & _ & H3).
  exact (conj H1 H3).
Defined.

(** Witness of X10: totalSteps = -1, four steps. *)
Lemma unbounded_run_advances_every_step_witness :
  count_events is_animate (log (run (StartSimulation :: steps 4) (toy_built (-1)))) = 4%nat ∧
  step_counter (run (StartSimulation :: steps 4) (toy_built (-1))) = Some 0.
Proof.
  assert (totalSteps (attrs (toy_pnode (-1))) < 0) as Hneg by reflexivity.
  destruct (unbounded_run_advances_every_step (toy_built (-1)) 0%nat (toy_pnode (-1)) 4
              (toy_built_Built (-1)) (conj eq_refl eq_refl) (toy_built_well_behaved (-1))
              Hneg) as (H1 & _ & _ & _ & H5).
  exact (conj H1 H5).
Defined.

(** Witness of X11: the every-step input mover of ["fem"], on node ["FEM"]. *)
Lemma due_mover_is_called_witness :
  (sync_body ToSofa 0%nat (toy_built 2)).1 = Ok tt ∧
  log (sync_body ToSofa 0%nat (toy_built 2)).2
  = log (toy_built 2) ++ [EvResolve ToSofa 0%nat "FEM"] ++ [EvMover ToSofa 0%nat 0%nat].
Proof.
  assert (resolves_to (Env := toy) ToSofa 0%nat 0%nat (nodeName toy_fem)
            (sofa (toy_built 2)) 1%nat [EvResolve ToSofa 0%nat "FEM"]) as Hres.
  { right. exists "FEM". split_and!; [done | discriminate | done | done]. }
  assert (0%nat ∈ run_once_fns (toy_built 2) → has_run ToSofa toy_fem = false) as Hdue
    by (intros _; reflexivity).
  destruct (due_mover_is_called ToSofa 0%nat toy_fem 0%nat (toy_built 2) 0%nat
              (toy_pnode 2) 0%nat 1%nat _ eq_refl eq_refl Hdue (conj eq_refl eq_refl)
              eq_refl Hres) as (H1 & H2 & _).
  exact (conj H1 H2).
Defined.

(** Witness of X12: the node ["Liver"] is not in the graph. *)
Lemma setupScene_missing_node_witness :
  setupScene (PyObj 0%nat) (PyNode 0%nat) toy_liver_idle =
    (Raise (NodeNotFound "Liver"),
     set_log [EvSync ToSofa; EvResolve ToSofa 0%nat "Liver"]
       (set_self {| _sceneUp := false; _rootNode := Some 0%nat;
                    _parameterNode := Some 0%nat |} toy_liver_idle)).
Proof.
  assert ("Liver" ≠ "") as Hs by discriminate.
  assert (0%nat ∈ run_once_fns toy_liver_idle → inputMapping_has_run toy_liver = false)
    as Hdue by (intros _; reflexivity).
  exact (setupScene_missing_node toy_liver_idle 0%nat toy_liver_pnode 0%nat "liver"
           0%nat [] toy_liver 0%nat "Liver" eq_refl eq_refl eq_refl eq_refl eq_refl
           eq_refl Hdue eq_refl Hs eq_refl).
Defined.

(** Witness of X13: the input mover of ["fem"] is not run-once. *)
Lemma has_run_only_for_run_once_witness :
  flag ToSofa 0%nat (run (StartSimulation :: steps 3) (toy_built 2)) = Some false.
Proof.
  assert (∀ f, mapping ToSofa toy_fem = Some f → f ∉ run_once_fns (toy_built 2)) as Hnot.
  { intros f [= <-]. vm_compute. set_solver. }
  exact (has_run_only_for_run_once ToSofa 0%nat toy_fem (StartSimulation :: steps 3)
           (toy_built 2) eq_refl eq_refl Hnot).
Defined.

(** Witness of X14: one more Push calls the every-step mover of ["fem"] once
    more. *)
Lemma every_push_calls_mover_witness :
  (sync ToSofa (toy_built 2)).1 = Ok tt ∧
  count_events (is_mover ToSofa 0%nat) (log (sync ToSofa (toy_built 2)).2) = 2%nat.
Proof.
  assert (0%nat ∉ run_once_fns (toy_built 2)) as Hnot by (vm_compute; set_solver).
  exact (every_push_calls_mover ToSofa (toy_built 2) 0%nat 0%nat (toy_pnode 2) 0%nat
           toy_fem 0%nat eq_refl (conj eq_refl eq_refl) (toy_built_well_behaved 2)
           eq_refl eq_refl Hnot).
Defined.


(** A bound method takes no attributes: decorating it raises. *)
Example run_once_bound_method :
  run_once 6%nat (toy_idle 5)
  = (Raise (AttributeError "object has no attribute 'run_once'"), toy_idle 5).
Proof. reflexivity. Qed.

(** ** Concrete runs of the class decorator *)

(** The class of the concrete runs, declared in an empty store. *)
Example declare_class_toy :
  (declare_class toy_body toy_empty).1 = Ok toy_wrapped.
Proof. by vm_compute. Qed.

(** A control attribute declared with a value of the wrong type. *)
Example declare_class_TypeError :
  declare_class [Attr "totalSteps" (PyFloat float_0_01)] toy_empty
  = (Raise (TypeError "sofaParameterNodeWrapper: totalSteps has the wrong type"),
     toy_empty).
Proof. by vm_compute. Qed.

(** A descriptor bound to the control name ["dt"] holds no value, so that the
    class does not show ["dt"]: the decorator binds ["dt"] to its default in
    the place of the descriptor, which is not in the registry. *)
Example declare_class_shadowed_control :
  (declare_class toy_shadow_body toy_empty).1 = Ok toy_shadow_wrapped.
Proof. by vm_compute. Qed.

(** An annotation that does not resolve, in a class with a descriptor field:
    the decorator raises the NameError of get_type_hints. *)
Example declare_class_NameError :
  (declare_class toy_unresolved_body toy_empty).1
  = Raise (NameError "name 'vtkMRMLNoSuchNode' is not defined").
Proof. by vm_compute. Qed.

(** The same annotation in a class without a descriptor field: get_type_hints
    is not called. *)
Example declare_class_no_descriptor :
  ∃ c, (declare_class [Annotation "fem" (AnnOther "vtkMRMLNoSuchNode")] toy_empty).1 = Ok c
       ∧ cls_sofa_node_mappers c = [].
Proof. eexists. split; [by vm_compute | done]. Qed.

(** A descriptor that holds a value, bound to the control name ["dt"]: the
    class shows the value, a string, and the decorator raises TypeError. *)
Example declare_class_valued_descriptor :
  sofaParameterNodeWrapper toy_shadow_class
    (@mkState toy SlicerSofaLogic_init ∅
       {[ 0%nat := {| nodeName := PyStr "FEM"; type := None;
                      recordSequence := PyBool false;
                      inputMapping := Some 0%nat; outputMapping := None;
                      inputMapping_has_run := false; outputMapping_has_run := false;
                      value := Some "liver.vtk" |} ]} ∅ 0 [])
  = (Raise (TypeError "sofaParameterNodeWrapper: dt has the wrong type"),
     @mkState toy SlicerSofaLogic_init ∅
       {[ 0%nat := {| nodeName := PyStr "FEM"; type := None;
                      recordSequence := PyBool false;
                      inputMapping := Some 0%nat; outputMapping := None;
                      inputMapping_has_run := false; outputMapping_has_run := false;
                      value := Some "liver.vtk" |} ]} ∅ 0 []).
Proof. by vm_compute. Qed.

(** A descriptor answers [__get__] once [__set__] has given it a value, which
    must be a string. *)
Example SofaNodeMapper_get_set :
  SofaNodeMapper_get toy_fem
  = Raise (AttributeError "'SofaNodeMapper' object has no attribute 'value'") ∧
  match SofaNodeMapper_set toy_fem (PyStr "liver.vtk") with
  | Ok m => SofaNodeMapper_get m
  | Raise e => Raise e
  end = Ok (PyStr "liver.vtk") ∧
  SofaNodeMapper_set toy_fem (PyInt 3) = Raise (ValueError "Expected type str").
Proof. by vm_compute. Qed.

(** Witness of X16: the declared totalSteps is kept. *)
Lemma sofaParameterNodeWrapper_attributes_witness :
  dict_get "totalSteps" (cls_dict (with_controls (toy_idle 2) toy_class))
  = Some (PyInt 10) ∧
  dict_get "dt" (cls_dict (with_controls (toy_idle 2) toy_class))
  = Some (PyFloat float_0_01) ∧
  dict_get "fem" (cls_dict (with_controls (toy_idle 2) toy_class))
  = Some (PyMapper 0%nat).
Proof.
  assert (sofaParameterNodeWrapper toy_class (toy_idle 2)
          = (Ok toy_wrapped, (sofaParameterNodeWrapper toy_class (toy_idle 2)).2)) as E
    by (vm_compute; reflexivity).
  destruct (sofaParameterNodeWrapper_attributes toy_class (toy_idle 2) toy_wrapped _ E)
    as [_ H].
  exact (conj (H "totalSteps") (conj (H "dt") (H "fem"))).
Defined.

Lemma toy_shadow_NoDup : NoDup (cls_dict toy_shadow_class).*1.
Proof.
  apply NoDup_cons. split; [|apply NoDup_singleton].
  by intros ?%list_elem_of_singleton.
Defined.

(** Witness of X18: the descriptor under the control name ["dt"] is not in
    the registry. *)
Lemma sofaParameterNodeWrapper_registry_witness :
  cls_sofa_node_mappers toy_shadow_wrapped = mapper_fields [("grid", PyMapper 1%nat)] ∧
  ∀ name r, (name, r) ∈ cls_sofa_node_mappers toy_shadow_wrapped ↔
            (name, PyMapper r) ∈ cls_dict toy_shadow_class ∧ is_control name = false.
Proof.
  assert (sofaParameterNodeWrapper toy_shadow_class toy_shadow_declared
          = (Ok toy_shadow_wrapped,
             (sofaParameterNodeWrapper toy_shadow_class toy_shadow_declared).2)) as E
    by (vm_compute; reflexivity).
  exact (sofaParameterNodeWrapper_registry toy_shadow_class toy_shadow_declared
           toy_shadow_wrapped _ toy_shadow_NoDup E).
Defined.

(** Witness of X19: the class of the concrete runs, declared in an empty
    store. *)
Lemma declare_class_fresh_descriptors_witness :
  fresh_descriptors toy_empty (cls_sofa_node_mappers toy_wrapped)
    (declare_class toy_body toy_empty).2.
Proof.
  assert (constructs_its_mappers toy_body) as Hds.
  { repeat (apply List.Forall_cons; [done|]). apply List.Forall_nil. }
  assert (declare_class toy_body toy_empty
          = (Ok toy_wrapped, (declare_class toy_body toy_empty).2)) as E
    by (vm_compute; reflexivity).
  destruct (declare_class_fresh_descriptors toy_body toy_empty toy_wrapped _ Hds E)
    as (H & _).
  exact H.
Defined.
